(** * Glacier-state initialization pipeline: a shallow embedding of
      [initialization/core.py]

    The development follows the layout of the Python module: numeric and
    string helpers first, then the glacier directory with its forward
    simulation oracle, then one module per component (stabilization
    prober, mass-balance calibrator, candidate generator, identifier,
    evaluator), and the theorems at the end.

    Conventions of the embedding.
    - A Python [float] is given by its exact value, a rational ([Q]);
      [-inf] is an extra constructor where the code produces it.  Where
      the code turns a float into a printed decimal (the calibrator's
      [round(x, 2)], the length of an [np.arange]) the binary64
      arithmetic that leads there is that of [Float]; elsewhere the
      arithmetic is exact.  Floats that are printed into file names
      ([str(x)]) are decimals with at most three fractional digits and
      are carried as an integer number of thousandths.
    - numpy's [argsort], whose order among equal keys is not fixed, is a
      parameter of the pipeline, as the flow model is.
    - A glacier directory [gdir] carries the attributes the code reads
      from the object; what lies on disk below [gdir.dir] is the mutable
      [disk]: the files keyed by absolute path, the diagnostics mapping,
      the lines of [log.txt], and a trace of the ensemble tasks requested
      and the forward simulations executed so far.
    - A Python exception is the outcome [Raise]; the disk reached at the
      point of the exception is kept, as [try/except] observes it. *)

From Stdlib Require Import ZArith QArith Qabs Qround Qminmax Lia Bool Ascii String.
From Stdlib Require Import Numbers.DecimalString Numbers.DecimalZ Numbers.DecimalN.
From stdpp Require Import base option list gmap strings fin_maps.

Local Open Scope string_scope.
Local Open Scope Z_scope.

(* ===================================================================== *)
(** * Numeric helpers                                                      *)
(* ===================================================================== *)

Module Num.

(** [np.sum] of a one-dimensional array. *)
Definition np_sum (a : list Q) : Q := fold_left Qplus a (0 : Q)%Q.

(** Element-wise [a - b] on one-dimensional arrays with numpy's
    broadcasting: equal lengths, or one operand of length one; any other
    pair of shapes raises. *)
Definition np_sub (a b : list Q) : option (list Q) :=
  match a, b with
  | [x], _ => Some (map (fun y => x - y)%Q b)
  | _, [y] => Some (map (fun x => x - y)%Q a)
  | _, _ =>
      if Nat.eqb (length a) (length b)
      then Some (zip_with Qminus a b) else None
  end.

(** [abs(d) ** 2], element-wise. *)
Definition abs_sq (d : list Q) : list Q := map (fun x => Qabs x ^ 2)%Q d.

(** Equality of possibly failing float results, up to the value of the
    fraction. *)
Definition opt_Qeq (x y : option Q) : Prop :=
  match x, y with
  | Some a, Some b => (a == b)%Q
  | None, None => True
  | _, _ => False
  end.

End Num.

(* ===================================================================== *)
(** * Flowline states and the fitness function                             *)
(* ===================================================================== *)

(** One flowline segment: surface elevation and width along the flow.
    [nx] is the number of grid points. *)
Record flowline := Flowline {
  surface_h : list Q;
  widths : list Q
}.

Definition nx (f : flowline) : nat := length (surface_h f).

(** What the code reads from a [FileModel]: the volume series indexed by
    model time, the area series indexed by year ([None] where the year is
    not in the index and the lookup raises), the scalar attributes of the
    stored state, and the geometry reached by [run_until] ([None] when
    the year is outside the stored range and [run_until] raises). *)
Record model := Model {
  volume_m3_ts : list Q;
  area_km2_ts : Z -> option Q;
  volume_km3 : Q;
  area_km2 : Q;
  length_m : Q;
  run_until : Z -> option (list flowline)
}.

Module Fitness.
Import Num.

(** The body of the [for i in range(len(model1.fls))] loop: [fls2[i]]
    raises when [model2] has fewer segments; the accumulators are the
    running [fitness] and [m]. *)
Fixpoint fitness_loop (fls1 fls2 : list flowline) (fitness : Q) (m : nat)
  : option (Q * nat) :=
  match fls1 with
  | [] => Some (fitness, m)
  | f1 :: r1 =>
      match fls2 with
      | [] => None
      | f2 :: r2 =>
          match np_sub (surface_h f1) (surface_h f2),
                np_sub (widths f1) (widths f2) with
          | Some dh, Some dw =>
              fitness_loop r1 r2
                (fitness + np_sum (abs_sq dh) + np_sum (abs_sq dw))%Q
                (m + nx f1)%nat
          | _, _ => None
          end
      end
  end.

(** [fitness_value(model1, model2, ye)]; the division by [m = 0] has no
    value: it raises while [fitness] is still the int 0, and gives [nan]
    once [fitness] is a numpy float. *)
Definition fitness_value (model1 model2 : model) (ye : Z) : option Q :=
  match run_until model2 ye with
  | None => None
  | Some fls2 =>
      match run_until model1 ye with
      | None => None
      | Some fls1 =>
          match fitness_loop fls1 fls2 0%Q 0%nat with
          | None => None
          | Some (fitness, m) =>
              if Nat.eqb m 0 then None
              else Some (fitness / inject_Z (Z.of_nat m) / 125)%Q
          end
      end
  end.

(** [fitness_value_fls(model1, model2, ye)]: the same sum, [model2]
    being the model of the glacier's own flowlines at its year 0. *)
Definition fitness_value_fls (model1 model2 : model) (ye : Z) : option Q :=
  match run_until model2 0 with
  | None => None
  | Some fls2 =>
      match run_until model1 ye with
      | None => None
      | Some fls1 =>
          match fitness_loop fls1 fls2 0%Q 0%nat with
          | None => None
          | Some (fitness, m) =>
              if Nat.eqb m 0 then None
              else Some (fitness / inject_Z (Z.of_nat m) / 125)%Q
          end
      end
  end.

(** Two flowline lists live on the same grid: as many segments, and
    segment by segment as many grid points. *)
Definition same_grid (fls1 fls2 : list flowline) : Prop :=
  Forall2 (fun f1 f2 =>
             length (surface_h f1) = length (surface_h f2) /\
             length (widths f1) = length (widths f2)) fls1 fls2.

Definition same_grid_at (ye : Z) (model1 model2 : model) : Prop :=
  match run_until model1 ye, run_until model2 ye with
  | Some fls1, Some fls2 => same_grid fls1 fls2
  | _, _ => True
  end.

End Fitness.

(* ===================================================================== *)
(** * Python string operations used by the module                          *)
(* ===================================================================== *)

Module Str.

Definition startswith (s p : string) : bool := String.prefix p s.

Definition endswith (s suf : string) : bool :=
  let n := String.length s in
  let k := String.length suf in
  Nat.leb k n && String.eqb (substring (n - k) k s) suf.

(** [s.split(sep)] for a non-empty separator, scanning left to right;
    [skip] counts the characters of a separator just recognised that
    are still to be consumed. *)
Fixpoint split_go (sep : string) (skip : nat) (s : string) : list string :=
  match s with
  | EmptyString => [EmptyString]
  | String c s' =>
      match skip with
      | S k => split_go sep k s'
      | O =>
          if String.prefix sep s
          then EmptyString :: split_go sep (String.length sep - 1) s'
          else match split_go sep 0 s' with
               | f :: r => String c f :: r
               | [] => [String c EmptyString]
               end
      end
  end.

Definition split (sep s : string) : list string := split_go sep 0 s.

(** [l[-k]] for [k >= 1]; [None] is an [IndexError]. *)
Definition neg_index {A} (l : list A) (k : nat) : option A :=
  nth_error (rev l) (k - 1).

(** [a + b] on strings written as in the source. *)
Definition concat (l : list string) : string :=
  fold_right String.app EmptyString l.

(** [os.path.join(a, b)] for a directory [a] written without a trailing
    separator and a relative name [b], which is how [gdir.dir] and the
    names joined to it are written. *)
Definition path_join (a b : string) : string := a ++ "/" ++ b.

(** [path.split('/')[-1]]. *)
Definition basename (p : string) : string :=
  match neg_index (split "/" p) 1 with
  | Some b => b
  | None => EmptyString
  end.

(** [str(i)] for a Python [int]. *)
Definition str_int (z : Z) : string := NilZero.string_of_int (Z.to_int z).

Definition str_nat (n : N) : string := NilZero.string_of_uint (N.to_uint n).

(** Digits after the decimal point for [f] thousandths, [f < 1000]:
    three digits with the trailing zeros dropped, one digit at least. *)
Definition frac_digits (f : N) : string :=
  let d1 := str_nat (f / 100) in
  let d2 := str_nat ((f / 10) mod 10) in
  let d3 := str_nat (f mod 10) in
  if N.eqb (f mod 10) 0
  then (if N.eqb ((f / 10) mod 10) 0 then d1 else d1 ++ d2)
  else d1 ++ d2 ++ d3.

(** [str(x)] for a float [x] given in thousandths: Python prints the
    shortest decimal that reads back as [x], in positional notation for
    the magnitudes that occur here, always with a fractional part.  The
    float [-0.0], which Python prints with its sign, has no counterpart
    among the thousandths: it is the number 0 here. *)
Definition str_float (x : Z) : string :=
  let a := Z.to_N (Z.abs x) in
  (if (x <? 0)%Z then "-" else "")
    ++ str_nat (a / 1000) ++ "." ++ frac_digits (a mod 1000).

Definition parse_frac (fp : string) : option N :=
  match NilEmpty.uint_of_string fp with
  | Some d =>
      if Nat.leb (String.length fp) 3
      then Some (N.of_uint d * 10 ^ N.of_nat (3 - String.length fp))%N
      else None
  | None => None
  end.

(** A leading minus sign, and what follows it. *)
Definition strip_sign (s : string) : bool * string :=
match s with
| String c r => if Ascii.eqb c "-" then (true, r) else (false, s)
| EmptyString => (false, s)
end.

(** [float(s)] on plain decimal strings, as thousandths; [None] is a
    [ValueError].  Exponents, infinities and decimals finer than a
    thousandth are not produced by the callers and are not read. *)
Definition float_of_str (s : string) : option Z :=
let '(neg, body) := strip_sign s in
let signed (v : N) := if neg : bool then (- Z.of_N v) else Z.of_N v in
  match split "." body with
  | [ip] =>
      match NilZero.uint_of_string ip with
      | Some n => Some (signed (1000 * N.of_uint n)%N)
      | None => None
      end
  | [ip; fp] =>
      match NilZero.uint_of_string ip, parse_frac fp with
      | Some n, Some f => Some (signed (1000 * N.of_uint n + f)%N)
      | _, _ => None
      end
  | _ => None
  end.

(** No occurrence of [sep] in [s]. *)
Fixpoint contains (sep s : string) : bool :=
  String.prefix sep s ||
  match s with
  | EmptyString => false
  | String _ s' => contains sep s'
  end.

End Str.


(* ===================================================================== *)
(** * The glacier directory and the forward-simulation oracle              *)
(* ===================================================================== *)

(** Where a forward run starts from: the glacier's own flowlines
    ([init_model_fls] read from the [model_flowlines] pickle), or the
    state stored by an earlier run ([init_model_filesuffix] with an
    optional [init_model_yr], or a copy of that run's final flowlines). *)
Inductive init_from :=
| FromFlowlines
| FromRun (filesuffix : string) (yr : option Z).

(** The two OGGM tasks the module calls, with the arguments it passes. *)
Inductive sim_call :=
| RunRandomClimate (nyears y0 : Z) (bias : option Q) (seed : N)
    (temperature_bias : option Z) (init : init_from)
    (output_filesuffix : string)
| RunFromClimateData (ys ye : Z) (bias : option Q) (init : init_from)
    (output_filesuffix : string).

Definition output_suffix (c : sim_call) : string :=
  match c with
  | RunRandomClimate _ _ _ _ _ _ s => s
  | RunFromClimateData _ _ _ _ s => s
  end.

(** [-inf] or a finite float: the type of an area difference. *)
Inductive xfloat :=
| NegInf
| Fin (q : Q).

(** One row of the calibrator's iteration log; [mb_offset] in
    thousandths. *)
Record iter_row := IterRow {
  it_mb_offset : Z;
  it_area_diff : xfloat;
  it_error : string
}.

(** One row of the ensemble table built by [_run_random_parallel]. *)
Record member := Member {
  seed : string;
  temp_bias : Z;
  suffix : string
}.

(** The [model] column of a result row: the model object (non-pruning
    mode), the path of its file (pruning mode), or [None]. *)
Inductive model_ref :=
| ModelObj (m : model)
| ModelPath (p : string)
| ModelNone.

(** One row of the evaluator's result table; an absent cell is [None]. *)
Record result_row := ResultRow {
  r_model : model_ref;
  r_fitness : option Q;
  r_fitness_fls : option Q;
  r_temp_bias : Z;
  r_time : string;
  r_volume : option Q;
  r_length : option Q;
  r_area : option Q
}.

(** The content of a file of the glacier directory. *)
Inductive file :=
| Geometry (m : model)                       (* a run output FileModel reads *)
| FlowlinePickle (m : model)                 (* model_flowlines.pkl *)
| IterationCsv (rows : list iter_row)        (* experiment_iteration.csv *)
| ResultPickle (rows : list result_row)      (* result<...>.pkl *)
| OutputPickle (save : list (string * string)) (* initialization_output.pkl *)
| Opaque.                                    (* anything else *)

Inductive event :=
| Requested (seed : N) (temp_bias : Z)       (* a tuple handed to _run_random_task *)
| Simulated (c : sim_call).                  (* a forward simulation was run *)

(** The attributes of a glacier directory object. *)
Record gdir := GDir {
  dir : string;
  rgi_date : Z;
  rgi_area_km2 : Q
}.

(** What lies on disk for one glacier. *)
Record disk := Disk {
  files : gmap string file;
  diagnostics : gmap string Z;
  log_txt : list string;
  trace : list event
}.

Definition set_files (f : gmap string file -> gmap string file) (d : disk) : disk :=
  Disk (f (files d)) (diagnostics d) (log_txt d) (trace d).

Definition set_diagnostics (f : gmap string Z -> gmap string Z) (d : disk) : disk :=
  Disk (files d) (f (diagnostics d)) (log_txt d) (trace d).

Definition add_log (line : string) (d : disk) : disk :=
  Disk (files d) (diagnostics d) (log_txt d ++ [line]) (trace d).

Definition add_event (e : event) (d : disk) : disk :=
  Disk (files d) (diagnostics d) (log_txt d) (trace d ++ [e]).

(** The global [cfg.PARAMS] entries the module reads;
    [prcp_scaling_factor] in thousandths. *)
Record params := Params {
  baseline_climate : string;
  climate_qc_months : Z;
  prcp_scaling_factor : Z
}.

(** ** Outcomes and the state monad *)

Inductive outcome (A : Type) :=
| Return (a : A)
| Raise.
Arguments Return {A} a.
Arguments Raise {A}.

Definition M (A : Type) : Type := disk -> outcome A * disk.

Definition ret {A} (a : A) : M A := fun d => (Return a, d).
Definition raise {A} : M A := fun d => (Raise, d).
Definition bind {A B} (c : M A) (k : A -> M B) : M B :=
  fun d => match c d with
           | (Return a, d') => k a d'
           | (Raise, d') => (Raise, d')
           end.
(** [try: c  except: h]. *)
Definition try_except {A} (c : M A) (h : M A) : M A :=
  fun d => match c d with
           | (Return a, d') => (Return a, d')
           | (Raise, d') => h d'
           end.
Definition get : M disk := fun d => (Return d, d).
Definition modify (f : disk -> disk) : M unit := fun d => (Return tt, f d).
Definition lift_opt {A} (o : option A) : M A :=
  match o with Some a => ret a | None => raise end.

Declare Scope m_scope.
Delimit Scope m_scope with M.
Notation "x <- c ;; k" := (bind c (fun x => k))
  (at level 100, c at next level, right associativity) : m_scope.
Notation "c ;;; k" := (bind c (fun _ => k))
  (at level 100, right associativity) : m_scope.
Local Open Scope m_scope.

Fixpoint mapM {A B} (f : A -> M B) (l : list A) : M (list B) :=
  match l with
  | [] => ret []
  | a :: r => b <- f a ;; bs <- mapM f r ;; ret (b :: bs)
  end.

(** A computation that leaves a projection of the disk alone, whatever
    its outcome. *)
Definition keeps {A X} (proj : disk -> X) (c : M A) : Prop :=
  forall d r d', c d = (r, d') -> proj d' = proj d.

(** ** Files of the directory *)

(** [gdir.get_filepath('model_geometry', filesuffix=s)] and its
    diagnostics sibling. *)
Definition get_filepath (gd : gdir) (base filesuffix : string) : string :=
  Str.path_join (dir gd) (base ++ filesuffix ++ ".nc").

(** [os.path.join(gdir.dir, str(y0), 'model_geometry' + suffix + '.nc')]. *)
Definition year_filepath (gd : gdir) (y0 : Z) (filesuffix : string) : string :=
  Str.path_join (Str.path_join (dir gd) (Str.str_int y0))
    ("model_geometry" ++ filesuffix ++ ".nc").

Definition exists_path (p : string) : M bool :=
  d <- get ;; ret (bool_decide (is_Some (files d !! p))).

(** [FileModel(path)]: raises unless the file is a readable run output. *)
Definition FileModel (p : string) : M model :=
  d <- get ;;
  match files d !! p with
  | Some (Geometry m) => ret m
  | _ => raise
  end.

(** [gdir.read_pickle('model_flowlines')]. *)
Definition read_flowlines (gd : gdir) : M model :=
  d <- get ;;
  match files d !! Str.path_join (dir gd) "model_flowlines.pkl" with
  | Some (FlowlinePickle m) => ret m
  | _ => raise
  end.

(** [gdir.read_json('diagnostics')['years_to_stable']]. *)
Definition years_to_stable : M Z :=
  d <- get ;; lift_opt (diagnostics d !! "years_to_stable").

(** The name under which [os.listdir(gdir.dir)] lists the file at path
    [p], when [p] lies directly in the directory. *)
Definition listed (gd : gdir) (p : string) : option string :=
  let pre := dir gd ++ "/" in
  if Str.startswith p pre
  then let name := substring (String.length pre)
                     (String.length p - String.length pre) p in
       if Str.contains "/" name then None else Some name
  else None.

Definition survives (gd : gdir) (doomed : string -> bool) (p : string) : bool :=
  match listed gd p with
  | Some name => negb (doomed name)
  | None => true
  end.

(** [for file in os.listdir(gdir.dir): if doomed(file): os.remove(...)]. *)
Definition remove_listed (gd : gdir) (doomed : string -> bool) : M unit :=
  modify (set_files
            (filter (fun kv : string * file => survives gd doomed kv.1 = true))).

(** ** Float helpers *)

Definition Qltb (a b : Q) : bool := negb (Qle_bool b a).

(** The nearest integer, a tie going to the even one. *)
Definition round_half_even (q : Q) : Z :=
  let f := Qfloor q in
  match (q - inject_Z f ?= 1 # 2)%Q with
  | Lt => f
  | Gt => f + 1
  | Eq => if Z.even f then f else f + 1
  end.

(** Binary64 arithmetic on exact values: every operation returns the
    double nearest to the exact result. *)
Module Float.

(** [2 ** e]. *)
Definition pow2 (e : Z) : Q :=
  match e with
  | Z0 => 1
  | Zpos p => inject_Z (2 ^ Zpos p)
  | Zneg p => 1 # (2 ^ p)
  end.

(** For a positive [q], the [e] with [2^e <= q < 2^(e+1)]. *)
Definition exponent (q : Q) : Z :=
  let e := Z.log2 (Qnum q) - Z.log2 (Zpos (Qden q)) in
  if Qle_bool (pow2 e) q then e else e - 1.

(** The double nearest to [q], a tie going to the even significand: 53
    significant bits, and multiples of [2^-1074] among the subnormal
    numbers.  Overflow to infinity, beyond [2^1024], is left out. *)
Definition double (q : Q) : Q :=
  if Qeq_bool q 0 then 0%Q
  else
    let e := Z.max (exponent (Qabs q) - 52) (-1074) in
    Qred (inject_Z (round_half_even (q * pow2 (- e))) * pow2 e).

Definition add (x y : Q) : Q := double (x + y).
Definition sub (x y : Q) : Q := double (x - y).
Definition div (x y : Q) : Q := double (x / y).

#[global] Arguments double : simpl never.
#[global] Arguments add : simpl never.
#[global] Arguments sub : simpl never.
#[global] Arguments div : simpl never.

End Float.

(** The float with the given number of thousandths: the double nearest
    to that decimal, which [str] prints back as the decimal. *)
Definition float_Q (x : Z) : Q := Float.double (x # 1000).

(** [round(x, 2)] of a float [x], in thousandths: the hundredth nearest
    to the exact value of [x], a tie going to the even hundredth; the
    float returned is [float_Q] of it. *)
Definition round2 (x : Q) : Z := 10 * round_half_even (x * 100).

(** First position of a least element, [lt] being the strict order:
    what [idxmin] returns on a table without missing values. *)
Fixpoint argmin_from {A} (lt : A -> A -> bool) (best : A) (bi i : nat)
    (l : list A) : nat :=
  match l with
  | [] => bi
  | x :: r =>
      if lt x best then argmin_from lt x i (S i) r
      else argmin_from lt best bi (S i) r
  end.

Definition argmin {A} (lt : A -> A -> bool) (l : list A) : option nat :=
  match l with
  | [] => None
  | x :: r => Some (argmin_from lt x 0%nat 1%nat r)
  end.

(** [|a| < |b|] on area differences, [|-inf|] being [+inf]. *)
Definition abs_lt (a b : xfloat) : bool :=
  match a, b with
  | Fin x, Fin y => Qltb (Qabs x) (Qabs y)
  | Fin _, NegInf => true
  | NegInf, _ => false
  end.

(* ===================================================================== *)
(** * The pipeline                                                         *)
(* ===================================================================== *)

Section Pipeline.

(** The flow model: what a forward run returns for a glacier in a given
    state of its disk, either the stored trajectory or the line OGGM
    writes to [log.txt] before raising. *)
Variable simulate : gdir -> disk -> sim_call -> model + string.

Variable cfg : params.

(** numpy's [argsort]: the positions of the keys in ascending order of
    key.  pandas' [Series.argsort()] asks numpy for [kind='quicksort'],
    which is not stable: the order it gives to equal keys depends on the
    numpy build and on the number of keys.  The function is therefore
    left open; [sorts] below says what every one of them does. *)
Variable argsort : list Q -> list nat.

(** Running a task: on success the run output and its diagnostics file
    appear under the output suffix; on failure the error is logged and
    the exception propagates. *)
Definition run_task (gd : gdir) (c : sim_call) : M model :=
  d <- get ;;
  match simulate gd d c with
  | inl m =>
      modify (fun d =>
        add_event (Simulated c)
          (set_files (fun fs =>
             <[get_filepath gd "model_diagnostics" (output_suffix c) := Opaque]>
               (<[get_filepath gd "model_geometry" (output_suffix c) := Geometry m]> fs))
             d)) ;;;
      ret m
  | inr line =>
      modify (fun d => add_event (Simulated c) (add_log line d)) ;;;
      raise
  end.

(** ** StabilizationProber: [_single_time_to_stable] *)

(** [ts[i]] on a volume series. *)
Definition ts_at (m : model) (i : nat) : M Q :=
  lift_opt (nth_error (volume_m3_ts m) i).

(** [np.abs(v2 - v1) / (v1 + 0.000001) < 0.05]; a zero denominator gives
    [inf] or [nan], neither below the threshold. *)
Definition stable (v1 v2 : Q) : bool :=
  let den := (v1 + (1 # 1000000))%Q in
  if Qeq_bool den 0 then false
  else Qltb (Qabs (v2 - v1) / den) (5 # 100).

Definition year_suffix (year : Z) : string := "_" ++ Str.str_int year.

(** The [while year<10001] loop; both branches of [if year == 100] end
    in the same run, read and test, the first one after an extra run
    from the glacier's flowlines.  [fuel] bounds the number of passes. *)
Fixpoint stable_loop (fuel : nat) (gd : gdir) (ys year : Z) : M Z :=
  match fuel with
  | O => ret year
  | S fuel' =>
      if year <? 10001 then
        (if year =? 100
         then run_task gd (RunRandomClimate year ys None 1 None FromFlowlines
                             (year_suffix year)) ;;; ret tt
         else ret tt) ;;;
        run_task gd (RunRandomClimate 100 ys None 1 None
                       (FromRun (year_suffix year) None)
                       (year_suffix (year + 100))) ;;;
        model_1 <- FileModel (get_filepath gd "model_geometry" (year_suffix year)) ;;
        model_2 <- FileModel (get_filepath gd "model_geometry" (year_suffix (year + 100))) ;;
        let year := year + 100 in
        v2 <- ts_at model_2 99 ;;
        v1 <- ts_at model_1 99 ;;
        if stable v1 v2 then ret year else stable_loop fuel' gd ys year
      else ret year
  end.

Definition intermediate_output (name : string) : bool :=
  (Str.startswith name "model_geometry" && Str.endswith name "00.nc")
  || (Str.startswith name "model_diagnostics" && Str.endswith name "00.nc").

Definition _single_time_to_stable (gd : gdir) (ys : Z) : M unit :=
  d <- get ;;
  if bool_decide (is_Some (files d !! (dir gd ++ "/model_flowlines.pkl"))) then
    read_flowlines gd ;;;
    year <- stable_loop 100 gd ys 100 ;;
    remove_listed gd intermediate_output ;;;
    if year <? 10001
    then modify (set_diagnostics <["years_to_stable" := year + 100]>)
    else ret tt
  else ret tt.

(** ** MassBalanceCalibrator: [_single_calibration_run], [find_mb_offset] *)

Definition _single_calibration_run (gd : gdir) (mb_offset : Z) (ys ye : Z)
  : M (model + string) :=
  let past := "_calibration_past_" ++ Str.str_float mb_offset in
  let random := "_calibration_random_" ++ Str.str_float mb_offset in
  try_except
    (m <- FileModel (get_filepath gd "model_geometry" past) ;;
     ret (inl m))
    (try_except
       (read_flowlines gd ;;;
        year <- years_to_stable ;;
        run_task gd (RunRandomClimate year ys (Some (float_Q mb_offset)) 1 None
                       FromFlowlines random) ;;;
        run_task gd (RunFromClimateData ys ye (Some (float_Q mb_offset))
                       (FromRun random None) past) ;;;
        m <- FileModel (get_filepath gd "model_geometry" past) ;;
        ret (inl m))
       (d <- get ;;
        last <- lift_opt (Str.neg_index (log_txt d) 1) ;;
        error <- lift_opt (Str.neg_index (Str.split ";" last) 1) ;;
        ret (inr error))).

(** [(abs(diff) < 1e-4) or (bounds[1] - bounds[0] <= 0.5 and abs(diff) < 1e-3)],
    the literals being the doubles nearest to them. *)
Definition converged (lo hi : Q) (diff : xfloat) : bool :=
  match diff with
  | NegInf => false
  | Fin x =>
      Qltb (Qabs x) (Float.double (1 # 10000))
      || (Qle_bool (Float.sub hi lo) (1 # 2)
          && Qltb (Qabs x) (Float.double (1 # 1000)))
  end.

Definition negative (diff : xfloat) : bool :=
  match diff with
  | NegInf => true
  | Fin x => Qltb x 0
  end.

(** The [while i < max_it] loop, [left] being [max_it - i].  The bounds
    are the values of the Python numbers in [bounds]: the caller's [a]
    and [b] at first (for ints below [2^53] the sum is exact and
    [Float.add] leaves it alone), then the floats [round] returned. *)
Fixpoint calibration_loop (left : nat) (gd : gdir) (ys ye : Z) (lo hi : Q)
    (df : list iter_row) : M (list iter_row) :=
  match left with
  | O => ret df
  | S left' =>
      let mb_offset := round2 (Float.div (Float.add lo hi) 2) in
      ex_mod2 <- _single_calibration_run gd mb_offset ys ye ;;
      de <- match ex_mod2 with
            | inl m =>
                a <- lift_opt (area_km2_ts m ye) ;;
                ret (Fin (Float.sub (rgi_area_km2 gd) a), "")
            | inr s =>
                error <- lift_opt (Str.neg_index (Str.split ":" s) 1) ;;
                ret (NegInf, error)
            end ;;
      let df := (df ++ [IterRow mb_offset de.1 de.2])%list in
      if converged lo hi de.1 then ret df
      else if negative de.1
           then calibration_loop left' gd ys ye (float_Q mb_offset) hi df
           else calibration_loop left' gd ys ye lo (float_Q mb_offset) df
  end.

(** [df.iloc[df.area_diff.abs().idxmin()].mb_offset]. *)
Definition best_offset (df : list iter_row) : option Z :=
  match argmin abs_lt (map it_area_diff df) with
  | Some i => it_mb_offset <$> df !! i
  | None => None
  end.

Definition stale_calibration (mb_offset : Z) (name : string) : bool :=
  let keep := "_" ++ Str.str_float mb_offset ++ ".nc" in
  (Str.startswith name "model_geometry_calibration"
     && Str.endswith name ".nc" && negb (Str.endswith name keep))
  || (Str.startswith name "model_diagnostics_calibration"
        && Str.endswith name ".nc" && negb (Str.endswith name keep)).

Definition find_mb_offset (gd : gdir) (ys : Z) (a b : Q) : M unit :=
  try_except
    (let ye := rgi_date gd in
     df <- calibration_loop 15 gd ys ye a b [] ;;
     mb_offset <- lift_opt (best_offset df) ;;
     modify (set_files <[Str.path_join (dir gd) "experiment_iteration.csv" := IterationCsv df]>) ;;;
     remove_listed gd (stale_calibration mb_offset))
    (ret tt).

(** ** CandidateGenerator: [_run_random_task], [_run_random_parallel],
       [generation] *)

Definition random_suffix (y0 : Z) (seed : N) (temp_bias : Z) : string :=
  Str.str_int y0 ++ "_random_" ++ Str.str_nat seed ++ "_" ++ Str.str_float temp_bias.

Definition _run_random_task (tupel : N * Z) (gd : gdir) (y0 : Z) (mb_offset : Q)
  : M (option string) :=
  let seed := tupel.1 in
  let temp_bias := tupel.2 in
  modify (add_event (Requested seed temp_bias)) ;;;
  read_flowlines gd ;;;
  let suffix := random_suffix y0 seed temp_bias in
  let path := year_filepath gd y0 suffix in
  present <- exists_path path ;;
  if negb present then
    year <- years_to_stable ;;
    try_except
      (run_task gd (RunRandomClimate year y0 (Some mb_offset) seed
                      (Some temp_bias) FromFlowlines suffix) ;;;
       ret (Some path))
      (ret None)
  else
    try_except (FileModel path ;;; ret (Some path)) (ret None).

(** The row built from a returned path. *)
Definition member_of_path (y0 : Z) (rp : string) : M member :=
  let fields := Str.split "_" (hd "" (Str.split ".nc" rp)) in
  temp_bias <- lift_opt (Str.neg_index fields 1) ;;
  seed <- lift_opt (Str.neg_index fields 2) ;;
  let suffix := Str.str_int y0 ++ "_random_" ++ seed ++ "_" ++ temp_bias in
  tb <- lift_opt (Str.float_of_str temp_bias) ;;
  ret (Member seed tb suffix).

(** [pool.map] hands the tuples to worker processes that share nothing
    but the disk and write disjoint files; the tasks are run here one
    after the other. *)
Definition _run_random_parallel (gd : gdir) (y0 : Z) (list_ : list (N * Z))
    (mb_offset : Q) : M (list member) :=
  paths <- mapM (fun tupel => _run_random_task tupel gd y0 mb_offset) list_ ;;
  mapM (member_of_path y0) (omap id paths).

(** [np.arange(start, stop, step)] followed by [b.round(3)], in
    thousandths.  The number of values is numpy's, the ceiling of
    [(stop - start) / step] computed on doubles: for 2.05, 3 and 0.05 the
    quotient is 19.000000000000004 and there are 20 values, the last one
    being the stop value 3.0.  The values [start + i * step] carry
    rounding errors far below the half thousandth that [round(3)]
    removes. *)
Definition arange (start stop step : Z) : list Z :=
  let n := Qceiling (Float.div (Float.sub (float_Q stop) (float_Q start))
                       (float_Q step)) in
  map (fun i => start + Z.of_nat i * step) (seq 0 (Z.to_nat n)).

(** [[(f(i), b) for i, b in enumerate(bias_list)]]. *)
Definition enumerate_seeds (f : N -> N) (bias_list : list Z) : list (N * Z) :=
  imap (fun i b => (f (N.of_nat i), b)) bias_list.

Definition min_Z (l : list Z) : option Z :=
  match l with
  | [] => None
  | x :: r => Some (fold_left Z.min r x)
  end.

(** [not ts.min() == 0]; the minimum of an empty series is [nan]. *)
Definition min_nonzero (ts : list Q) : bool :=
  match ts with
  | [] => true
  | x :: r => negb (Qeq_bool (fold_left Qmin r x) 0)
  end.

(** A stable insertion sort, for the sorts whose result does not depend
    on the sorting method: by temperature bias in [generation], where no
    two rows have the same bias, by suffix and time in [identification],
    where pandas sorts by several columns with a stable method, and of
    the values of a column for [quantile]. *)
Fixpoint insert_sorted {A} (le : A -> A -> bool) (x : A) (l : list A) : list A :=
  match l with
  | [] => [x]
  | y :: r => if le x y then x :: l else y :: insert_sorted le x r
  end.

Definition sort_values {A} (le : A -> A -> bool) (l : list A) : list A :=
  fold_right (insert_sorted le) [] l.

(** The first batch, and the test that decides on the batch below -3. *)
Definition first_batch : list (N * Z) :=
  enumerate_seeds (fun i => i ^ 2)%N (arange (-3000) 2000 50).

Definition low_batch (n : nat) : list (N * Z) :=
  enumerate_seeds (fun i => (i + N.of_nat n + 1) ^ 2)%N (arange (-5000) (-3000) 50).

Definition high_batch (n : nat) : list (N * Z) :=
  enumerate_seeds (fun i => (i + N.of_nat n + 1) ^ 2)%N (arange 2050 3000 50).

Definition generation (gd : gdir) (y0 : Z) (mb_offset : Q) : M (list member) :=
  random_run_list <- _run_random_parallel gd y0 first_batch mb_offset ;;
  lowest <- lift_opt (min_Z (map temp_bias random_run_list)) ;;
  random_run_list <-
    (if lowest =? -3000 then
       more <- _run_random_parallel gd y0
                 (low_batch (length random_run_list)) mb_offset ;;
       ret (random_run_list ++ more)%list
     else ret random_run_list) ;;
  max_bias <- lift_opt (argmin Z.gtb (map temp_bias random_run_list)) ;;
  max_row <- lift_opt (random_run_list !! max_bias) ;;
  let max_suffix := suffix max_row in
  present <- exists_path (get_filepath gd "model_geometry" max_suffix) ;;
  let p := if present then get_filepath gd "model_geometry" max_suffix
           else year_filepath gd y0 max_suffix in
  fmod <- FileModel p ;;
  random_run_list <-
    (if min_nonzero (volume_m3_ts fmod) then
       more <- _run_random_parallel gd y0
                 (high_batch (length random_run_list)) mb_offset ;;
       ret (random_run_list ++ more)%list
     else ret random_run_list) ;;
  ret (sort_values (fun a b => temp_bias a <=? temp_bias b) random_run_list).

(** ** CandidateIdentifier: [_find_extrema], [identification] *)

(** [ts.rolling(10).mean().fillna(0)]: the mean of the last ten values,
    zero while fewer than ten are available. *)
Definition rolling_mean (ts : list Q) : list Q :=
  map (fun i => if (i <? 9)%nat then 0%Q
                else (Num.np_sum (take 10 (drop (i - 9) ts)) / 10)%Q)
      (seq 0 (length ts)).

(** [argrelextrema(values, np.greater, order=20)]: position [i] is kept
    when it is greater than its neighbours at every distance up to 20,
    positions beyond either end being clipped onto the end. *)
Definition greater_at (v : list Q) (i shift : nat) : bool :=
  let n := length v in
  match v !! i, v !! Nat.min (i + shift) (n - 1), v !! (i - shift)%nat with
  | Some x, Some plus, Some minus => Qltb plus x && Qltb minus x
  | _, _, _ => false
  end.

Definition argrelextrema (v : list Q) : list nat :=
  filter (fun i => forallb (greater_at v i) (seq 1 20) = true)
         (seq 0 (length v)).

(** [_find_extrema(ts)]: [[0][0]] raises when there is no extremum. *)
Definition _find_extrema (ts : list Q) : option nat :=
  head (argrelextrema (rolling_mean ts)).

(** One row of the restricted volume table. *)
Record volume_row := VolumeRow {
  v_time : Z;
  volume_m3 : Q;
  v_suffix : string
}.

(** The file of an ensemble member: in the directory, or in its
    year-scoped subdirectory. *)
Definition member_file (gd : gdir) (ys : Z) (sfx : string) : M model :=
  present <- exists_path (get_filepath gd "model_geometry" sfx) ;;
  FileModel (if present then get_filepath gd "model_geometry" sfx
             else year_filepath gd ys sfx).

(** The first loop: the largest first extremum among the first ten
    members that can be read and have one. *)
Fixpoint find_t_stag (gd : gdir) (ys : Z) (suffixes : list string)
    (i : nat) (t_stag : Z) : M Z :=
  match suffixes with
  | [] => ret t_stag
  | sfx :: rest =>
      if (i <? 10)%nat then
        it <- try_except
                (fmod <- member_file gd ys sfx ;;
                 t <- lift_opt (_find_extrema (volume_m3_ts fmod)) ;;
                 ret (S i, if Z.of_nat t >? t_stag then Z.of_nat t else t_stag))
                (ret (i, t_stag)) ;;
        find_t_stag gd ys rest it.1 it.2
      else find_t_stag gd ys rest i t_stag
  end.

(** The second loop: every readable member's volume series from
    [t_stag] on, tagged with the member's suffix. *)
Fixpoint volume_table (gd : gdir) (ys : Z) (suffixes : list string)
    (t_stag : Z) (df : list volume_row) : M (list volume_row) :=
  match suffixes with
  | [] => ret df
  | sfx :: rest =>
      df <- try_except
              (fmod <- member_file gd ys sfx ;;
               let v := imap (fun t vol => VolumeRow (Z.of_nat t) vol sfx)
                             (volume_m3_ts fmod) in
               let v := filter (fun r => (t_stag <= v_time r)%Z) v in
               ret (df ++ v)%list)
              (ret df) ;;
      volume_table gd ys rest t_stag df
  end.

(** [np.linspace(start, stop, n)]. *)
Definition linspace (start stop : Q) (n : nat) : list Q :=
  match n with
  | O => []
  | 1%nat => [start]
  | _ => map (fun i => start + inject_Z (Z.of_nat i)
                        * ((stop - start) / inject_Z (Z.of_nat (n - 1))))%Q
             (seq 0 n)
  end.

Definition min_Q (l : list Q) : option Q :=
  match l with
  | [] => None
  | x :: r => Some (fold_left Qmin r x)
  end.

Definition max_Q (l : list Q) : option Q :=
  match l with
  | [] => None
  | x :: r => Some (fold_left Qmax r x)
  end.

(** [df.iloc[(df['volume_m3'] - val).abs().argsort()][:1].index[0]]: the
    table is indexed 0, 1, ... by [ignore_index=True], so that the label
    of the first row of the reordered table is the first position
    [argsort] returns; [.index[0]] raises on an empty table. *)
Definition nearest (df : list volume_row) (val : Q) : option nat :=
  head (argsort (map (fun r => Qabs (volume_m3 r - val)) df)).

(** The loop over the target volumes: an index is appended unless it is
    there already. *)
Fixpoint pick_indices (df : list volume_row) (targets : list Q)
    (indices : list nat) : option (list nat) :=
  match targets with
  | [] => Some indices
  | val :: rest =>
      match nearest df val with
      | None => None
      | Some index =>
          pick_indices df rest
            (if bool_decide (index ∈ indices) then indices
             else (indices ++ [index])%list)
      end
  end.

Definition row_le (a b : volume_row) : bool :=
  match String.compare (v_suffix a) (v_suffix b) with
  | Lt => true
  | Gt => false
  | Eq => v_time a <=? v_time b
  end.

Definition row_eqb (a b : volume_row) : bool :=
  (v_time a =? v_time b) && Qeq_bool (volume_m3 a) (volume_m3 b)
  && String.eqb (v_suffix a) (v_suffix b).

(** [drop_duplicates()]: the first of equal rows is kept. *)
Fixpoint drop_duplicates (l : list volume_row) (seen : list volume_row)
  : list volume_row :=
  match l with
  | [] => []
  | x :: r =>
      if existsb (row_eqb x) seen then drop_duplicates r seen
      else x :: drop_duplicates r (x :: seen)
  end.

(** The selection made on the restricted table. *)
Definition select_candidates (df : list volume_row) (n : nat)
  : option (list (Z * string)) :=
  match min_Q (map volume_m3 df), max_Q (map volume_m3 df) with
  | Some lo, Some hi =>
      match pick_indices df (linspace lo hi n) [] with
      | Some indices =>
          let candidates := omap (fun i => df !! i) indices in
          let candidates := sort_values row_le candidates in
          let candidates := drop_duplicates candidates [] in
          Some (map (fun r => (v_time r, v_suffix r)) candidates)
      | None => None
      end
  | _, _ => None
  end.

(** The restricted volume table [identification] works on. *)
Definition restricted_table (gd : gdir) (list_ : list member) (ys : Z)
  : M (list volume_row) :=
  (if bool_decide (list_ = []) then raise else ret tt) ;;;
  let suffixes := map suffix list_ in
  t_stag <- find_t_stag gd ys suffixes 0 0 ;;
  year <- years_to_stable ;;
  let t_stag := if t_stag >? year - 50 then year - 50 else t_stag in
  volume_table gd ys suffixes t_stag [].

Definition identification (gd : gdir) (list_ : list member) (ys ye : Z) (n : nat)
  : M (list (Z * string)) :=
  df <- restricted_table gd list_ ys ;;
  lift_opt (select_candidates df n).

(** ** CandidateEvaluator: [_run_to_present], [evaluation],
       [find_possible_glaciers] *)

Definition _run_to_present (array : Z * string) (gd : gdir) (ys ye : Z)
    (mb_offset : Q) : M (option string) :=
  let init_yr := array.1 in
  let init_filesuffix := array.2 in
  let s := default "" (Str.neg_index (Str.split "_random" init_filesuffix) 1) in
  let output_filesuffix :=
    Str.str_int ys ++ "_past" ++ s ++ "_" ++ Str.str_int init_yr in
  let path := year_filepath gd ys output_filesuffix in
  present <- exists_path path ;;
  if negb present then
    try_except
      (run_task gd (RunFromClimateData ys ye (Some mb_offset)
                      (FromRun init_filesuffix (Some init_yr))
                      output_filesuffix) ;;;
       ret (Some output_filesuffix))
      (ret None)
  else
    try_except (FileModel path ;;; ret (Some output_filesuffix)) (ret None).

(** [float(f.split('_')[-2])] and [f.split('_')[-1]]. *)
Definition bias_and_time (f : string) : M (Z * string) :=
  tb <- lift_opt (Str.neg_index (Str.split "_" f) 2) ;;
  tb <- lift_opt (Str.float_of_str tb) ;;
  time <- lift_opt (Str.neg_index (Str.split "_" f) 1) ;;
  ret (tb, time).

(** One pass of [for f in suffix_list]: the [try] body builds the full
    row, the [except] body the row of a failed candidate.  A [None] in
    the suffix list makes both bodies raise. *)
Definition evaluate_candidate (gd : gdir) (y0 ye : Z) (emod_t fls_mod : model)
    (delete : bool) (f : option string) : M result_row :=
  match f with
  | None => raise
  | Some f =>
      try_except
        (present <- exists_path (get_filepath gd "model_geometry" f) ;;
         let rp := if present then get_filepath gd "model_geometry" f
                   else year_filepath gd y0 f in
         fmod <- FileModel rp ;;
         lift_opt (run_until fmod ye) ;;;
         fitness <- lift_opt (Fitness.fitness_value fmod emod_t ye) ;;
         fitness_fls <- lift_opt (Fitness.fitness_value_fls fmod fls_mod ye) ;;
         bt <- bias_and_time f ;;
         if negb delete then
           ret (ResultRow (ModelObj fmod) (Some fitness) (Some fitness_fls)
                          bt.1 bt.2 (Some (volume_km3 fmod)) None None)
         else
           ret (ResultRow (ModelPath rp) (Some fitness) (Some fitness_fls)
                          bt.1 bt.2 (Some (volume_km3 fmod))
                          (Some (length_m fmod)) (Some (area_km2 fmod))))
        (bt <- bias_and_time f ;;
         ret (ResultRow ModelNone None None bt.1 bt.2 None None None))
  end.

(** The path of the cached result table. *)
Definition result_path (gd : gdir) (y0 : Z) : string :=
  Str.path_join (dir gd)
    (Str.concat ["result"; Str.str_int y0; baseline_climate cfg; "_qc";
                 Str.str_int (climate_qc_months cfg); "_";
                 Str.str_float (prcp_scaling_factor cfg); ".pkl"]).

Definition evaluation (gd : gdir) (cand_df : list (Z * string)) (y0 ye : Z)
    (emod : option model) (mb_offset : Q) (delete : bool)
  : M (list result_row) :=
  suffix_list <- mapM (fun array => _run_to_present array gd y0 ye mb_offset)
                      cand_df ;;
  emod <- match emod with
          | Some m => ret m
          | None => FileModel (get_filepath gd "model_geometry"
                                 "_synthetic_experiment")
          end ;;
  lift_opt (run_until emod ye) ;;;
  fls_mod <- read_flowlines gd ;;
  df <- mapM (evaluate_candidate gd y0 ye emod fls_mod delete) suffix_list ;;
  (if negb delete
   then modify (set_files <[result_path gd y0 := ResultPickle df]>)
   else ret tt) ;;;
  ret df.

(** *** The selections of pruning mode *)

(** Position of the least (greatest) present value of a column, absent
    values skipped: [idxmin] and [idxmax]. *)
Definition idx_best (lt : Q -> Q -> bool) (col : list (option Q)) : option nat :=
  let present := omap (fun iv => match iv.2 with
                                 | Some v => Some (iv.1, v)
                                 | None => None
                                 end) (imap pair col) in
  match argmin lt (map snd present) with
  | Some k => fst <$> present !! k
  | None => None
  end.

Definition idxmin (col : list (option Q)) : option nat := idx_best Qltb col.
Definition idxmax (col : list (option Q)) : option nat :=
  idx_best (fun a b => Qltb b a) col.

(** [row.model.split('/')[-1]]: the model cell must be a path. *)
Definition model_name (r : result_row) : option string :=
  match r_model r with
  | ModelPath p => Some (Str.basename p)
  | _ => None
  end.

(** [table.loc[table.col.idxmin(), 'model'].split('/')[-1]]. *)
Definition name_at (table : list result_row) (i : option nat) : option string :=
  match i with
  | Some i => match table !! i with
              | Some r => model_name r
              | None => None
              end
  | None => None
  end.

(** [table[table.col <= bound]]; an absent value compares false. *)
Definition at_most (col : result_row -> option Q) (bound : Q)
    (table : list result_row) : list result_row :=
  List.filter (fun r => match col r with
                        | Some v => Qle_bool v bound
                        | None => false
                        end) table.

(** [col.quantile(0.05)] with linear interpolation between the two
    nearest order statistics. *)
Definition quantile05 (col : list Q) : option Q :=
  let sorted := sort_values Qle_bool col in
  let k := length sorted in
  let pos := ((5 # 100) * inject_Z (Z.of_nat (k - 1)))%Q in
  let lo := Z.to_nat (Qfloor pos) in
  match sorted !! lo with
  | None => None
  | Some vlo =>
      match sorted !! S lo with
      | None => Some vlo
      | Some vhi => Some (vlo + (pos - inject_Z (Z.of_nat lo)) * (vhi - vlo))%Q
      end
  end.

(** [table.sort_values(by='length')]: pandas puts the rows that have a
    length in the order numpy's [argsort] gives to their lengths, and
    the rows without one after them. *)
Definition sort_by_length (table : list result_row) : list result_row :=
  let present := List.filter (fun r => bool_decide (is_Some (r_length r))) table in
  let absent := List.filter (fun r => negb (bool_decide (is_Some (r_length r)))) table in
  (omap (fun i => present !! i) (argsort (omap r_length present)) ++ absent)%list.

(** [int((l - 1) / 2)] for odd [l], [int(l / 2)] for even [l]. *)
Definition median_index (l : nat) : nat :=
  if Nat.odd l then ((l - 1) / 2)%nat else (l / 2)%nat.

(** The block for one fitness column up to and including the sort by
    length: the named selections, the sorted 5th-percentile subset and
    its median index.  [None] is an exception. *)
Definition select_by (col : result_row -> option Q) (tag : string)
    (acceptable : list result_row)
  : option (list (string * string) * list result_row * nat) :=
  acc_min ← name_at acceptable (idxmin (map r_length acceptable));
  acc_max ← name_at acceptable (idxmax (map r_length acceptable));
  q ← quantile05 (omap col acceptable);
  let perc := at_most col q acceptable in
  perc_min ← name_at perc (idxmin (map r_length perc));
  perc_max ← name_at perc (idxmax (map r_length perc));
  let sorted := sort_by_length perc in
  Some ([("acc_min_" ++ tag, acc_min); ("acc_max_" ++ tag, acc_max);
         ("perc_min_" ++ tag, perc_min); ("perc_max_" ++ tag, perc_max)],
        sorted, median_index (length sorted)).

(** The [save] dictionary of pruning mode, in insertion order.  The
    [median_fls] entry is read from [results_exp] as the source has it. *)
Definition selection (results : list result_row)
  : option (list (string * string)) :=
  minimum_exp ← name_at results (idxmin (map r_fitness results));
  minimum_fls ← name_at results (idxmin (map r_fitness_fls results));
  let save := [("minimum_exp", minimum_exp); ("minimum_fls", minimum_fls)] in
  let results_exp := at_most r_fitness 1 results in
  '(save, results_exp) ←
    (if (0 <? length results_exp)%nat then
       '(named, sorted, index_exp) ← select_by r_fitness "exp" results_exp;
       median_exp ← sorted !! index_exp ≫= model_name;
       Some ((save ++ named ++ [("median_exp", median_exp)])%list, sorted)
     else Some (save, results_exp));
  let results_fls := at_most r_fitness_fls 1 results in
  if (0 <? length results_fls)%nat then
    '(named, sorted, index_fls) ← select_by r_fitness_fls "fls" results_fls;
    median_fls ← results_exp !! index_fls ≫= model_name;
    Some (save ++ named ++ [("median_fls", median_fls)])%list
  else Some save.

Definition listing (gd : gdir) (d : disk) : list string :=
  omap (fun kv : string * file => listed gd kv.1) (map_to_list (files d)).

(** The names removed by the loop that deletes the other files: the
    geometry files of the year that are not selected, and for each of
    them the diagnostics file of the same run. *)
Definition pruned (gd : gdir) (y0 : Z) (save : list (string * string))
    (d : disk) : list string :=
  let geometry :=
    filter (fun name =>
              Str.startswith name ("model_geometry" ++ Str.str_int y0) = true
              /\ name ∉ map snd save) (listing gd d) in
  (geometry ++
     map (fun name => Str.concat ("model_diagnostics" :: Str.split "model_geometry" name))
         geometry)%list.

(** Non-pruning mode: the files of the year move into the year-scoped
    subdirectory. *)
Definition of_year (y0 : Z) (name : string) : bool :=
  Str.startswith name ("model_geometry" ++ Str.str_int y0)
  || Str.startswith name ("model_diagnostics" ++ Str.str_int y0).

Definition move_to_year (gd : gdir) (y0 : Z) (fs : gmap string file)
  : gmap string file :=
  let staying := filter (fun kv : string * file => survives gd (of_year y0) kv.1 = true) fs in
  let moving := filter (fun kv : string * file => survives gd (of_year y0) kv.1 = false) fs in
  foldr (fun (kv : string * file) acc =>
           match listed gd kv.1 with
           | Some name =>
               <[Str.path_join (Str.path_join (dir gd) (Str.str_int y0)) name := kv.2]> acc
           | None => acc
           end)
        staying (map_to_list moving).

Definition find_possible_glaciers (gd : gdir) (y0 ye : Z) (n : nat)
    (ex_mod : option model) (mb_offset : Q) (delete : bool)
  : M (list result_row) :=
  let path := result_path gd y0 in
  cached <- exists_path path ;;
  if cached then
    d <- get ;;
    match files d !! path with
    | Some (ResultPickle results) => ret results
    | _ => raise
    end
  else
    random_list <- generation gd y0 mb_offset ;;
    candidate_list <- identification gd random_list y0 ye n ;;
    results <- evaluation gd candidate_list y0 ye ex_mod mb_offset delete ;;
    (if delete then
       save <- lift_opt (selection results) ;;
       modify (set_files <[Str.path_join (dir gd) "initialization_output.pkl"
                           := OutputPickle save]>) ;;;
       d <- get ;;
       let gone := pruned gd y0 save d in
       remove_listed gd (fun name => bool_decide (name ∈ gone))
     else
       modify (set_files (move_to_year gd y0))) ;;;
    ret results.

End Pipeline.

(** ** What [argsort] does *)

(** Every [argsort] lists each position once, by ascending key. *)
Definition sorts (argsort : list Q -> list nat) : Prop :=
  forall keys,
    argsort keys ≡ₚ seq 0 (length keys) /\
    forall i j a b x y,
      (i < j)%nat -> argsort keys !! i = Some a -> argsort keys !! j = Some b ->
      keys !! a = Some x -> keys !! b = Some y -> (x <= y)%Q.

(** One of them, the stable one: equal keys keep their order.  This is
    what numpy's quicksort does on up to 16 keys, where it is an
    insertion sort. *)
Definition stable_argsort (keys : list Q) : list nat :=
  map snd (sort_values (fun a b : Q * nat => Qle_bool a.1 b.1)
             (zip keys (seq 0 (length keys)))).

(* ===================================================================== *)
(** * Descriptions of calibration logs, and example glaciers               *)
(* ===================================================================== *)

(** ** Example glaciers *)

(** Two states on one grid of two segments. *)
Definition sample_state (h : Q) : model :=
  Model [] (fun _ => None) 0 0 0
        (fun _ => Some [Flowline [h; 2 * h] [1; 3]; Flowline [h] [2]])%Q.


(** A glacier directory with nothing but unrelated files. *)
Definition bare_gdir : gdir := GDir "/per_glacier/RGI60-11.00897" 2003 (8 # 1).

Definition bare_disk : disk :=
  Disk {[ "/per_glacier/RGI60-11.00897/outlines.shp" := Opaque ]}
       {[ "dem_source" := 1 ]} [] [].


(** A flow model under which the volume keeps changing by more than 5%
    per century until the run that ends in model year 10000, which
    repeats the volume of the run before it. *)
Definition late_stabilizer (_ : gdir) (d : disk) (c : sim_call) : model + string :=
  let volume : Q :=
    (if String.eqb (output_suffix c) "_10000" then 1
     else if Nat.even (length (trace d)) then 1 else 2)%Q in
  inl (Model (repeat volume 100) (fun _ => None) 0 0 0 (fun _ => None)).

Definition flowlines_only : disk :=
  Disk {[ "/per_glacier/RGI60-11.00897/model_flowlines.pkl" :=
            FlowlinePickle (Model [] (fun _ => None) 0 0 0 (fun _ => None)) ]}
       ∅ [] [].

(** ** What a calibration log looks like *)

(** The log of a bisection with [left] iterations to go on the bracket
    [[lo, hi]]: every row probes the midpoint of its bracket, computed
    and rounded to two decimals as Python does on doubles, the
    log ends with the first row that meets the tolerance, and goes on in
    the half chosen by the sign of the area difference otherwise. *)
Fixpoint bisection_log (left : nat) (lo hi : Q) (rows : list iter_row) : Prop :=
  match left with
  | O => rows = []
  | S left' =>
      match rows with
      | [] => False
      | r :: rest =>
          it_mb_offset r = round2 (Float.div (Float.add lo hi) 2) /\
          if converged lo hi (it_area_diff r) then rest = []
          else if negative (it_area_diff r)
               then bisection_log left' (float_Q (it_mb_offset r)) hi rest
               else bisection_log left' lo (float_Q (it_mb_offset r)) rest
      end
  end.


(** What [find_mb_offset] leaves on disk after a loop that ended on disk
    [d1] with log [df] and picked [mb_offset]. *)
Definition calibrated (gd : gdir) (df : list iter_row) (mb_offset : Z)
    (d1 : disk) : disk :=
  set_files (filter (fun kv : string * file =>
                       survives gd (stale_calibration mb_offset) kv.1 = true))
    (set_files <[Str.path_join (dir gd) "experiment_iteration.csv" := IterationCsv df]> d1).

(** ** Example glaciers for the calibrator *)

Definition blank_model : model := Model [] (fun _ => None) 0 0 0 (fun _ => None).

(** A flow model whose observation-year area is [-offset] km2 for a
    negative offset and nothing from offset 0 on: it decreases with the
    offset, as the bisection expects, and a float offset gives a float
    area without any rounding. *)
Definition steep_area (offset : Q) : Q :=
  if Qltb offset 0 then (- offset)%Q else 0%Q.

Definition steep_flow (_ : gdir) (_ : disk) (c : sim_call) : model + string :=
  match c with
  | RunFromClimateData _ _ (Some offset) _ _ =>
      inl (Model [] (fun _ => Some (steep_area offset)) 0 0 0 (fun _ => None))
  | _ => inl blank_model
  end.

(** A glacier whose observed area, the float 0.005, is the area at
    offset -0.005. *)
Definition steep_gdir : gdir := GDir "/per_glacier/RGI60-11.00897" 2003 (float_Q 5).

Definition probed : disk :=
  Disk {[ "/per_glacier/RGI60-11.00897/model_flowlines.pkl" := FlowlinePickle blank_model ]}
       {[ "years_to_stable" := 300 ]} [] [].

(** A flow model whose random-climate stage runs but whose
    historical-climate stage always leaves the domain. *)
Definition overflowing (_ : gdir) (_ : disk) (c : sim_call) : model + string :=
  match c with
  | RunRandomClimate _ _ _ _ _ _ _ => inl blank_model
  | RunFromClimateData _ _ _ _ _ =>
      inr "run_from_climate_data;2020-01-01;RuntimeError: Glacier exceeds domain boundaries"
  end.

(** The calibration of [steep_gdir] under [steep_flow]: the run, its
    log and the disk it ends on. *)
Definition steep_run : outcome (list iter_row) * disk :=
  calibration_loop steep_flow 15 steep_gdir 1850 (rgi_date steep_gdir)
    (-1000) 1000 [] probed.

Definition steep_log : list iter_row :=
  Eval vm_compute in
    match steep_run.1 with
    | Return df => df
    | Raise => []
    end.

Definition steep_disk : disk := steep_run.2.

(** The calibration of the same glacier under [overflowing]. *)
Definition overflow_run : outcome (list iter_row) * disk :=
  calibration_loop overflowing 15 steep_gdir 1850 (rgi_date steep_gdir)
    (-1000) 1000 [] probed.

Definition overflow_log : list iter_row :=
  Eval vm_compute in
    match overflow_run.1 with
    | Return df => df
    | Raise => []
    end.

Definition overflow_disk : disk := overflow_run.2.

Definition failed (r : iter_row) : bool :=
  match it_area_diff r with
  | NegInf => true
  | Fin _ => false
  end.

(** ** Character classes of the printed numbers *)

(** Every character of [s] satisfies [p]. *)
Fixpoint all_chars (p : ascii -> bool) (s : string) : bool :=
  match s with
  | EmptyString => true
  | String c s' => p c && all_chars p s'
  end.

Definition is_digit (c : ascii) : bool :=
  match Ascii.N_of_ascii c with
  | 48 | 49 | 50 | 51 | 52 | 53 | 54 | 55 | 56 | 57 => true
  | _ => false
  end%N.

Definition other_than (x : ascii) (c : ascii) : bool := negb (Ascii.eqb c x).

(** No occurrence of [sep] starts inside [s] when [s] is followed by
    [tail]. *)
Fixpoint free_before (sep s tail : string) : bool :=
  match s with
  | EmptyString => true
  | String c s' => negb (String.prefix sep (s ++ tail)) && free_before sep s' tail
  end.

(** The sign or digits of [str_int]. *)
Definition int_char (c : ascii) : bool := is_digit c || Ascii.eqb c "-".

(** The path of a member's file, without its extension. *)
Definition member_stem (gd : gdir) (y0 : Z) (seed : N) (bias : Z) : string :=
  dir gd ++ "/" ++ Str.str_int y0 ++ "/model_geometry" ++ Str.str_int y0
    ++ "_random_" ++ Str.str_nat seed ++ "_" ++ Str.str_float bias.

(** ** Descriptions of the ensemble table *)

(** The row [_run_random_parallel] is to build for a requested tuple. *)
Definition member_for (y0 : Z) (tupel : N * Z) : member :=
  Member (Str.str_nat tupel.1) tupel.2 (random_suffix y0 tupel.1 tupel.2).

(** The rows for the tuples whose task returned a path. *)
Definition successes (y0 : Z) (tuples : list (N * Z)) (paths : list (option string))
  : list member :=
  omap (fun tp : (N * Z) * option string =>
          match tp.2 with
          | Some _ => Some (member_for y0 tp.1)
          | None => None
          end) (zip tuples paths).

(** The tuples handed to [_run_random_task] so far. *)
Definition requested (d : disk) : list (N * Z) :=
  omap (fun e => match e with
                 | Requested s b => Some (s, b)
                 | Simulated _ => None
                 end) (trace d).

(** Between two states of the disk a temperature bias below [b0]
    (thousandths) was requested. *)
Definition samples_below (b0 : Z) (before after : disk) : Prop :=
  exists seed b, b < b0 /\
    (seed, b) ∈ drop (length (requested before)) (requested after).

(** ** Example glaciers for the generator *)

(** A flow model under which only the run with temperature bias -3.0
    stays inside the domain; its volume drops to zero on the way. *)
Definition vanishing : model :=
  Model [5; 0; 3]%Q (fun _ => None) 0 0 0 (fun _ => None).

Definition cold_only (_ : gdir) (_ : disk) (c : sim_call) : model + string :=
  match c with
  | RunRandomClimate _ _ _ _ (Some (-3000)) _ _ => inl vanishing
  | _ => inr "run_random_climate;2020-01-01;RuntimeError: Glacier exceeds domain boundaries"
  end.





(** Whatever its outcome, [c] only adds requests, all of them in [P]. *)
Definition grows {A} (P : N * Z -> Prop) (c : M A) : Prop :=
  forall d r d', c d = (r, d') ->
    exists new, requested d' = (requested d ++ new)%list /\ Forall P new.

(** Whatever its outcome, the first request [c] adds is [t]. *)
Definition requests_first {A} (t : N * Z) (c : M A) : Prop :=
  forall d r d', c d = (r, d') ->
    exists more, requested d' = (requested d ++ t :: more)%list.

(** The first batch under [cold_only]. *)
Definition first_run : outcome (list member) * disk :=
  _run_random_parallel cold_only bare_gdir 1850 first_batch 0 probed.

Definition first_table : list member :=
  Eval vm_compute in
    match first_run.1 with
    | Return t => t
    | Raise => []
    end.

(** ** Example glacier for the identifier *)

(** One ensemble member whose volume rises from 0 over 4 to 10. *)
Definition rising : model :=
  Model [0; 4; 10]%Q (fun _ => None) 0 0 0 (fun _ => None).

Definition lone_member : list member := [Member "0" 0 "1850_random_0_0.0"].

Definition lone_disk : disk :=
  Disk {[ "/per_glacier/RGI60-11.00897/model_geometry1850_random_0_0.0.nc"
          := Geometry rising ]}
       {[ "years_to_stable" := 300 ]} [] [].

Definition lone_table : list volume_row :=
  Eval vm_compute in
    match (restricted_table bare_gdir lone_member 1850 lone_disk).1 with
    | Return df => df
    | Raise => []
    end.

(** ** Descriptions and an example for the selections of pruning mode *)

(** [save[key]]. *)
Definition saved (key : string) (save : list (string * string)) : option string :=
  snd <$> List.find (fun kv : string * string => String.eqb kv.1 key) save.

(** The length-median member of the 5th-percentile subset for one
    fitness column, as the block for that column computes it: the
    acceptable rows, their 5th-percentile subset sorted by length, and
    the row at the median index. *)
Definition length_median (argsort : list Q -> list nat)
    (col : result_row -> option Q) (results : list result_row)
  : option string :=
  match select_by argsort col "" (at_most col 1 results) with
  | Some (_, sorted, index) => sorted !! index ≫= model_name
  | None => None
  end.

(** Two evaluated candidates: the short one fits the synthetic
    observation best, the long one fits the reference flowlines best. *)
Definition crossed_results : list result_row :=
  [ ResultRow (ModelPath "/per_glacier/RGI60-11.00897/model_geometry1850_past_0_-3.0_120.nc")
              (Some (1 # 10)) (Some (9 # 10)) (-3000) "120"
              (Some 1) (Some 100) (Some 1);
    ResultRow (ModelPath "/per_glacier/RGI60-11.00897/model_geometry1850_past_16_-2.8_200.nc")
              (Some (9 # 10)) (Some (1 # 10)) (-2800) "200"
              (Some 2) (Some 200) (Some 2) ]%Q.

(** ** Example glacier for the evaluator *)

(** The number of forward simulations run so far. *)
Definition simulations (d : disk) : nat :=
  length (List.filter (fun e => match e with
                                | Simulated _ => true
                                | Requested _ _ => false
                                end) (trace d)).

(** A trajectory on a grid of two points that keeps its geometry. *)
Definition flat : model :=
  Model [5; 0; 3]%Q (fun _ => Some 1%Q) 1 1 100
        (fun _ => Some [Flowline [1; 1] [1; 1]])%Q.

(** A flow model under which the random-climate run with temperature
    bias -3.0 and every historical run succeed. *)
Definition gentle (_ : gdir) (_ : disk) (c : sim_call) : model + string :=
  match c with
  | RunRandomClimate _ _ _ _ (Some (-3000)) _ _ => inl flat
  | RunFromClimateData _ _ _ _ _ => inl flat
  | _ => inr "run_random_climate;2020-01-01;RuntimeError: Glacier exceeds domain boundaries"
  end.

Definition surveyed : disk :=
  Disk {[ "/per_glacier/RGI60-11.00897/model_flowlines.pkl" := FlowlinePickle flat ]}
       {[ "years_to_stable" := 300 ]} [] [].

Definition cru : params := Params "CRU" 3 2500.

(** A first search in non-pruning mode. *)
Definition keep_run : outcome (list result_row) * disk :=
  find_possible_glaciers gentle cru stable_argsort bare_gdir 1850 2003 1 (Some flat) 0 false surveyed.

Definition keep_results : list result_row :=
  Eval vm_compute in
    match keep_run.1 with
    | Return results => results
    | Raise => []
    end.

(** A first search in pruning mode, and the same search once more. *)
Definition prune_run : outcome (list result_row) * disk :=
  find_possible_glaciers gentle cru stable_argsort bare_gdir 1850 2003 1 (Some flat) 0 true surveyed.

Definition prune_again : outcome (list result_row) * disk :=
  find_possible_glaciers gentle cru stable_argsort bare_gdir 1850 2003 1 (Some flat) 0 true prune_run.2.

Definition prune_results : list result_row :=
  Eval vm_compute in
    match prune_run.1 with
    | Return results => results
    | Raise => []
    end.

(** The total number of grid points of a state. *)
Definition grid_points (fls : list flowline) : nat :=
  foldr (fun f acc => (nx f + acc)%nat) 0%nat fls.

(** Whatever its outcome, [c] runs at most [n] forward simulations. *)
Definition adds {A} (n : nat) (c : M A) : Prop :=
  forall d r d', c d = (r, d') ->
    (simulations d <= simulations d' <= simulations d + n)%nat.

(** A flow model under which every run ends on the same volume. *)
Definition steady (_ : gdir) (_ : disk) (_ : sim_call) : model + string :=
  inl (Model (repeat 1%Q 100) (fun _ => None) 0 0 0 (fun _ => None)).

(** A glacier with its flowlines and a leftover of an interrupted
    probe. *)
Definition interrupted : disk :=
  Disk {[ "/per_glacier/RGI60-11.00897/model_flowlines.pkl" := FlowlinePickle blank_model;
          "/per_glacier/RGI60-11.00897/model_geometry_4700.nc" := Opaque ]}
       ∅ [] [].

Definition steady_run : outcome unit * disk :=
  _single_time_to_stable steady bare_gdir 1850 interrupted.

(** ** Descriptions of sorted tables and of the sampling grid *)

(** Every element is in relation [le] with every later one. *)
Fixpoint sorted_by {A} (le : A -> A -> bool) (l : list A) : Prop :=
  match l with
  | [] => True
  | x :: r => Forall (fun y => le x y = true) r /\ sorted_by le r
  end.

(** A temperature bias of the sampling grid, in thousandths: a multiple
    of 0.05 from -5 to 3. *)
Definition on_grid (b : Z) : bool :=
  (-5000 <=? b) && (b <=? 3000) && (b mod 50 =? 0).

(** A flow model under which the runs colder than -2.9 K stay inside
    the domain. *)
Definition cooling (_ : gdir) (_ : disk) (c : sim_call) : model + string :=
  match c with
  | RunRandomClimate _ _ _ _ (Some b) _ _ =>
      if b <=? -2900 then inl vanishing
      else inr "run_random_climate;2020-01-01;RuntimeError: Glacier exceeds domain boundaries"
  | _ => inr "run_from_climate_data;2020-01-01;RuntimeError: Glacier exceeds domain boundaries"
  end.

Definition cooling_run : outcome (list member) * disk :=
  generation cooling bare_gdir 1850 0 probed.

Definition cooling_table : list member :=
  Eval vm_compute in
    match cooling_run.1 with
    | Return t => t
    | Raise => []
    end.

(** ** Examples for the identifier *)

(** A volume series that rises for twelve years and falls after. *)
Definition hump : list Q :=
  map (fun i => inject_Z (Z.of_nat (if (i <? 12)%nat then 3 * i else 48 - i)))
      (seq 0 30).

(** The candidates of the one-member ensemble for five volume classes. *)
Definition lone_candidates : list (Z * string) :=
  Eval vm_compute in
    match (identification stable_argsort bare_gdir lone_member 1850 2003 5 lone_disk).1 with
    | Return c => c
    | Raise => []
    end.

(** ** Descriptions and examples for the evaluator *)

(** What a row of the result table looks like: the row of a candidate
    that could not be evaluated has no model, fitness or volume; the
    other rows carry both fitness values, and the model itself without
    length and area in non-pruning mode, its path with length and area
    in pruning mode. *)
Definition well_formed_row (delete : bool) (r : result_row) : Prop :=
  match r_model r with
  | ModelNone =>
      r_fitness r = None /\ r_fitness_fls r = None /\ r_volume r = None /\
      r_length r = None /\ r_area r = None
  | ModelObj m =>
      delete = false /\ is_Some (r_fitness r) /\ is_Some (r_fitness_fls r) /\
      r_volume r = Some (volume_km3 m) /\ r_length r = None /\ r_area r = None
  | ModelPath _ =>
      delete = true /\ is_Some (r_fitness r) /\ is_Some (r_fitness_fls r) /\
      is_Some (r_volume r) /\ is_Some (r_length r) /\ is_Some (r_area r)
  end.

(** One candidate run forward under a flow model whose historical runs
    leave the domain. *)
Definition stuck_run : outcome (list (option string)) * disk :=
  mapM (fun array => _run_to_present overflowing array bare_gdir 1850 2003 0)
       [(0, "1850_random_0_-3.0")] surveyed.

Definition stuck_suffixes : list (option string) :=
  Eval vm_compute in
    match stuck_run.1 with
    | Return l => l
    | Raise => []
    end.

(** One candidate evaluated under a flow model whose historical runs
    succeed. *)
Definition direct_run : outcome (list result_row) * disk :=
  evaluation gentle cru bare_gdir [(0, "1850_random_0_-3.0")] 1850 2003
    (Some flat) 0 false surveyed.

Definition direct_rows : list result_row :=
  Eval vm_compute in
    match direct_run.1 with
    | Return df => df
    | Raise => []
    end.

(* ===================================================================== *)
(** * The entry points over several glaciers                               *)
(* ===================================================================== *)

(** The glacier directories of a working directory, each with what lies
    on disk below it.  The directories are distinct, so that the workers
    of a pool share nothing. *)
Definition world : Type := list (gdir * disk).

(** [pool.map(task, gdirs)] for a task that returns nothing: every
    glacier is handed to a worker; an exception in a worker is raised
    again in the caller, and then nothing is known about what the other
    workers have left behind ([None]). *)
Fixpoint pool_map (task : gdir -> M unit) (w : world) : option world :=
  match w with
  | [] => Some []
  | (gd, d) :: rest =>
      match task gd d, pool_map task rest with
      | (Return _, d'), Some rest' => Some ((gd, d') :: rest')
      | _, _ => None
      end
  end.

Section Drivers.

Variable simulate : gdir -> disk -> sim_call -> model + string.

(** [_run_file_model(suffix, gdir, ye)]. *)
Definition _run_file_model (suffix : string) (gd : gdir) (ye : Z) : M model :=
  fmod <- FileModel (get_filepath gd "model_geometry" suffix) ;;
  lift_opt (run_until fmod ye) ;;;
  ret fmod.

(** [_run_parallel_experiment(gdir, t0, te)]: the first run has no
    output suffix; [fls[-1]] raises on an empty list of flowlines, the
    list being the state of the pickled model at its year 0; whatever is
    raised is caught and reported on the terminal only. *)
Definition _run_parallel_experiment (gd : gdir) (t0 te : Z) : M unit :=
  try_except
    (fls <- read_flowlines gd ;;
     year <- years_to_stable ;;
     run_task simulate gd (RunRandomClimate year t0 (Some 0%Q) 1 (Some (-1000))
                             FromFlowlines "") ;;;
     lift_opt (run_until fls 0 ≫= last) ;;;
     run_task simulate gd (RunFromClimateData t0 te None (FromRun "" None)
                             "_synthetic_experiment") ;;;
     ret tt)
    (ret tt).

(** [time_to_stable(gdirs, ys)]. *)
Definition time_to_stable (w : world) (ys : Z) : option world :=
  pool_map (fun gd => _single_time_to_stable simulate gd ys) w.

(** [calibration_runs(gdirs, ys)], [find_mb_offset] being called with
    its default bounds. *)
Definition calibration_runs (w : world) (ys : Z) : option world :=
  pool_map (fun gd => find_mb_offset simulate gd ys (-1000) 1000) w.

(** [synthetic_experiments_parallel(gdirs, t0, te)]; [answer] is what
    the user replies when asked whether to reset the results, and
    [gdirs[0]] raises on an empty list. *)
Definition synthetic_experiments_parallel (answer : bool) (w : world)
    (t0 te : Z) : option world :=
  match w with
  | [] => None
  | (gd0, d0) :: _ =>
      let reset :=
        if bool_decide (is_Some (files d0 !! get_filepath gd0 "model_geometry"
                                               "_synthetic_experiment"))
        then answer else true in
      if negb reset then Some w
      else pool_map (fun gd => _run_parallel_experiment gd t0 te) w
  end.

End Drivers.

(** Two states of a working directory hold the same glaciers in the same
    order, with the same diagnostics records. *)
Definition same_diagnostics (w w' : world) : Prop :=
  Forall2 (fun a b : gdir * disk =>
             a.1 = b.1 /\ diagnostics a.2 = diagnostics b.2) w w'.

(** ** Examples for the runs to the observation year and for the batch
       of probes *)

(** The ensemble member with seed 0 and bias -3.0, taken at its year 0,
    run forward under a flow model whose historical runs succeed. *)
Definition forward_run : outcome (option string) * disk :=
  _run_to_present gentle (0, random_suffix 1850 0 (-3000)) bare_gdir 1850 2003 0
    surveyed.

(** What one probe may do to a glacier: the glacier stays the same, at
    most 101 simulations are added, and the diagnostics record is left
    alone or gets a [years_to_stable] between 300 and 10100 that is a
    multiple of 100. *)
Definition probed_from (a b : gdir * disk) : Prop :=
  a.1 = b.1 /\
  (simulations b.2 <= simulations a.2 + 101)%nat /\
  (diagnostics b.2 = diagnostics a.2 \/
   exists v, diagnostics b.2 = <["years_to_stable" := v]> (diagnostics a.2) /\
             (100 | v) /\ 300 <= v <= 10100).

(** Two glaciers, one of them without flowlines. *)
Definition two_glaciers : world :=
  [(bare_gdir, interrupted);
   (GDir "/per_glacier/RGI60-11.00787" 2003 (8 # 1), bare_disk)].

Definition two_probed : world :=
  Eval vm_compute in
    match time_to_stable steady two_glaciers 1850 with
    | Some w => w
    | None => []
    end.

(** ** An example selection of pruning mode *)

Definition crossed_save : list (string * string) :=
  Eval vm_compute in default [] (selection stable_argsort crossed_results).


(* ===================================================================== *)
(** * Properties                                                           *)
(* ===================================================================== *)

(** ** Reasoning about the monad *)

Lemma bind_Return {A B} (c : M A) (k : A -> M B) d b d' :
  bind c k d = (Return b, d') ->
  exists a d1, c d = (Return a, d1) /\ k a d1 = (Return b, d').
Proof.
  unfold bind. destruct (c d) as [[a|] d1]; intros H.
  - exists a, d1. auto.
  - discriminate.
Qed.

Lemma bind_run {A B} (c : M A) (k : A -> M B) d a d1 :
  c d = (Return a, d1) -> bind c k d = k a d1.
Proof. unfold bind. intros ->. reflexivity. Qed.

Lemma bind_raise {A B} (c : M A) (k : A -> M B) d d1 :
  c d = (Raise, d1) -> bind c k d = (Raise, d1).
Proof. unfold bind. intros ->. reflexivity. Qed.

Lemma lift_opt_Return {A} (o : option A) d a d' :
  lift_opt o d = (Return a, d') -> o = Some a /\ d' = d.
Proof. destruct o; cbv; intros H; inversion H; auto. Qed.

Section Keeps.
Context {X : Type} (proj : disk -> X).

Lemma keeps_ret {A} (a : A) : keeps proj (ret a).
Proof. intros d r d' H. inversion H. reflexivity. Qed.

Lemma keeps_raise {A} : keeps proj (@raise A).
Proof. intros d r d' H. inversion H. reflexivity. Qed.

Lemma keeps_get : keeps proj get.
Proof. intros d r d' H. inversion H. reflexivity. Qed.

Lemma keeps_lift_opt {A} (o : option A) : keeps proj (lift_opt o).
Proof. destruct o; [apply keeps_ret | apply keeps_raise]. Qed.

Lemma keeps_bind {A B} (c : M A) (k : A -> M B) :
  keeps proj c -> (forall a, keeps proj (k a)) -> keeps proj (bind c k).
Proof.
  intros Hc Hk d r d'. unfold bind.
  destruct (c d) as [[a|] d1] eqn:E; intros H.
  - rewrite (Hk a _ _ _ H). eapply Hc; eauto.
  - inversion H; subst. eapply Hc; eauto.
Qed.

Lemma keeps_try {A} (c h : M A) :
  keeps proj c -> keeps proj h -> keeps proj (try_except c h).
Proof.
  intros Hc Hh d r d'. unfold try_except.
  destruct (c d) as [[a|] d1] eqn:E; intros H.
  - inversion H; subst. eapply Hc; eauto.
  - rewrite (Hh _ _ _ H). eapply Hc; eauto.
Qed.

Lemma keeps_modify (f : disk -> disk) :
  (forall d, proj (f d) = proj d) -> keeps proj (modify f).
Proof. intros Hf d r d' H. inversion H. apply Hf. Qed.

Lemma keeps_mapM {A B} (f : A -> M B) (l : list A) :
  (forall a, keeps proj (f a)) -> keeps proj (mapM f l).
Proof.
  intros Hf. induction l as [|a l IH]; simpl.
  - apply keeps_ret.
  - apply keeps_bind; [apply Hf|]. intros b.
    apply keeps_bind; [apply IH|]. intros bs. apply keeps_ret.
Qed.
End Keeps.

Create HintDb keeps.
#[local] Hint Resolve keeps_ret keeps_raise keeps_get keeps_lift_opt
  keeps_bind keeps_try keeps_modify keeps_mapM : keeps.

(** ** Fitness *)

Module FitnessFacts.
Import Num Fitness.

Lemma np_sub_same_length a b :
  length a = length b -> np_sub a b = Some (zip_with Qminus a b).
Proof.
  destruct a as [|x [|x' a]], b as [|y [|y' b]]; simpl; try discriminate;
    try reflexivity.
  intros H. injection H as H. rewrite H, Nat.eqb_refl. reflexivity.
Qed.

Lemma fold_Qplus_compat l1 l2 :
  Forall2 Qeq l1 l2 -> forall a1 a2, (a1 == a2)%Q ->
  (fold_left Qplus l1 a1 == fold_left Qplus l2 a2)%Q.
Proof.
  induction 1 as [|x y l1 l2 Hxy _ IH]; simpl; intros a1 a2 Ha; [exact Ha|].
  apply IH. rewrite Ha, Hxy. reflexivity.
Qed.

Lemma sq_swap x y : (Qabs (x - y) ^ 2 == Qabs (y - x) ^ 2)%Q.
Proof. rewrite (Qabs_Qminus x y). reflexivity. Qed.

Lemma abs_sq_swap a b :
  length a = length b ->
  Forall2 Qeq (abs_sq (zip_with Qminus a b)) (abs_sq (zip_with Qminus b a)).
Proof.
  revert b. induction a as [|x a IH]; intros [|y b] H;
    cbn [abs_sq zip_with map length] in *; try discriminate;
    constructor.
  - apply sq_swap.
  - apply IH. lia.
Qed.

Lemma sum_sq_swap a b :
  length a = length b ->
  (np_sum (abs_sq (zip_with Qminus a b))
   == np_sum (abs_sq (zip_with Qminus b a)))%Q.
Proof.
  intros H. unfold np_sum. apply fold_Qplus_compat; [|reflexivity].
  apply abs_sq_swap, H.
Qed.

Lemma fitness_loop_swap fls1 fls2 :
  same_grid fls1 fls2 -> forall a1 a2 m, (a1 == a2)%Q ->
  exists f1 f2 m',
    fitness_loop fls1 fls2 a1 m = Some (f1, m') /\
    fitness_loop fls2 fls1 a2 m = Some (f2, m') /\ (f1 == f2)%Q.
Proof.
  induction 1 as [|s1 s2 fls1 fls2 [Hh Hw] _ IH]; intros a1 a2 m Ha; simpl.
  - exists a1, a2, m. auto.
  - rewrite (np_sub_same_length _ _ Hh), (np_sub_same_length _ _ Hw).
    rewrite (np_sub_same_length _ _ (eq_sym Hh)),
      (np_sub_same_length _ _ (eq_sym Hw)).
    unfold nx. rewrite <- Hh. apply IH.
    rewrite Ha, (sum_sq_swap _ _ Hh), (sum_sq_swap _ _ Hw). reflexivity.
Qed.

End FitnessFacts.

(** C8 (as amended).  For two model states that live on the same
    flowline grid at the observation year (states of one glacier do),
    swapping the roles of the two states does not change
    [fitness_value]: both calls fail together or return equal values. *)
Theorem fitness_value_symmetric (model1 model2 : model) (ye : Z) :
  Fitness.same_grid_at ye model1 model2 ->
  Num.opt_Qeq (Fitness.fitness_value model1 model2 ye)
              (Fitness.fitness_value model2 model1 ye).
Proof.
  unfold Fitness.same_grid_at, Fitness.fitness_value.
  destruct (run_until model1 ye) as [fls1|], (run_until model2 ye) as [fls2|];
    simpl; auto.
  intros Hg.
  destruct (FitnessFacts.fitness_loop_swap fls1 fls2 Hg 0%Q 0%Q 0%nat
              ltac:(reflexivity)) as (f1 & f2 & m & -> & -> & Hf).
  destruct (Nat.eqb m 0); simpl; [exact I|].
  rewrite Hf. reflexivity.
Qed.

Lemma fitness_value_symmetric_witness :
  Num.opt_Qeq (Fitness.fitness_value (sample_state 5) (sample_state 7) 2003)
              (Fitness.fitness_value (sample_state 7) (sample_state 5) 2003).
Proof.
  apply (fitness_value_symmetric (sample_state 5) (sample_state 7) 2003).
  unfold Fitness.same_grid_at, Fitness.same_grid. simpl.
  repeat constructor.
Defined.

(** C8 (as stated) fails.  For states on different grids the value
    depends on the order of the arguments, the count [m] being taken
    from the first argument only: between a state of one grid point at
    height 1 and a state of two grid points at height 0, of equal
    widths, the squared differences sum to 2, which is divided by 1 in
    one order and by 2 in the other. *)
Lemma fitness_value_grid_matters :
  let coarse := Model [] (fun _ => None) 0 0 0
                  (fun _ => Some [Flowline [1] [1]])%Q in
  let fine := Model [] (fun _ => None) 0 0 0
                  (fun _ => Some [Flowline [0; 0] [1; 1]])%Q in
  Fitness.fitness_value coarse fine 2003 = Some (2 / 1 / 125)%Q /\
  Fitness.fitness_value fine coarse 2003 = Some (2 / 2 / 125)%Q /\
  ~ Num.opt_Qeq (Fitness.fitness_value coarse fine 2003)
                (Fitness.fitness_value fine coarse 2003).
Proof.
  split; [vm_compute; reflexivity|]. split; [vm_compute; reflexivity|].
  vm_compute. discriminate.
Qed.

(** ** StabilizationProber *)

Ltac inv_bind H :=
  let a := fresh "a" in
  let d1 := fresh "d" in
  let H1 := fresh "E" in
  apply bind_Return in H; destruct H as (a & d1 & H1 & H); cbv beta in H.

Section ProberFacts.
Variable simulate : gdir -> disk -> sim_call -> model + string.
Variable gd : gdir.

Lemma run_task_keeps_diagnostics c : keeps diagnostics (run_task simulate gd c).
Proof.
  unfold run_task. apply keeps_bind; [apply keeps_get|]. intros d.
  destruct (simulate gd d c); (apply keeps_bind; [apply keeps_modify; reflexivity|]);
    intros _; auto with keeps.
Qed.

Lemma FileModel_keeps {X} (proj : disk -> X) p : keeps proj (FileModel p).
Proof.
  unfold FileModel. apply keeps_bind; [apply keeps_get|]. intros d.
  destruct (files d !! p) as [[]|]; auto with keeps.
Qed.

Lemma read_flowlines_keeps {X} (proj : disk -> X) : keeps proj (read_flowlines gd).
Proof.
  unfold read_flowlines. apply keeps_bind; [apply keeps_get|]. intros d.
  destruct (files d !! _) as [[]|]; auto with keeps.
Qed.

Lemma remove_listed_keeps_diagnostics doomed :
  keeps diagnostics (remove_listed gd doomed).
Proof. apply keeps_modify. reflexivity. Qed.

Lemma stable_loop_keeps_diagnostics fuel ys :
  forall year, keeps diagnostics (stable_loop simulate fuel gd ys year).
Proof.
  induction fuel as [|fuel IH]; intros year; simpl.
  - apply keeps_ret.
  - destruct (year <? 10001); [|apply keeps_ret].
    apply keeps_bind.
    { destruct (year =? 100); [|apply keeps_ret].
      apply keeps_bind; [apply run_task_keeps_diagnostics|].
      intros _. apply keeps_ret. }
    intros _. apply keeps_bind; [apply run_task_keeps_diagnostics|].
    intros _. apply keeps_bind; [apply FileModel_keeps|].
    intros m1. apply keeps_bind; [apply FileModel_keeps|].
    intros m2. apply keeps_bind; [apply keeps_lift_opt|].
    intros v2. apply keeps_bind; [apply keeps_lift_opt|].
    intros v1. destruct (stable v1 v2); [apply keeps_ret | apply IH].
Qed.

(** The year the loop ends on: a multiple of 100 that has advanced by
    at least one step whenever the loop was entered, and that never
    passes 10100. *)
Lemma stable_loop_year fuel ys :
  forall year d y d',
    stable_loop simulate fuel gd ys year d = (Return y, d') ->
    (100 | year) ->
    (100 | y) /\
    (y = year \/ (year + 100 <= y <= 10100)) /\
    (fuel <> 0%nat -> year < 10001 -> year + 100 <= y).
Proof.
  induction fuel as [|fuel IH]; intros year d y d' H Hdiv; simpl in H.
  - inversion H; subst. split; [exact Hdiv|].
    split; [left; reflexivity|]. congruence.
  - destruct (year <? 10001) eqn:Hlt.
    + apply Z.ltb_lt in Hlt.
      inv_bind H. inv_bind H. inv_bind H. inv_bind H. inv_bind H. inv_bind H.
      assert (Hdiv' : (100 | year + 100)).
      { apply Z.divide_add_r; [exact Hdiv | apply Z.divide_refl]. }
      destruct (stable a4 a3).
      * inversion H; subst. split; [exact Hdiv'|]. split; [right|]; lia.
      * apply IH in H; [|exact Hdiv'].
        destruct H as (Hy & Hr & _). split; [exact Hy|].
        split; [right|]; lia.
    + inversion H; subst. apply Z.ltb_ge in Hlt.
      split; [exact Hdiv|]. split; [left; reflexivity|]. lia.
Qed.

(** One hundred passes are all the loop can make from year 100: more
    fuel changes nothing. *)
Lemma stable_loop_fuel fuel ys :
  forall year extra d,
    10000 - year < 100 * Z.of_nat fuel ->
    stable_loop simulate (fuel + extra) gd ys year d
    = stable_loop simulate fuel gd ys year d.
Proof.
  induction fuel as [|fuel IH]; intros year extra d Hfuel.
  - assert (Hge : (year <? 10001) = false) by (apply Z.ltb_ge; lia).
    destruct extra; simpl; [reflexivity|]. rewrite Hge. reflexivity.
  - simpl. destruct (year <? 10001); [|reflexivity].
    unfold bind.
    repeat match goal with
           | |- context [match ?c ?x with _ => _ end] =>
               lazymatch c with
               | stable_loop _ _ _ _ _ => fail
               | _ => destruct (c x) as [[?|] ?]; try reflexivity
               end
           end.
    destruct (stable _ _); [reflexivity|]. apply IH. lia.
Qed.

End ProberFacts.

(** C10.  When the glacier has no [model_flowlines.pkl],
    [_single_time_to_stable] returns at once: the disk (files,
    diagnostics record, log) is the one it started from and no forward
    simulation has been run. *)
Theorem single_time_to_stable_without_flowlines
    (simulate : gdir -> disk -> sim_call -> model + string)
    (gd : gdir) (ys : Z) (d : disk) :
  files d !! (dir gd ++ "/model_flowlines.pkl") = None ->
  _single_time_to_stable simulate gd ys d = (Return tt, d).
Proof.
  intros Habsent. unfold _single_time_to_stable, bind, get.
  rewrite bool_decide_eq_false_2; [reflexivity|].
  rewrite Habsent. intros [x Hx]. discriminate.
Qed.

Lemma single_time_to_stable_without_flowlines_witness :
  _single_time_to_stable (fun _ _ _ => inr "") bare_gdir 1850 bare_disk
  = (Return tt, bare_disk).
Proof.
  apply (single_time_to_stable_without_flowlines
           (fun _ _ _ => inr "") bare_gdir 1850 bare_disk).
  vm_compute. reflexivity.
Defined.

Lemma single_time_to_stable_diagnostics
    (simulate : gdir -> disk -> sim_call -> model + string)
    (gd : gdir) (ys : Z) (d : disk) r d' :
  _single_time_to_stable simulate gd ys d = (r, d') ->
  diagnostics d' = diagnostics d \/
  exists v, diagnostics d' = <["years_to_stable" := v]> (diagnostics d) /\
            (100 | v) /\ 300 <= v <= 10100.
Proof.
  intros H. unfold _single_time_to_stable in H.
  unfold bind at 1 in H. unfold get at 1 in H. cbv beta iota in H.
  destruct (bool_decide _) in H;
    [|inversion H; subst; left; reflexivity].
  unfold bind at 1 in H.
  destruct (read_flowlines gd d) as [[fls|] d1] eqn:E1;
    pose proof (read_flowlines_keeps gd diagnostics _ _ _ E1) as K1;
    [|inversion H; subst; left; exact K1].
  unfold bind at 1 in H.
  destruct (stable_loop simulate 100 gd ys 100 d1) as [[year|] d2] eqn:E2;
    pose proof (stable_loop_keeps_diagnostics simulate gd _ _ _ _ _ _ E2) as K2;
    [|inversion H; subst; left; congruence].
  destruct (stable_loop_year simulate gd _ _ _ _ _ _ E2) as (Hdiv & _ & Hstep).
  { exists 1. reflexivity. }
  specialize (Hstep ltac:(discriminate) ltac:(lia)).
  unfold bind at 1, remove_listed, modify at 1 in H. cbv beta iota in H.
  destruct (year <? 10001) eqn:Hlt.
  - inversion H; subst. right. exists (year + 100).
    apply Z.ltb_lt in Hlt. split; [|split].
    + cbn [diagnostics set_diagnostics set_files]. rewrite K2, K1. reflexivity.
    + apply Z.divide_add_r; [exact Hdiv | apply Z.divide_refl].
    + lia.
  - inversion H; subst. left. cbn [diagnostics set_files]. congruence.
Qed.

(** C2 (as amended).  Whatever the flow model does, a call of
    [_single_time_to_stable] either leaves the diagnostics record as it
    was or sets [years_to_stable] to a multiple of 100 that is at least
    300 (hence at least 200) and at most 10100: the loop variable stops
    at 10000 at the latest and the recorded value is 100 more. *)
Theorem years_to_stable_recorded
    (simulate : gdir -> disk -> sim_call -> model + string)
    (gd : gdir) (ys : Z) (d : disk) :
  let d' := (_single_time_to_stable simulate gd ys d).2 in
  diagnostics d' = diagnostics d \/
  exists v, diagnostics d' = <["years_to_stable" := v]> (diagnostics d) /\
            (100 | v) /\ 300 <= v <= 10100.
Proof.
  intros d'. subst d'.
  destruct (_single_time_to_stable simulate gd ys d) as [r d'] eqn:E.
  exact (single_time_to_stable_diagnostics simulate gd ys d r d' E).
Qed.

(** C2 (as stated) fails: here stabilization is detected in the pass that
    starts at year 9900, the loop variable ends at 10000, and the value
    recorded is 10100, above the stated bound of 10000. *)
Lemma years_to_stable_above_cap :
  diagnostics (_single_time_to_stable late_stabilizer bare_gdir 1850
                 flowlines_only).2 !! "years_to_stable" = Some 10100
  /\ ~ (10100 <= 10000).
Proof. split; [vm_compute; reflexivity | lia]. Qed.

(** ** Least elements *)

Section Argmin.
Context {A : Type} (lt : A -> A -> bool).
Hypothesis asym : forall x y, lt x y = true -> lt y x = false.
Hypothesis cotrans : forall x y z, lt x z = true -> lt x y = true \/ lt y z = true.

Lemma lt_irrefl x : lt x x = false.
Proof. destruct (lt x x) eqn:E; [|reflexivity]. rewrite (asym _ _ E) in E. discriminate. Qed.

Lemma lt_trans x y z : lt x y = true -> lt y z = true -> lt x z = true.
Proof.
  intros Hxy Hyz. destruct (cotrans _ z _ Hxy) as [H|H]; [exact H|].
  rewrite (asym _ _ Hyz) in H. discriminate.
Qed.

Lemma argmin_from_spec l :
  forall best bi i,
    (argmin_from lt best bi i l = bi /\ forall x, x ∈ l -> lt x best = false)
    \/ exists j x,
         argmin_from lt best bi i l = (i + j)%nat /\ l !! j = Some x /\
         lt x best = true /\
         (forall y, y ∈ l -> lt y x = false) /\
         (forall j' y, (j' < j)%nat -> l !! j' = Some y -> lt x y = true).
Proof.
  induction l as [|x0 r IH]; intros best bi i; simpl.
  - left. split; [reflexivity|]. intros x Hx. inversion Hx.
  - destruct (lt x0 best) eqn:E0.
    + right. destruct (IH x0 i (S i)) as [[Hk Hall]|(j & x & Hk & Hj & Hlt & Hall & Hfirst)].
      * exists 0%nat, x0. rewrite Hk, Nat.add_0_r.
        split; [reflexivity|]. split; [reflexivity|]. split; [exact E0|]. split.
        -- intros y Hy. apply elem_of_cons in Hy as [->|Hy]; [apply lt_irrefl | auto].
        -- intros j' y Hj'. lia.
      * exists (S j), x. rewrite Hk.
        split; [lia|]. split; [exact Hj|].
        split; [eapply lt_trans; eauto|]. split.
        -- intros y Hy. apply elem_of_cons in Hy as [->|Hy]; [apply asym, Hlt | auto].
        -- intros [|j'] y Hj' Hy; simpl in Hy.
           ++ injection Hy as <-. exact Hlt.
           ++ apply (Hfirst j'); [lia | exact Hy].
    + destruct (IH best bi (S i)) as [[Hk Hall]|(j & x & Hk & Hj & Hlt & Hall & Hfirst)].
      * left. split; [exact Hk|].
        intros y Hy. apply elem_of_cons in Hy as [->|Hy]; auto.
      * right. exists (S j), x. rewrite Hk.
        split; [lia|]. split; [exact Hj|]. split; [exact Hlt|]. split.
        -- intros y Hy. apply elem_of_cons in Hy as [->|Hy]; [|auto].
           destruct (lt x0 x) eqn:E; [|reflexivity].
           rewrite (lt_trans _ _ _ E Hlt) in E0. discriminate.
        -- intros [|j'] y Hj' Hy; simpl in Hy.
           ++ injection Hy as <-.
              destruct (cotrans _ x0 _ Hlt) as [H|H]; [exact H|].
              rewrite H in E0. discriminate.
           ++ apply (Hfirst j'); [lia | exact Hy].
Qed.

(** [argmin] returns the first position of a least element. *)
Lemma argmin_spec l k :
  argmin lt l = Some k ->
  exists m, l !! k = Some m /\
            (forall y, y ∈ l -> lt y m = false) /\
            (forall j y, (j < k)%nat -> l !! j = Some y -> lt m y = true).
Proof.
  destruct l as [|x r]; simpl; [discriminate|]. intros H. injection H as <-.
  destruct (argmin_from_spec r x 0%nat 1%nat)
    as [[Hk Hall]|(j & m & Hk & Hj & Hlt & Hall & Hfirst)]; rewrite Hk.
  - exists x. split; [reflexivity|]. split.
    + intros y Hy. apply elem_of_cons in Hy as [->|Hy]; [apply lt_irrefl | auto].
    + intros j y Hj. lia.
  - exists m. simpl. split; [exact Hj|]. split.
    + intros y Hy. apply elem_of_cons in Hy as [->|Hy]; [apply asym, Hlt | auto].
    + intros [|j'] y Hj' Hy; simpl in Hy.
      * injection Hy as <-. exact Hlt.
      * apply (Hfirst j'); [lia | exact Hy].
Qed.

Lemma argmin_nonempty l : l <> [] -> exists k, argmin lt l = Some k.
Proof. destruct l; [congruence|]. simpl. eauto. Qed.

End Argmin.

Lemma Qltb_lt a b : Qltb a b = true <-> (a < b)%Q.
Proof.
  unfold Qltb. rewrite negb_true_iff. split.
  - intros H. apply Qnot_le_lt. intros Hle.
    apply Qle_bool_iff in Hle. congruence.
  - intros H. destruct (Qle_bool b a) eqn:E; [|reflexivity].
    apply Qle_bool_iff in E. exfalso. exact (Qlt_not_le _ _ H E).
Qed.

Lemma Qltb_ge a b : Qltb a b = false <-> (b <= a)%Q.
Proof.
  unfold Qltb. rewrite negb_false_iff. apply Qle_bool_iff.
Qed.

Lemma Qltb_asym x y : Qltb x y = true -> Qltb y x = false.
Proof. rewrite Qltb_lt, Qltb_ge. apply Qlt_le_weak. Qed.

Lemma Qltb_cotrans x y z : Qltb x z = true -> Qltb x y = true \/ Qltb y z = true.
Proof.
  rewrite !Qltb_lt. intros H.
  destruct (Qlt_le_dec x y) as [Hxy|Hyx]; [left; exact Hxy|].
  right. eapply Qle_lt_trans; eauto.
Qed.

Lemma abs_lt_asym x y : abs_lt x y = true -> abs_lt y x = false.
Proof. destruct x, y; simpl; auto. apply Qltb_asym. Qed.

Lemma abs_lt_cotrans x y z : abs_lt x z = true -> abs_lt x y = true \/ abs_lt y z = true.
Proof.
  destruct x, y, z; simpl; auto; try discriminate.
  apply Qltb_cotrans.
Qed.

(** ** MassBalanceCalibrator *)

Section CalibratorFacts.
Variable simulate : gdir -> disk -> sim_call -> model + string.
Variable gd : gdir.
Variables ys ye : Z.

(** The log returned by the loop extends the log it was given by a
    bisection log for the bracket it was given. *)
Lemma calibration_loop_log left :
  forall lo hi df0 d df d1,
    calibration_loop simulate left gd ys ye lo hi df0 d = (Return df, d1) ->
    exists new, df = (df0 ++ new)%list /\ bisection_log left lo hi new.
Proof.
  induction left as [|left IH]; intros lo hi df0 d df d1 H; simpl in H.
  - inversion H; subst. exists []. split; [symmetry; apply app_nil_r | reflexivity].
  - inv_bind H. inv_bind H.
    set (row := IterRow (round2 (Float.div (Float.add lo hi) 2)) a0.1 a0.2) in *.
    destruct (converged lo hi a0.1) eqn:Hc.
    + inversion H; subst. exists [row]. split; [reflexivity|].
      simpl. rewrite Hc. auto.
    + destruct (negative a0.1) eqn:Hn; apply IH in H as (new & -> & Hlog);
        exists (row :: new); (split; [rewrite <- app_assoc; reflexivity|]);
        simpl; rewrite Hc, Hn; auto.
Qed.

Lemma bisection_log_length left :
  forall lo hi rows,
    bisection_log left lo hi rows ->
    (length rows <= left)%nat /\ (left <> 0%nat -> rows <> []).
Proof.
  induction left as [|left IH]; intros lo hi rows H; simpl in H.
  - subst. simpl. split; [lia | congruence].
  - destruct rows as [|r rest]; [contradiction|]. destruct H as [_ H].
    split; [|discriminate]. simpl.
    destruct (converged lo hi (it_area_diff r)).
    + subst. simpl. lia.
    + destruct (negative (it_area_diff r)); apply IH in H as [H _]; lia.
Qed.



(** A log in which every iteration failed uses the whole budget. *)
Lemma bisection_log_all_failed left :
  forall lo hi rows,
    bisection_log left lo hi rows ->
    Forall (fun r => it_area_diff r = NegInf) rows ->
    length rows = left.
Proof.
  induction left as [|left IH]; intros lo hi rows H Hall; simpl in H.
  - subst. reflexivity.
  - destruct rows as [|r rest]; [contradiction|]. destruct H as [_ H].
    inversion Hall as [|? ? Hr Hrest]; subst. rewrite Hr in H. simpl in H.
    simpl. f_equal. eapply IH; eauto.
Qed.

Lemma best_offset_spec df :
  df <> [] ->
  exists best, best ∈ df /\ best_offset df = Some (it_mb_offset best) /\
               forall r, r ∈ df -> abs_lt (it_area_diff r) (it_area_diff best) = false.
Proof.
  intros Hne. unfold best_offset.
  destruct (argmin_nonempty abs_lt (map it_area_diff df)) as [k Hk].
  { destruct df; [congruence | discriminate]. }
  rewrite Hk.
  destruct (argmin_spec abs_lt abs_lt_asym abs_lt_cotrans _ _ Hk) as (m & Hm & Hleast & _).
  rewrite list_lookup_fmap in Hm.
  destruct (df !! k) as [best|] eqn:Hbest; [|discriminate].
  simpl in Hm. injection Hm as <-.
  exists best. split; [eapply list_elem_of_lookup_2; eauto|].
  split; [reflexivity|].
  intros r Hr. apply Hleast. apply list_elem_of_fmap. eauto.
Qed.

Lemma argmin_from_all_failed rows :
  Forall (fun r => it_area_diff r = NegInf) rows ->
  forall best bi i,
    argmin_from abs_lt best bi i (map it_area_diff rows) = bi.
Proof.
  induction 1 as [|r rest Hr _ IH]; intros best bi i; simpl; [reflexivity|].
  rewrite Hr. simpl. apply IH.
Qed.

Lemma best_offset_all_failed r rest :
  Forall (fun r => it_area_diff r = NegInf) rest ->
  best_offset (r :: rest) = Some (it_mb_offset r).
Proof.
  intros H. unfold best_offset. simpl.
  rewrite (argmin_from_all_failed _ H). reflexivity.
Qed.

End CalibratorFacts.

(** [find_mb_offset] swallows every exception. *)
Lemma find_mb_offset_returns simulate gd ys a b d :
  (find_mb_offset simulate gd ys a b d).1 = Return tt.
Proof.
  unfold find_mb_offset, try_except.
  destruct (bind _ _ d) as [[[]|] d']; reflexivity.
Qed.

(** After a loop that returned, [find_mb_offset] writes the log and
    removes the calibration files of every offset but the best one. *)
Lemma find_mb_offset_run simulate gd ys a b d df d1 mb_offset :
  calibration_loop simulate 15 gd ys (rgi_date gd) a b [] d = (Return df, d1) ->
  best_offset df = Some mb_offset ->
  find_mb_offset simulate gd ys a b d = (Return tt, calibrated gd df mb_offset d1).
Proof.
  intros Hloop Hbest. unfold find_mb_offset, try_except.
  rewrite (bind_run _ _ _ _ _ Hloop). rewrite Hbest. reflexivity.
Qed.


(** From here on the loop is only run on concrete glaciers, by
    evaluation. *)
#[local] Opaque calibration_loop.

(** An outcome and a final disk computed apart make up the run. *)
Lemma run_split {A} (run : outcome A * disk) (r : outcome A) :
  run.1 = r -> run = (r, run.2).
Proof. intros <-. destruct run; reflexivity. Qed.




(** C5 (as amended).  When every logged iteration failed (its area
    difference is [-inf]), the loop has used all 15 iterations, the offset
    singled out is the one of the first iteration, the rounded midpoint
    of the initial bracket ([idxmin] returns the first row when all
    absolute differences are [+inf]), and [find_mb_offset] returns
    normally after writing the log and removing the calibration files of
    the other offsets. *)
Theorem find_mb_offset_all_failed
    (simulate : gdir -> disk -> sim_call -> model + string)
    (gd : gdir) (ys : Z) (a b : Q) (d d1 : disk) (df : list iter_row) :
  calibration_loop simulate 15 gd ys (rgi_date gd) a b [] d = (Return df, d1) ->
  Forall (fun r => it_area_diff r = NegInf) df ->
  length df = 15%nat /\
  best_offset df = Some (round2 (Float.div (Float.add a b) 2)) /\
  find_mb_offset simulate gd ys a b d
  = (Return tt, calibrated gd df (round2 (Float.div (Float.add a b) 2)) d1).
Proof.
  intros Hloop Hall.
  destruct (calibration_loop_log _ _ _ _ _ _ _ _ _ _ _ Hloop) as (new & -> & Hlog).
  change ([] ++ new)%list with new in *.
  assert (Hlen : length new = 15%nat)
    by exact (bisection_log_all_failed _ _ _ _ Hlog Hall).
  assert (Hbest : best_offset new = Some (round2 (Float.div (Float.add a b) 2))).
  { destruct new as [|r rest]; [discriminate|].
    destruct Hlog as [Hoff _]. inversion Hall; subst.
    rewrite best_offset_all_failed by assumption. congruence. }
  split; [exact Hlen|]. split; [exact Hbest|].
  apply find_mb_offset_run; assumption.
Qed.

Lemma overflow_calibration :
  calibration_loop overflowing 15 steep_gdir 1850 (rgi_date steep_gdir)
    (-1000) 1000 [] probed = (Return overflow_log, overflow_disk).
Proof.
  assert (H : overflow_run.1 = Return overflow_log) by (vm_compute; reflexivity).
  exact (run_split overflow_run (Return overflow_log) H).
Qed.

Lemma overflow_log_failed :
  Forall (fun r => it_area_diff r = NegInf) overflow_log.
Proof.
  apply Forall_forall. intros r Hr.
  assert (H : forallb failed overflow_log = true) by (vm_compute; reflexivity).
  rewrite forallb_forall in H. apply list_elem_of_In, H in Hr.
  unfold failed in Hr. destruct (it_area_diff r); [reflexivity | discriminate].
Qed.

Lemma find_mb_offset_all_failed_witness :
  length overflow_log = 15%nat /\
  best_offset overflow_log = Some (round2 (Float.div (Float.add (-1000) 1000) 2)) /\
  find_mb_offset overflowing steep_gdir 1850 (-1000) 1000 probed
  = (Return tt, calibrated steep_gdir overflow_log
                  (round2 (Float.div (Float.add (-1000) 1000) 2)) overflow_disk).
Proof.
  apply (find_mb_offset_all_failed overflowing steep_gdir 1850 (-1000) 1000
           probed overflow_disk overflow_log).
  - assert (H : overflow_run.1 = Return overflow_log) by (vm_compute; reflexivity).
    exact (run_split overflow_run (Return overflow_log) H).
  - apply Forall_forall. intros r Hr.
    assert (H : forallb failed overflow_log = true) by (vm_compute; reflexivity).
    rewrite forallb_forall in H. apply list_elem_of_In, H in Hr.
    unfold failed in Hr. destruct (it_area_diff r); [reflexivity | discriminate].
Defined.

(** C5 (as stated) fails.  Under [overflowing] every one of the 15
    iterations reports an error string; [find_mb_offset] does not abort:
    it returns normally, writes the 15-row log, singles out offset 0.0
    (the first iteration) and keeps that offset's calibration output
    while removing the output of the other offsets, such as 500.0. *)
Lemma find_mb_offset_failures_still_select :
  calibration_loop overflowing 15 steep_gdir 1850 (rgi_date steep_gdir)
    (-1000) 1000 [] probed = (Return overflow_log, overflow_disk) /\
  length overflow_log = 15%nat /\
  forallb (fun r => failed r && negb (String.eqb (it_error r) "")) overflow_log = true /\
  best_offset overflow_log = Some 0 /\
  find_mb_offset overflowing steep_gdir 1850 (-1000) 1000 probed
  = (Return tt, calibrated steep_gdir overflow_log 0 overflow_disk) /\
  files (calibrated steep_gdir overflow_log 0 overflow_disk)
    !! "/per_glacier/RGI60-11.00897/experiment_iteration.csv"
  = Some (IterationCsv overflow_log) /\
  files overflow_disk
    !! "/per_glacier/RGI60-11.00897/model_geometry_calibration_random_500.0.nc"
  = Some (Geometry blank_model) /\
  files (calibrated steep_gdir overflow_log 0 overflow_disk)
    !! "/per_glacier/RGI60-11.00897/model_geometry_calibration_random_500.0.nc"
  = None /\
  files (calibrated steep_gdir overflow_log 0 overflow_disk)
    !! "/per_glacier/RGI60-11.00897/model_geometry_calibration_random_0.0.nc"
  = Some (Geometry blank_model).
Proof.
  split; [exact overflow_calibration|].
  split; [vm_compute; reflexivity|].
  split; [vm_compute; reflexivity|].
  split; [vm_compute; reflexivity|].
  split.
  { apply find_mb_offset_run; [exact overflow_calibration | vm_compute; reflexivity]. }
  repeat split; vm_compute; reflexivity.
Qed.

(** ** Strings *)

(** Appending to a string that starts with a known character computes. *)
#[local] Arguments String.append !_ _ / : simpl nomatch.

Module StrFacts.
Import Str.

Lemma app_assoc_s (a b c : string) : (a ++ b) ++ c = a ++ (b ++ c).
Proof.
  induction a as [|x a IH]; simpl; [reflexivity | rewrite IH; reflexivity].
Qed.

Lemma all_chars_app p a b :
  all_chars p (a ++ b) = all_chars p a && all_chars p b.
Proof.
  induction a as [|x a IH]; simpl; [reflexivity|].
  rewrite IH, andb_assoc. reflexivity.
Qed.

Lemma all_chars_weaken (p q : ascii -> bool) s :
  (forall c, p c = true -> q c = true) ->
  all_chars p s = true -> all_chars q s = true.
Proof.
  intros Hpq. induction s as [|c s IH]; simpl; [reflexivity|].
  intros H. apply andb_true_iff in H as [Hc Hs].
  rewrite (Hpq _ Hc), (IH Hs). reflexivity.
Qed.

Lemma digit_other_than x :
  is_digit x = false -> forall c, is_digit c = true -> other_than x c = true.
Proof.
  intros Hx c Hc. unfold other_than.
  destruct (Ascii.eqb c x) eqn:E; [|reflexivity].
  apply Ascii.eqb_eq in E. subst. congruence.
Qed.

Lemma digits_uint d : all_chars is_digit (NilEmpty.string_of_uint d) = true.
Proof. induction d; simpl; auto. Qed.

Lemma digits_str_nat n : all_chars is_digit (str_nat n) = true.
Proof.
  unfold str_nat, NilZero.string_of_uint.
  destruct (N.to_uint n) eqn:E; try reflexivity; rewrite <- E;
    apply digits_uint.
Qed.

Lemma str_nat_nonempty n : exists c r, str_nat n = String c r /\ is_digit c = true.
Proof.
  pose proof (digits_str_nat n) as H.
  unfold str_nat, NilZero.string_of_uint in *.
  destruct (N.to_uint n); simpl in *; eauto.
Qed.

Lemma digits_frac f : all_chars is_digit (frac_digits f) = true.
Proof.
  unfold frac_digits.
  destruct (N.eqb (f mod 10) 0); [destruct (N.eqb (f / 10 mod 10) 0)|];
    rewrite ?all_chars_app, ?digits_str_nat; reflexivity.
Qed.

Lemma frac_nonempty f : exists c r, frac_digits f = String c r /\ is_digit c = true.
Proof.
  unfold frac_digits.
  destruct (str_nat_nonempty (f / 100)) as (c & r & E & Hc).
  destruct (N.eqb (f mod 10) 0); [destruct (N.eqb (f / 10 mod 10) 0)|];
    rewrite E; simpl; eauto.
Qed.

Lemma chars_str_int z : all_chars int_char (str_int z) = true.
Proof.
  assert (Hd : forall d, all_chars int_char (NilZero.string_of_uint d) = true).
  { intros d. apply (all_chars_weaken is_digit).
    - intros c Hc. unfold int_char. rewrite Hc. reflexivity.
    - unfold NilZero.string_of_uint.
      destruct d eqn:E; try reflexivity; rewrite <- E; apply digits_uint. }
  unfold str_int, NilZero.string_of_int.
  destruct (Z.to_int z); [apply Hd|]. simpl. apply Hd.
Qed.

Lemma str_int_nonempty z : exists c r, str_int z = String c r /\ int_char c = true.
Proof.
  pose proof (chars_str_int z) as H.
  destruct (str_int z) as [|c r] eqn:E.
  - exfalso. unfold str_int, NilZero.string_of_int, NilZero.string_of_uint in E.
    destruct (Z.to_int z) as [u|u]; destruct u; discriminate.
  - simpl in H. apply andb_true_iff in H as [Hc _]. eauto.
Qed.

(** *** [split] *)

Lemma split_go_nonempty sep s : forall k, split_go sep k s <> [].
Proof.
  induction s as [|c s IH]; intros k; cbn [split_go]; [congruence|].
  destruct k; [|apply IH].
  destruct (String.prefix sep (String c s)); [congruence|].
  destruct (split_go sep 0 s) eqn:E; congruence.
Qed.

Lemma prefix_app sep rest : String.prefix sep (sep ++ rest) = true.
Proof.
  induction sep as [|c sep IH]; simpl; [destruct rest; reflexivity|].
  destruct (Ascii.ascii_dec c c); [exact IH | congruence].
Qed.

(** The first field of [split] is what precedes the first occurrence of
    the separator. *)
Lemma split_head sep p rest :
  sep <> "" ->
  free_before sep p (sep ++ rest) = true ->
  hd "" (split sep (p ++ sep ++ rest)) = p.
Proof.
  intros Hsep. unfold split. induction p as [|c p IH]; intros Hfree.
  - change ("" ++ sep ++ rest) with (sep ++ rest).
    destruct sep as [|x sep]; [congruence|].
    change (String x sep ++ rest) with (String x (sep ++ rest)).
    cbn [split_go]. change (String x (sep ++ rest)) with (String x sep ++ rest).
    rewrite prefix_app. reflexivity.
  - cbn [free_before] in Hfree. apply andb_true_iff in Hfree as [Hhere Hfree].
    apply negb_true_iff in Hhere.
    change (String c p ++ sep ++ rest) with (String c (p ++ sep ++ rest)) in *.
    cbn [split_go]. rewrite Hhere.
    specialize (IH Hfree).
    destruct (split_go sep 0 (p ++ sep ++ rest)) as [|f r] eqn:E.
    + exfalso. exact (split_go_nonempty _ _ _ E).
    + simpl in IH. subst f. reflexivity.
Qed.

Lemma free_before_app sep a b tail :
  free_before sep (a ++ b) tail
  = free_before sep a (b ++ tail) && free_before sep b tail.
Proof.
  induction a as [|c a IH]; [reflexivity|].
  cbn [free_before String.append].
  rewrite IH, app_assoc_s, andb_assoc. reflexivity.
Qed.

(** A string without the first character of the separator holds no
    start of the separator. *)
Lemma free_before_other x sep a tail :
  all_chars (other_than x) a = true ->
  free_before (String x sep) a tail = true.
Proof.
  induction a as [|c a IH]; simpl; [reflexivity|].
  intros H. apply andb_true_iff in H as [Hc Ha].
  rewrite (IH Ha), andb_true_r.
  destruct (Ascii.ascii_dec x c) as [->|]; [|reflexivity].
  unfold other_than in Hc. rewrite Ascii.eqb_refl in Hc. discriminate.
Qed.

(** Splitting at a single character. *)
Lemma split_char_app c a b :
  split (String c "") (a ++ String c b)
  = (split (String c "") a ++ split (String c "") b)%list.
Proof.
  unfold split. induction a as [|x a IH].
  - simpl. destruct (Ascii.ascii_dec c c); [|congruence].
    destruct b; reflexivity.
  - change (String x a ++ String c b) with (String x (a ++ String c b)).
    cbn [split_go String.prefix String.length Nat.sub].
    destruct (Ascii.ascii_dec c x) as [->|Hne].
    + assert (He : forall t, String.prefix "" t = true) by (intros []; reflexivity).
      rewrite !He, IH. reflexivity.
    + rewrite IH.
      destruct (split_go (String c "") 0 a) as [|f r] eqn:E;
        [exfalso; exact (split_go_nonempty _ _ _ E) | reflexivity].
Qed.

Lemma split_char_none c s :
  all_chars (other_than c) s = true -> split (String c "") s = [s].
Proof.
  unfold split. induction s as [|x s IH]; [reflexivity|].
  simpl. intros H. apply andb_true_iff in H as [Hx Hs].
  destruct (Ascii.ascii_dec c x) as [->|Hne].
  - unfold other_than in Hx. rewrite Ascii.eqb_refl in Hx. discriminate.
  - rewrite (IH Hs). reflexivity.
Qed.

(** *** Printing and reading a float *)

Lemma digit_not_minus c : is_digit c = true -> Ascii.eqb c "-" = false.
Proof.
  intros H. destruct (Ascii.eqb c "-") eqn:E; [|reflexivity].
  apply Ascii.eqb_eq in E. subst. discriminate.
Qed.

Lemma digits_no (x : ascii) s :
  is_digit x = false -> all_chars is_digit s = true ->
  all_chars (other_than x) s = true.
Proof. intros Hx. apply all_chars_weaken, digit_other_than, Hx. Qed.

Lemma read_str_nat n :
  N.of_uint <$> NilZero.uint_of_string (str_nat n) = Some n.
Proof.
  unfold str_nat. destruct (N.to_uint n) eqn:E.
  { rewrite <- (DecimalN.Unsigned.of_to n), E. reflexivity. }
  all: rewrite <- E; rewrite NilZero.usu by (rewrite E; discriminate);
    simpl; f_equal; apply DecimalN.Unsigned.of_to.
Qed.

Lemma read_frac_digits f :
  (f < 1000)%N -> parse_frac (frac_digits f) = Some f.
Proof.
  intros Hf.
  assert (Hall : forallb (fun k => match parse_frac (frac_digits (N.of_nat k)) with
                                   | Some v => N.eqb v (N.of_nat k)
                                   | None => false
                                   end) (seq 0 1000) = true)
    by (vm_compute; reflexivity).
  rewrite forallb_forall in Hall.
  specialize (Hall (N.to_nat f)). rewrite N2Nat.id in Hall.
  destruct (parse_frac (frac_digits f)) as [v|].
  - f_equal. apply N.eqb_eq, Hall, in_seq. lia.
  - exfalso. assert (false = true); [|discriminate]. apply Hall, in_seq. lia.
Qed.

Lemma split_dot ip fp :
  all_chars is_digit ip = true -> all_chars is_digit fp = true ->
  split "." (ip ++ "." ++ fp) = [ip; fp].
Proof.
  intros Hi Hf. change ("." ++ fp) with (String "." fp).
  rewrite split_char_app, !split_char_none; [reflexivity| |];
    apply digits_no; auto.
Qed.

Lemma float_roundtrip x : float_of_str (str_float x) = Some x.
Proof.
  unfold str_float, float_of_str.
  set (a := Z.to_N (Z.abs x)).
  set (ip := str_nat (a / 1000)). set (fp := frac_digits (a mod 1000)).
  assert (Hsplit : split "." (ip ++ "." ++ fp) = [ip; fp])
    by (apply split_dot; [apply digits_str_nat | apply digits_frac]).
  assert (Hip : NilZero.uint_of_string ip <> None /\
                N.of_uint <$> NilZero.uint_of_string ip = Some (a / 1000)%N).
  { pose proof (read_str_nat (a / 1000)) as H. fold ip in H. split; [|exact H].
    intros E. rewrite E in H. discriminate. }
  destruct Hip as [_ Hip].
  assert (Hfp : parse_frac fp = Some (a mod 1000)%N).
  { apply read_frac_digits. apply N.mod_lt. discriminate. }
  assert (Hval : (1000 * (a / 1000) + a mod 1000 = a)%N).
  { symmetry. apply N.div_mod. discriminate. }
  destruct (x <? 0) eqn:Hneg.
  - change ("-" ++ ip ++ "." ++ fp) with (String "-" (ip ++ "." ++ fp)).
    cbn [strip_sign]. rewrite Ascii.eqb_refl, Hsplit.
    destruct (NilZero.uint_of_string ip) as [u|]; [|discriminate].
    simpl in Hip. injection Hip as Hip. rewrite Hfp, Hip, Hval.
    f_equal. apply Z.ltb_lt in Hneg. subst a. lia.
  - change ("" ++ ip ++ "." ++ fp) with (ip ++ "." ++ fp).
    destruct (str_nat_nonempty (a / 1000)) as (c & r & Ec & Hc). fold ip in Ec.
    assert (Hstrip : strip_sign (ip ++ "." ++ fp) = (false, ip ++ "." ++ fp)).
    { rewrite Ec. cbn [String.append strip_sign]. rewrite (digit_not_minus _ Hc).
      reflexivity. }
    rewrite Hstrip, Hsplit.
    destruct (NilZero.uint_of_string ip) as [u|]; [|discriminate].
    simpl in Hip. injection Hip as Hip. rewrite Hfp, Hip, Hval.
    f_equal. apply Z.ltb_ge in Hneg. subst a. lia.
Qed.

(** *** The file name of an ensemble member *)

Ltac norm_app :=
  repeat (progress (rewrite ?app_assoc_s; cbn [String.append])).

Lemma prefix_nc s :
  String.prefix ".nc" s
  = match s with
    | String x (String y (String z _)) =>
        Ascii.eqb x "." && Ascii.eqb y "n" && Ascii.eqb z "c"
    | _ => false
    end.
Proof.
  destruct s as [|x [|y [|z s]]]; cbn [String.prefix];
    repeat match goal with
           | |- context [ascii_dec ?a ?b] => destruct (ascii_dec a b) as [<-|?]
           end;
    rewrite ?Ascii.eqb_refl; try reflexivity; try (destruct s; reflexivity);
    repeat match goal with
           | H : ?a <> ?b |- _ =>
               apply not_eq_sym, Ascii.eqb_neq in H; rewrite H; clear H
           end;
    rewrite ?andb_false_r; reflexivity.
Qed.

Lemma free_before_dir a t :
  contains ".nc" a = false -> free_before ".nc" a (String "/" t) = true.
Proof.
  induction a as [|x a IH]; [reflexivity|].
  cbn [contains free_before]. intros H.
  apply orb_false_iff in H as [Hhere Hrest].
  rewrite (IH Hrest), andb_true_r. apply negb_true_iff.
  rewrite prefix_nc in *.
  destruct a as [|y [|z a]]; cbn [String.append].
  - destruct t; [reflexivity|]. rewrite andb_false_r. reflexivity.
  - rewrite andb_false_r. reflexivity.
  - exact Hhere.
Qed.

Lemma int_char_no (x : ascii) s :
  int_char x = false -> all_chars int_char s = true ->
  all_chars (other_than x) s = true.
Proof.
  intros Hx. apply all_chars_weaken. intros c Hc. unfold other_than.
  destruct (Ascii.eqb c x) eqn:E; [|reflexivity].
  apply Ascii.eqb_eq in E. subst. congruence.
Qed.

(** What [str_float] prints: an optional sign and digits, a point, digits. *)
Lemma str_float_shape x :
  exists ip fp c r,
    str_float x = ip ++ "." ++ fp /\
    all_chars int_char ip = true /\ all_chars is_digit fp = true /\
    fp = String c r /\ is_digit c = true.
Proof.
  unfold str_float. set (a := Z.to_N (Z.abs x)).
  destruct (frac_nonempty (a mod 1000)) as (c & r & Ec & Hc).
  exists ((if x <? 0 then "-" else "") ++ str_nat (a / 1000)),
    (frac_digits (a mod 1000)), c, r.
  split; [rewrite app_assoc_s; reflexivity|].
  split; [|split; [apply digits_frac | split; assumption]].
  rewrite all_chars_app.
  apply andb_true_iff. split; [destruct (x <? 0); reflexivity|].
  apply (all_chars_weaken is_digit); [|apply digits_str_nat].
  intros d Hd. unfold int_char. rewrite Hd. reflexivity.
Qed.

Lemma str_float_no (x : ascii) z :
  int_char x = false -> x <> "."%char ->
  all_chars (other_than x) (str_float z) = true.
Proof.
  intros Hx Hdot.
  destruct (str_float_shape z) as (ip & fp & c & r & -> & Hip & Hfp & _ & _).
  change ("." ++ fp) with (String "." fp).
  rewrite all_chars_app. cbn [all_chars].
  rewrite (int_char_no _ _ Hx Hip).
  assert (Hd : is_digit x = false).
  { unfold int_char in Hx. apply orb_false_iff in Hx as [Hx _]. exact Hx. }
  rewrite (digits_no _ _ Hd Hfp), andb_true_r. unfold other_than.
  destruct (Ascii.eqb "." x) eqn:E; [|reflexivity].
  apply Ascii.eqb_eq in E. congruence.
Qed.

Lemma dot_digit_free c r tail :
  is_digit c = true ->
  String.prefix ".nc" (String "." (String c r) ++ tail) = false.
Proof.
  intros Hc. cbn [String.append String.prefix].
  destruct (ascii_dec "." "."); [|reflexivity].
  destruct (ascii_dec "n" c) as [<-|]; [discriminate | reflexivity].
Qed.

Lemma stem_split gd y0 seed bias :
  contains ".nc" (dir gd) = false ->
  hd "" (split ".nc" (year_filepath gd y0 (random_suffix y0 seed bias)))
  = member_stem gd y0 seed bias.
Proof.
  intros Hdir. unfold year_filepath, path_join, random_suffix, member_stem.
  destruct (str_float_shape bias) as (ip & fp & c & r & -> & Hip & Hfp & Efp & Hc).
  set (y0s := str_int y0). set (seeds := str_nat seed).
  set (R1 := "/" ++ y0s ++ "/model_geometry" ++ y0s ++ "_random_" ++ seeds ++ "_" ++ ip).
  assert (HR1 : all_chars (other_than ".") R1 = true).
  { unfold R1. rewrite !all_chars_app.
    rewrite (int_char_no "." y0s eq_refl (chars_str_int y0)).
    rewrite (digits_no "." seeds eq_refl (digits_str_nat seed)).
    rewrite (int_char_no "." ip eq_refl Hip). reflexivity. }
  transitivity (hd "" (split ".nc" ((dir gd ++ R1 ++ String "." fp) ++ ".nc" ++ ""))).
  { f_equal. f_equal. unfold R1. norm_app. reflexivity. }
  rewrite split_head; [unfold R1; norm_app; reflexivity | discriminate |].
  rewrite !free_before_app.
  apply andb_true_iff. split; [|apply andb_true_iff; split].
  - unfold R1. cbn [String.append]. apply free_before_dir, Hdir.
  - apply free_before_other, HR1.
  - cbn [free_before]. rewrite Efp at 1. rewrite dot_digit_free by exact Hc.
    apply free_before_other, digits_no; [reflexivity | exact Hfp].
Qed.

Lemma member_fields gd y0 seed bias :
  exists before,
    split "_" (member_stem gd y0 seed bias)
    = (before ++ [str_nat seed; str_float bias])%list.
Proof.
  unfold member_stem.
  set (X := dir gd ++ "/" ++ str_int y0 ++ "/model_geometry" ++ str_int y0 ++ "_random").
  exists (split "_" X).
  transitivity (split "_" ((X ++ String "_" (str_nat seed)) ++ String "_" (str_float bias))).
  { f_equal. unfold X. norm_app. reflexivity. }
  rewrite !split_char_app.
  rewrite (split_char_none "_" (str_nat seed))
    by (apply digits_no; [reflexivity | apply digits_str_nat]).
  rewrite (split_char_none "_" (str_float bias))
    by (apply str_float_no; [reflexivity | discriminate]).
  rewrite <- app_assoc. reflexivity.
Qed.

(** Reading the file name back gives the seed, the bias and the suffix
    the file was written under. *)
Lemma member_of_path_roundtrip gd y0 seed bias d :
  contains ".nc" (dir gd) = false ->
  member_of_path y0 (year_filepath gd y0 (random_suffix y0 seed bias)) d
  = (Return (Member (str_nat seed) bias (random_suffix y0 seed bias)), d).
Proof.
  intros Hdir. unfold member_of_path. rewrite (stem_split _ _ _ _ Hdir).
  destruct (member_fields gd y0 seed bias) as (before & ->).
  unfold neg_index. rewrite rev_app_distr. cbn [rev app nth_error Nat.sub].
  unfold bind, lift_opt, ret. rewrite float_roundtrip. reflexivity.
Qed.

End StrFacts.

(** ** CandidateGenerator *)

Lemma try_except_Return {A} (c h : M A) d a d' :
  try_except c h d = (Return a, d') ->
  c d = (Return a, d') \/ exists d1, c d = (Raise, d1) /\ h d1 = (Return a, d').
Proof.
  unfold try_except. destruct (c d) as [[x|] d1]; intros H.
  - left. exact H.
  - right. eauto.
Qed.

Lemma mapM_cons_Return {A B} (f : A -> M B) a l d bs d' :
  mapM f (a :: l) d = (Return bs, d') ->
  exists b bs' d1, f a d = (Return b, d1) /\ mapM f l d1 = (Return bs', d') /\
                   bs = b :: bs'.
Proof.
  simpl. intros H. inv_bind H. inv_bind H. inversion H; subst. eauto 10.
Qed.

Section GeneratorFacts.
Variable simulate : gdir -> disk -> sim_call -> model + string.
Variable gd : gdir.
Variable y0 : Z.
Variable mb_offset : Q.

(** A task that returns a path returns the path of its own output. *)
Lemma run_random_task_path tupel d p d' :
  _run_random_task simulate tupel gd y0 mb_offset d = (Return p, d') ->
  p = None \/ p = Some (year_filepath gd y0 (random_suffix y0 tupel.1 tupel.2)).
Proof.
  unfold _run_random_task. intros H.
  inv_bind H. inv_bind H. inv_bind H.
  destruct (negb a1).
  - inv_bind H. apply try_except_Return in H as [H|(d5 & _ & H)].
    + inv_bind H. inversion H; subst. right. reflexivity.
    + inversion H; subst. left. reflexivity.
  - apply try_except_Return in H as [H|(d5 & _ & H)].
    + inv_bind H. inversion H; subst. right. reflexivity.
    + inversion H; subst. left. reflexivity.
Qed.

Lemma run_random_tasks_paths tuples :
  forall d paths d',
    mapM (fun tupel => _run_random_task simulate tupel gd y0 mb_offset) tuples d
    = (Return paths, d') ->
    Forall2 (fun tupel p =>
               p = None \/
               p = Some (year_filepath gd y0 (random_suffix y0 tupel.1 tupel.2)))
            tuples paths.
Proof.
  induction tuples as [|t l IH]; intros d paths d' H.
  - inversion H; subst. constructor.
  - apply mapM_cons_Return in H as (p & ps & d1 & Ht & Hl & ->).
    constructor; [eapply run_random_task_path; eauto | eapply IH; eauto].
Qed.

Lemma members_of_paths tuples paths :
  Str.contains ".nc" (dir gd) = false ->
  Forall2 (fun tupel p =>
             p = None \/
             p = Some (year_filepath gd y0 (random_suffix y0 tupel.1 tupel.2)))
          tuples paths ->
  forall d, mapM (member_of_path y0) (omap id paths) d
            = (Return (successes y0 tuples paths), d).
Proof.
  intros Hdir. induction 1 as [|t p l ps [-> | ->] _ IH]; intros d.
  - reflexivity.
  - exact (IH d).
  - unfold successes. cbn [omap zip zip_with list_omap id mapM fst snd].
    rewrite (bind_run _ _ _ _ _
               (StrFacts.member_of_path_roundtrip gd y0 t.1 t.2 d Hdir)).
    fold (successes y0 l ps).
    rewrite (bind_run _ _ _ _ _ (IH d)). reflexivity.
Qed.

End GeneratorFacts.



Lemma successes_from y0 tuples paths m :
  m ∈ successes y0 tuples paths ->
  exists t, t ∈ tuples /\ m = member_for y0 t.
Proof.
  unfold successes. intros H. apply list_elem_of_omap in H as ([t p] & Hin & Hm).
  simpl in Hm. destruct p; [|discriminate]. injection Hm as <-.
  exists t. split; [|reflexivity].
  apply elem_of_zip_l in Hin. exact Hin.
Qed.


Section RandomTask.
Variable simulate : gdir -> disk -> sim_call -> model + string.
Variable gd : gdir.
Variable y0 : Z.
Variable mb_offset : Q.


End RandomTask.




(** *** Requests only accumulate *)

Lemma requested_add_request s b d :
  requested (add_event (Requested s b) d) = (requested d ++ [(s, b)])%list.
Proof. unfold requested, add_event. simpl. rewrite omap_app. reflexivity. Qed.

Lemma requested_add_simulated c d :
  requested (add_event (Simulated c) d) = requested d.
Proof.
  unfold requested, add_event. simpl. rewrite omap_app. simpl.
  apply app_nil_r.
Qed.

Section Grows.
Context (P : N * Z -> Prop).

Lemma grows_keeps {A} (c : M A) : keeps requested c -> grows P c.
Proof.
  intros Hc d r d' H. exists []. rewrite (Hc _ _ _ H), app_nil_r. auto.
Qed.

Lemma grows_bind {A B} (c : M A) (k : A -> M B) :
  grows P c -> (forall a, grows P (k a)) -> grows P (bind c k).
Proof.
  intros Hc Hk d r d'. unfold bind.
  destruct (c d) as [[a|] d1] eqn:E; intros H.
  - destruct (Hc _ _ _ E) as (n1 & E1 & F1).
    destruct (Hk a _ _ _ H) as (n2 & E2 & F2).
    exists (n1 ++ n2)%list. rewrite E2, E1, app_assoc.
    split; [reflexivity | apply Forall_app; auto].
  - inversion H; subst. eapply Hc; eauto.
Qed.

Lemma grows_try {A} (c h : M A) :
  grows P c -> grows P h -> grows P (try_except c h).
Proof.
  intros Hc Hh d r d'. unfold try_except.
  destruct (c d) as [[a|] d1] eqn:E; intros H.
  - inversion H; subst. eapply Hc; eauto.
  - destruct (Hc _ _ _ E) as (n1 & E1 & F1).
    destruct (Hh _ _ _ H) as (n2 & E2 & F2).
    exists (n1 ++ n2)%list. rewrite E2, E1, app_assoc.
    split; [reflexivity | apply Forall_app; auto].
Qed.

Lemma grows_mapM {A B} (f : A -> M B) (l : list A) :
  (forall a, a ∈ l -> grows P (f a)) -> grows P (mapM f l).
Proof.
  induction l as [|a l IH]; intros Hf; simpl.
  - apply grows_keeps, keeps_ret.
  - apply grows_bind; [apply Hf; constructor|]. intros b.
    apply grows_bind; [apply IH; intros x Hx; apply Hf; constructor; exact Hx|].
    intros bs. apply grows_keeps, keeps_ret.
Qed.

End Grows.

Lemma grows_weaken {A} (P Q : N * Z -> Prop) (c : M A) :
  (forall t, P t -> Q t) -> grows P c -> grows Q c.
Proof.
  intros HPQ Hc d r d' H. destruct (Hc _ _ _ H) as (new & E & F).
  exists new. split; [exact E|]. eapply Forall_impl; eauto.
Qed.

Lemma requests_first_bind {A B} t (c : M A) (k : A -> M B) :
  requests_first t c -> (forall a, grows (fun _ => True) (k a)) ->
  requests_first t (bind c k).
Proof.
  intros Hc Hk d r d'. unfold bind.
  destruct (c d) as [[a|] d1] eqn:E; intros H.
  - destruct (Hc _ _ _ E) as (m1 & E1).
    destruct (Hk a _ _ _ H) as (n2 & E2 & _).
    exists (m1 ++ n2)%list. rewrite E2, E1, <- app_assoc. reflexivity.
  - inversion H; subst. eapply Hc; eauto.
Qed.

Section GeneratorRequests.
Variable simulate : gdir -> disk -> sim_call -> model + string.
Variable gd : gdir.
Variable y0 : Z.
Variable mb_offset : Q.

Lemma run_task_keeps_requested c : keeps requested (run_task simulate gd c).
Proof.
  unfold run_task. apply keeps_bind; [apply keeps_get|]. intros d.
  destruct (simulate gd d c);
    (apply keeps_bind;
       [apply keeps_modify; intros d0; rewrite requested_add_simulated; reflexivity|]);
    intros _; first [apply keeps_ret | apply keeps_raise].
Qed.

Lemma exists_path_keeps {X} (proj : disk -> X) p : keeps proj (exists_path p).
Proof.
  unfold exists_path. apply keeps_bind; [apply keeps_get|]. intros d.
  apply keeps_ret.
Qed.

Lemma years_to_stable_keeps {X} (proj : disk -> X) : keeps proj years_to_stable.
Proof.
  unfold years_to_stable. apply keeps_bind; [apply keeps_get|]. intros d.
  apply keeps_lift_opt.
Qed.

Lemma member_of_path_keeps {X} (proj : disk -> X) rp :
  keeps proj (member_of_path y0 rp).
Proof.
  unfold member_of_path.
  repeat (apply keeps_bind; [apply keeps_lift_opt|]; intros ?).
  apply keeps_ret.
Qed.

(** What follows the request in [_run_random_task]. *)
Lemma run_random_task_requests tupel :
  requests_first tupel (_run_random_task simulate tupel gd y0 mb_offset) /\
  grows (fun t => t = tupel) (_run_random_task simulate tupel gd y0 mb_offset).
Proof.
  destruct tupel as [s b]. unfold _run_random_task. cbn [fst snd].
  set (rest := bind (read_flowlines gd) _).
  assert (Hrest : forall P, grows P rest).
  { intros P. apply grows_keeps. unfold rest.
    apply keeps_bind; [apply read_flowlines_keeps|]. intros _.
    apply keeps_bind; [apply exists_path_keeps|]. intros present.
    destruct (negb present).
    - apply keeps_bind; [apply years_to_stable_keeps|]. intros year.
      apply keeps_try; [|apply keeps_ret].
      apply keeps_bind; [apply run_task_keeps_requested|]. intros _. apply keeps_ret.
    - apply keeps_try; [|apply keeps_ret].
      apply keeps_bind; [apply FileModel_keeps|]. intros _. apply keeps_ret. }
  split.
  - intros d r d'. unfold bind at 1, modify at 1. intros H.
    destruct (Hrest (fun _ => True) _ _ _ H) as (new & E & _).
    exists new. rewrite E, requested_add_request, <- app_assoc. reflexivity.
  - intros d r d'. unfold bind at 1, modify at 1. intros H.
    destruct (Hrest (fun t => t = (s, b)) _ _ _ H) as (new & E & F).
    exists ((s, b) :: new). rewrite E, requested_add_request, <- app_assoc.
    split; [reflexivity | constructor; auto].
Qed.

Lemma run_random_parallel_grows tuples :
  grows (fun t => t ∈ tuples) (_run_random_parallel simulate gd y0 tuples mb_offset).
Proof.
  unfold _run_random_parallel. apply grows_bind.
  - apply grows_mapM. intros t Ht.
    apply (grows_weaken (fun t' => t' = t)); [intros ? ->; exact Ht|].
    apply run_random_task_requests.
  - intros paths. apply grows_keeps, keeps_mapM. intros rp.
    apply member_of_path_keeps.
Qed.

Lemma run_random_parallel_first t tuples :
  requests_first t (_run_random_parallel simulate gd y0 (t :: tuples) mb_offset).
Proof.
  unfold _run_random_parallel. apply requests_first_bind.
  - cbn [mapM]. apply requests_first_bind; [apply run_random_task_requests|].
    intros p. apply grows_bind.
    + apply grows_mapM. intros t' _.
      apply (grows_weaken (fun t'' => t'' = t')); [auto|].
      apply run_random_task_requests.
    + intros ps. apply grows_keeps, keeps_ret.
  - intros paths. apply grows_keeps, keeps_mapM. intros rp.
    apply member_of_path_keeps.
Qed.

End GeneratorRequests.

(** *** The biases of the batches *)

Lemma fold_min_spec r :
  forall x, let m := fold_left Z.min r x in
            (m = x \/ m ∈ r) /\ m <= x /\ Forall (fun y => m <= y) r.
Proof.
  induction r as [|y r IH]; intros x; simpl.
  - split; [left; reflexivity|]. split; [lia | constructor].
  - destruct (IH (Z.min x y)) as ([Hm|Hm] & Hle & Hall).
    + split; [|split].
      * destruct (Z.min_spec x y) as [[_ E]|[_ E]].
        -- left. congruence.
        -- right. rewrite Hm, E. constructor.
      * lia.
      * constructor; [lia | exact Hall].
    + split; [right; constructor; exact Hm|]. split; [lia|].
      constructor; [lia | exact Hall].
Qed.

Lemma min_Z_spec l m :
  min_Z l = Some m -> m ∈ l /\ Forall (fun y => m <= y) l.
Proof.
  destruct l as [|x r]; simpl; [discriminate|]. intros H. injection H as <-.
  destruct (fold_min_spec r x) as ([Hm|Hm] & Hle & Hall).
  - split; [rewrite Hm; constructor | constructor; [exact Hle | exact Hall]].
  - split; [constructor; exact Hm | constructor; [exact Hle | exact Hall]].
Qed.

Lemma enumerate_seeds_biases (P : Z -> Prop) f l :
  Forall P l -> Forall (fun t : N * Z => P t.2) (enumerate_seeds f l).
Proof.
  intros H. apply Forall_lookup. intros i t Ht.
  unfold enumerate_seeds in Ht. rewrite list_lookup_imap in Ht.
  destruct (l !! i) as [b|] eqn:E; [|discriminate].
  simpl in Ht. injection Ht as <-. simpl.
  eapply Forall_lookup_1; eauto.
Qed.

Lemma bool_Forall {A} (p : A -> bool) l :
  forallb p l = true -> Forall (fun x => p x = true) l.
Proof.
  intros H. apply Forall_forall. intros x Hx.
  rewrite forallb_forall in H. apply H, list_elem_of_In, Hx.
Qed.

Lemma first_batch_biases : Forall (fun t : N * Z => -3000 <= t.2) first_batch.
Proof.
  eapply Forall_impl; [apply (bool_Forall (fun t => -3000 <=? t.2))|].
  - vm_compute. reflexivity.
  - intros t Ht. apply Z.leb_le, Ht.
Qed.

Lemma high_batch_biases n : Forall (fun t : N * Z => -3000 <= t.2) (high_batch n).
Proof.
  unfold high_batch. apply enumerate_seeds_biases.
  eapply Forall_impl; [apply (bool_Forall (fun b => -3000 <=? b))|].
  - vm_compute. reflexivity.
  - intros t Ht. apply Z.leb_le, Ht.
Qed.

Lemma low_batch_head n :
  exists seed rest, low_batch n = (seed, -5000) :: rest.
Proof.
  unfold low_batch, enumerate_seeds.
  assert (E : exists rest, arange (-5000) (-3000) 50 = -5000 :: rest)
    by (vm_compute; eauto).
  destruct E as [rest ->]. cbn [imap]. eauto.
Qed.

Section GenerationFacts.
Variable simulate : gdir -> disk -> sim_call -> model + string.
Variable gd : gdir.
Variable y0 : Z.
Variable mb_offset : Q.

(** The table of a batch holds rows of requested tuples only. *)
Lemma run_random_parallel_members tuples d t d1 :
  Str.contains ".nc" (dir gd) = false ->
  _run_random_parallel simulate gd y0 tuples mb_offset d = (Return t, d1) ->
  forall m, m ∈ t -> exists tupel, tupel ∈ tuples /\ m = member_for y0 tupel.
Proof.
  intros Hdir H. unfold _run_random_parallel in H. inv_bind H.
  pose proof (run_random_tasks_paths _ _ _ _ _ _ _ _ E) as Hpaths.
  rewrite (members_of_paths gd y0 tuples a Hdir Hpaths) in H.
  injection H as <- _. intros m. apply successes_from.
Qed.

(** What [generation] does once the table has been extended or not. *)
Lemma generation_rest_grows (rest : list member -> M (list member)) :
  rest = (fun random_run_list =>
     max_bias <- lift_opt (argmin Z.gtb (map temp_bias random_run_list)) ;;
     max_row <- lift_opt (random_run_list !! max_bias) ;;
     present <- exists_path (get_filepath gd "model_geometry" (suffix max_row)) ;;
     fmod <- FileModel (if present
                        then get_filepath gd "model_geometry" (suffix max_row)
                        else year_filepath gd y0 (suffix max_row)) ;;
     random_run_list <-
       (if min_nonzero (volume_m3_ts fmod) then
          more <- _run_random_parallel simulate gd y0
                    (high_batch (length random_run_list)) mb_offset ;;
          ret (random_run_list ++ more)%list
        else ret random_run_list) ;;
     ret (sort_values (fun a b => temp_bias a <=? temp_bias b) random_run_list)) ->
  forall rrl, grows (fun t => -3000 <= t.2) (rest rrl).
Proof.
  intros -> rrl.
  apply grows_bind; [apply grows_keeps, keeps_lift_opt|]. intros max_bias.
  apply grows_bind; [apply grows_keeps, keeps_lift_opt|]. intros max_row.
  apply grows_bind; [apply grows_keeps, exists_path_keeps|]. intros present.
  apply grows_bind; [apply grows_keeps, FileModel_keeps|]. intros fmod.
  apply grows_bind; [|intros; apply grows_keeps, keeps_ret].
  destruct (min_nonzero (volume_m3_ts fmod)); [|apply grows_keeps, keeps_ret].
  apply grows_bind; [|intros; apply grows_keeps, keeps_ret].
  eapply grows_weaken; [|apply run_random_parallel_grows].
  intros t Ht. pose proof (high_batch_biases (length rrl)) as H.
  rewrite Forall_forall in H. apply H, Ht.
Qed.

End GenerationFacts.

(** C3 (as amended).  In a glacier directory whose path does not contain
    [".nc"], once the first batch (biases -3 to 1.95) has returned its
    table, [generation] requests temperature biases below -3 if and only
    if that table has a member with temperature bias -3, that is, if and
    only if the run with bias -3 succeeded or its output was already
    there; no simulated volume enters the decision. *)
Theorem generation_samples_below_minus_3
    (simulate : gdir -> disk -> sim_call -> model + string)
    (gd : gdir) (y0 : Z) (mb_offset : Q) (d d1 : disk) (t1 : list member) :
  Str.contains ".nc" (dir gd) = false ->
  _run_random_parallel simulate gd y0 first_batch mb_offset d = (Return t1, d1) ->
  samples_below (-3000) d (generation simulate gd y0 mb_offset d).2
  <-> exists m, m ∈ t1 /\ temp_bias m = -3000.
Proof.
  intros Hdir H1.
  assert (Hbias : forall m, m ∈ t1 -> -3000 <= temp_bias m).
  { intros m Hm.
    destruct (run_random_parallel_members _ _ _ _ _ _ _ _ Hdir H1 m Hm) as (t & Ht & ->).
    pose proof first_batch_biases as H. rewrite Forall_forall in H.
    exact (H t Ht). }
  destruct (run_random_parallel_grows _ _ _ _ _ _ _ _ H1) as (new1 & E1 & F1).
  assert (F1' : Forall (fun t : N * Z => -3000 <= t.2) new1).
  { eapply Forall_impl; [exact F1|]. intros t Ht.
    pose proof first_batch_biases as H. rewrite Forall_forall in H.
    exact (H t Ht). }
  unfold generation. rewrite (bind_run _ _ _ _ _ H1).
  match goal with
  | |- context [bind (if _ then _ else _) ?k] => set (rest := k)
  end.
  pose proof (generation_rest_grows simulate gd y0 mb_offset rest eq_refl) as Hrest.
  assert (Hnone : ~ samples_below (-3000) d d1).
  { intros (seed & b & Hb & Hin). rewrite E1, drop_app_length in Hin.
    rewrite Forall_forall in F1'. apply F1' in Hin. simpl in Hin. lia. }
  destruct (min_Z (map temp_bias t1)) as [lowest|] eqn:Emin.
  - apply min_Z_spec in Emin as [Hin Hleast].
    apply list_elem_of_fmap in Hin as (mlow & -> & Hmlow).
    unfold bind at 1, lift_opt, ret.
    destruct (temp_bias mlow =? -3000) eqn:E3.
    + apply Z.eqb_eq in E3. split; [intros _; eauto|]. intros _.
      destruct (low_batch_head (length t1)) as (seed & more & Elow).
      set (c := bind _ rest).
      assert (Hc : requests_first (seed, -5000) c).
      { unfold c. apply requests_first_bind;
          [|intros a; eapply grows_weaken; [|apply Hrest]; auto].
        apply requests_first_bind; [|intros; apply grows_keeps, keeps_ret].
        rewrite Elow. apply run_random_parallel_first. }
      destruct (c d1) as [r d'] eqn:Ec.
      destruct (Hc _ _ _ Ec) as (more' & E').
      exists seed, (-5000). split; [lia|].
      cbn [snd]. rewrite E', E1, <- app_assoc, drop_app_length.
      apply elem_of_app. right. constructor.
    + apply Z.eqb_neq in E3.
      match goal with
      | |- context [(?c d1).2] => destruct (c d1) as [r d'] eqn:Ec
      end.
      unfold bind at 1, ret in Ec.
      destruct (Hrest _ _ _ _ Ec) as (new2 & E2 & F2).
      split.
      * intros (seed & b & Hb & Hin). exfalso.
        cbn [snd] in Hin.
        rewrite E2, E1, <- app_assoc, drop_app_length in Hin.
        apply elem_of_app in Hin as [Hin|Hin].
        -- rewrite Forall_forall in F1'. apply F1' in Hin. simpl in Hin. lia.
        -- rewrite Forall_forall in F2. apply F2 in Hin. simpl in Hin. lia.
      * intros (m & Hm & Em). exfalso.
        rewrite Forall_forall in Hleast.
        assert (temp_bias mlow <= temp_bias m).
        { apply Hleast, list_elem_of_fmap. eauto. }
        pose proof (Hbias _ Hmlow). lia.
  - unfold bind at 1, lift_opt, raise. cbn [snd].
    split; [intros H; contradiction|].
    intros (m & Hm & _). destruct t1; [inversion Hm | discriminate].
Qed.

Lemma generation_samples_below_minus_3_witness :
  samples_below (-3000) probed (generation cold_only bare_gdir 1850 0 probed).2
  <-> exists m, m ∈ first_table /\ temp_bias m = -3000.
Proof.
  apply (generation_samples_below_minus_3 cold_only bare_gdir 1850 0
           probed first_run.2 first_table).
  - vm_compute. reflexivity.
  - assert (H : first_run.1 = Return first_table) by (vm_compute; reflexivity).
    exact (run_split first_run (Return first_table) H).
Defined.

(** C3 (as stated) fails.  Under [cold_only] the member with temperature
    bias -3 exists and its minimum simulated volume is exactly zero, yet
    [generation] goes on to request the biases from -5 up: the tuple
    (4, -5.0) is the 101st request. *)
Lemma generation_extends_despite_zero_volume :
  first_table = [Member "0" (-3000) "1850_random_0_-3.0"] /\
  files (generation cold_only bare_gdir 1850 0 probed).2
    !! get_filepath bare_gdir "model_geometry" "1850_random_0_-3.0"
  = Some (Geometry vanishing) /\
  min_nonzero (volume_m3_ts vanishing) = false /\
  samples_below (-3000) probed (generation cold_only bare_gdir 1850 0 probed).2.
Proof.
  split; [reflexivity|]. split; [vm_compute; reflexivity|].
  split; [vm_compute; reflexivity|].
  exists 4%N, (-5000). split; [lia|].
  apply (list_elem_of_lookup_2 _ 100). vm_compute. reflexivity.
Qed.

(** ** CandidateIdentifier *)

Section Sorting.
Context {A : Type} (le : A -> A -> bool).
Hypothesis total : forall x y, le x y = false -> le y x = true.
Hypothesis trans : forall x y z, le x y = true -> le y z = true -> le x z = true.

Lemma Forall_insert_sorted (P : A -> Prop) x l :
  P x -> Forall P l -> Forall P (insert_sorted le x l).
Proof.
  intros Hx Hl. induction Hl as [|y r Hy Hr IH]; simpl.
  - constructor; [exact Hx|constructor].
  - destruct (le x y); constructor; auto.
Qed.

Lemma insert_sorted_sorted x l :
  sorted_by le l -> sorted_by le (insert_sorted le x l).
Proof.
  induction l as [|y r IH]; simpl; intros Hs.
  - split; [constructor|exact I].
  - destruct Hs as [Hy Hr]. destruct (le x y) eqn:E; simpl.
    + split; [|split; assumption].
      constructor; [exact E|].
      eapply Forall_impl; [exact Hy|]. intros z Hz. cbv beta in Hz.
      exact (trans x y z E Hz).
    + split; [|apply IH, Hr].
      apply Forall_insert_sorted; [apply total, E|exact Hy].
Qed.

Lemma sort_values_sorted l : sorted_by le (sort_values le l).
Proof.
  induction l as [|x r IH]; simpl; [exact I|].
  apply insert_sorted_sorted, IH.
Qed.

Lemma sorted_by_lookup l :
  sorted_by le l ->
  forall i j a b, (i < j)%nat -> l !! i = Some a -> l !! j = Some b ->
                  le a b = true.
Proof.
  induction l as [|x r IH]; intros Hs i j a b Hij Ha Hb; [discriminate|].
  destruct Hs as [Hx Hr]. destruct j as [|j]; [lia|]. simpl in Hb.
  destruct i as [|i]; simpl in Ha.
  - injection Ha as <-. rewrite Forall_forall in Hx.
    apply Hx. eapply list_elem_of_lookup_2, Hb.
  - eapply (IH Hr i j); [lia|exact Ha|exact Hb].
Qed.

Lemma length_insert_sorted x l :
  length (insert_sorted le x l) = S (length l).
Proof.
  induction l as [|y r IH]; simpl; [reflexivity|].
  destruct (le x y); simpl; [reflexivity|]. rewrite IH. reflexivity.
Qed.

Lemma length_sort_values l : length (sort_values le l) = length l.
Proof.
  induction l as [|x r IH]; simpl; [reflexivity|].
  rewrite length_insert_sorted, IH. reflexivity.
Qed.

Lemma elem_of_insert_sorted y x l :
  y ∈ insert_sorted le x l -> y = x \/ y ∈ l.
Proof.
  induction l as [|z r IH]; simpl; intros H.
  - apply list_elem_of_singleton in H. left. exact H.
  - destruct (le x z).
    + apply elem_of_cons in H. exact H.
    + apply elem_of_cons in H. destruct H as [->|H].
      * right. constructor.
      * destruct (IH H) as [->|Hr]; [left; reflexivity|right; constructor; exact Hr].
Qed.

Lemma elem_of_sort_values y l : y ∈ sort_values le l -> y ∈ l.
Proof.
  induction l as [|x r IH]; simpl; intros H; [exact H|].
  apply elem_of_insert_sorted in H. destruct H as [->|H].
  - constructor.
  - constructor. apply IH, H.
Qed.

Lemma insert_sorted_perm x l : insert_sorted le x l ≡ₚ x :: l.
Proof.
  induction l as [|y r IH]; simpl; [reflexivity|].
  destruct (le x y); [reflexivity|].
  rewrite IH. apply Permutation_swap.
Qed.

Lemma sort_values_perm l : sort_values le l ≡ₚ l.
Proof.
  induction l as [|x r IH]; simpl; [reflexivity|].
  rewrite insert_sorted_perm, IH. reflexivity.
Qed.

End Sorting.

(** *** What every [argsort] puts first *)

Lemma zip_seq_lookup (keys : list Q) x a :
  (x, a) ∈ zip keys (seq 0 (length keys)) -> keys !! a = Some x.
Proof.
  intros H. apply list_elem_of_lookup_1 in H as [k Hk].
  unfold zip in Hk. apply lookup_zip_with_Some in Hk as (x' & a' & E & Hx & Ha).
  injection E as -> ->. apply lookup_seq in Ha as [-> _]. exact Hx.
Qed.

Lemma Qle_bool_total (a b : Q * nat) :
  Qle_bool a.1 b.1 = false -> Qle_bool b.1 a.1 = true.
Proof.
  intros H. apply Qle_bool_iff. apply Qlt_le_weak, Qnot_le_lt.
  intros Hle. apply Qle_bool_iff in Hle. congruence.
Qed.

Lemma Qle_bool_trans (a b c : Q * nat) :
  Qle_bool a.1 b.1 = true -> Qle_bool b.1 c.1 = true -> Qle_bool a.1 c.1 = true.
Proof.
  rewrite !Qle_bool_iff. apply Qle_trans.
Qed.

(** The stable sort is one of the functions [sorts] describes. *)
Lemma stable_argsort_sorts : sorts stable_argsort.
Proof.
  intros keys. unfold stable_argsort.
  set (le := fun a b : Q * nat => Qle_bool a.1 b.1).
  set (ps := zip keys (seq 0 (length keys))).
  split.
  - rewrite (sort_values_perm le ps). unfold ps.
    change (map snd (zip keys (seq 0 (length keys))))
      with ((zip keys (seq 0 (length keys))).*2).
    rewrite snd_zip by (rewrite length_seq; lia). reflexivity.
  - intros i j a b x y Hij Ha Hb Hx Hy.
    change (map snd (sort_values le ps)) with (snd <$> sort_values le ps) in Ha, Hb.
    rewrite list_lookup_fmap in Ha, Hb.
    destruct (sort_values le ps !! i) as [[x' a']|] eqn:Ei; [|discriminate].
    destruct (sort_values le ps !! j) as [[y' b']|] eqn:Ej; [|discriminate].
    cbn in Ha, Hb. injection Ha as ->. injection Hb as ->.
    assert (Hx' : keys !! a = Some x').
    { apply zip_seq_lookup. apply (elem_of_sort_values le).
      eapply list_elem_of_lookup_2, Ei. }
    assert (Hy' : keys !! b = Some y').
    { apply zip_seq_lookup. apply (elem_of_sort_values le).
      eapply list_elem_of_lookup_2, Ej. }
    assert (x' = x) by congruence. assert (y' = y) by congruence. subst.
    apply Qle_bool_iff.
    exact (sorted_by_lookup le _
             (sort_values_sorted le Qle_bool_total Qle_bool_trans ps)
             i j (x, a) (y, b) Hij Ei Ej).
Qed.

(** The first position an [argsort] returns holds a least key. *)
Lemma sorts_head argsort keys :
  sorts argsort -> keys <> [] ->
  exists i x, head (argsort keys) = Some i /\ keys !! i = Some x /\
              forall y, y ∈ keys -> (x <= y)%Q.
Proof.
  intros Hsorts Hne. destruct (Hsorts keys) as [Hperm Hasc].
  destruct (argsort keys) as [|i rest] eqn:E.
  { apply Permutation_length in Hperm. rewrite length_seq in Hperm.
    destruct keys; [congruence | discriminate]. }
  assert (Hi : (i < length keys)%nat).
  { assert (H : i ∈ seq 0 (length keys)).
    { rewrite <- Hperm. constructor. }
    apply elem_of_seq in H. lia. }
  apply lookup_lt_is_Some_2 in Hi as [x Hx].
  exists i, x. split; [reflexivity|]. split; [exact Hx|].
  intros y Hy. apply list_elem_of_lookup_1 in Hy as [b Hb].
  assert (Hin : b ∈ i :: rest).
  { rewrite Hperm. apply elem_of_seq. apply lookup_lt_Some in Hb. lia. }
  apply list_elem_of_lookup_1 in Hin as [j Hj].
  destruct j as [|j].
  - cbn in Hj. injection Hj as <-. rewrite Hx in Hb. injection Hb as <-.
    apply Qle_refl.
  - apply (Hasc 0%nat (S j) i b x y); [lia|reflexivity|exact Hj|exact Hx|exact Hb].
Qed.

Lemma fold_Qmin_le r :
  forall x, (fold_left Qmin r x <= x)%Q /\
            Forall (fun y => (fold_left Qmin r x <= y)%Q) r.
Proof.
  induction r as [|y r IH]; intros x; simpl.
  - split; [apply Qle_refl | constructor].
  - destruct (IH (Qmin x y)) as [Hle Hall]. split; [|constructor].
    + eapply Qle_trans; [exact Hle | apply Q.le_min_l].
    + eapply Qle_trans; [exact Hle | apply Q.le_min_r].
    + exact Hall.
Qed.

Lemma min_Q_le l lo :
  min_Q l = Some lo -> Forall (fun y => (lo <= y)%Q) l.
Proof.
  destruct l as [|x r]; simpl; [discriminate|]. intros H. injection H as <-.
  destruct (fold_Qmin_le r x). constructor; assumption.
Qed.

Lemma fold_Qmin_in r : forall x, fold_left Qmin r x ∈ x :: r.
Proof.
  induction r as [|y r IH]; intros x; simpl; [constructor|].
  specialize (IH (Qmin x y)). apply elem_of_cons in IH as [IH|IH].
  - rewrite IH. unfold Qmin, GenericMinMax.gmin.
    destruct (x ?= y)%Q; repeat constructor.
  - constructor. constructor. exact IH.
Qed.

(** The least volume is the volume of a row. *)
Lemma min_Q_in l lo : min_Q l = Some lo -> lo ∈ l.
Proof.
  destruct l as [|x r]; simpl; [discriminate|]. intros H. injection H as <-.
  apply fold_Qmin_in.
Qed.

(** With one target, the selection is the row [argsort] puts first
    when the key is the distance to the least volume, and that row has
    the least volume. *)
Lemma select_single argsort df :
  sorts argsort -> df <> [] ->
  exists lo i r,
    min_Q (map volume_m3 df) = Some lo /\
    nearest argsort df lo = Some i /\ df !! i = Some r /\
    (forall r', r' ∈ df -> (volume_m3 r <= volume_m3 r')%Q) /\
    select_candidates argsort df 1 = Some [(v_time r, v_suffix r)].
Proof.
  intros Hsorts Hne. unfold select_candidates.
  destruct (min_Q (map volume_m3 df)) as [lo|] eqn:Elo;
    [|destruct df; [congruence | discriminate]].
  destruct (max_Q (map volume_m3 df)) as [hi|] eqn:Ehi;
    [|destruct df; [congruence | discriminate]].
  cbn [linspace pick_indices]. unfold nearest.
  set (keys := map (fun r => Qabs (volume_m3 r - lo)) df).
  destruct (sorts_head argsort keys Hsorts) as (i & x & Hhead & Hx & Hleast).
  { unfold keys. destruct df; [congruence | discriminate]. }
  rewrite Hhead.
  unfold keys in Hx. change (map ?f df) with (f <$> df) in Hx.
  rewrite list_lookup_fmap in Hx.
  destruct (df !! i) as [r|] eqn:Er; [|discriminate].
  change (Some (Qabs (volume_m3 r - lo)) = Some x) in Hx.
  apply (inj Some) in Hx. subst x.
  exists lo, i, r. split; [reflexivity|]. split; [exact Hhead|].
  split; [exact Er|]. split.
  - intros r' Hr'.
    assert (Hlo : (volume_m3 r <= lo)%Q).
    { apply min_Q_in in Elo. change (map ?f df) with (f <$> df) in Elo.
      apply list_elem_of_fmap in Elo as (r0 & E0 & Hr0).
      assert (H0 : (Qabs (volume_m3 r - lo) <= Qabs (volume_m3 r0 - lo))%Q).
      { apply Hleast. unfold keys. change (map ?f df) with (f <$> df).
        apply list_elem_of_fmap. eauto. }
      rewrite <- E0 in H0.
      assert (Hz : (Qabs (lo - lo) == 0)%Q).
      { unfold Qminus. rewrite Qplus_opp_r. reflexivity. }
      rewrite Hz in H0. apply Qabs_Qle_condition in H0 as [_ H0].
      apply (Qplus_le_l _ _ (- lo)). rewrite Qplus_opp_r. exact H0. }
    eapply Qle_trans; [exact Hlo|].
    apply min_Q_le in Elo. rewrite Forall_forall in Elo. apply Elo.
    change (map ?f df) with (f <$> df). apply list_elem_of_fmap. eauto.
  - rewrite bool_decide_eq_false_2 by (intros H; inversion H).
    cbn [app omap list_omap]. rewrite Er. reflexivity.
Qed.

Lemma identification_single argsort gd list_ ys ye d d1 df :
  sorts argsort ->
  restricted_table gd list_ ys d = (Return df, d1) ->
  df <> [] ->
  exists lo i r,
    min_Q (map volume_m3 df) = Some lo /\
    nearest argsort df lo = Some i /\ df !! i = Some r /\
    (forall r', r' ∈ df -> (volume_m3 r <= volume_m3 r')%Q) /\
    identification argsort gd list_ ys ye 1 d = (Return [(v_time r, v_suffix r)], d1).
Proof.
  intros Hsorts Htable Hne.
  destruct (select_single argsort df Hsorts Hne) as (lo & i & r & Hlo & Hi & Er & Hleast & Hsel).
  exists lo, i, r. repeat (split; [assumption|]).
  unfold identification. rewrite (bind_run _ _ _ _ _ Htable), Hsel.
  reflexivity.
Qed.

(** C4 (as amended).  When the restricted volume table is not empty,
    [identification] with [n = 1] returns exactly one candidate: the
    (time, member) pair of a row whose volume is the least of the table,
    the single target of [np.linspace(min, max, 1)] being the minimum
    itself.  Among several rows of least volume it is the one numpy's
    [argsort] happens to put first, whichever that is. *)
Theorem identification_single_candidate
    (argsort : list Q -> list nat)
    (gd : gdir) (list_ : list member) (ys ye : Z) (d d1 : disk)
    (df : list volume_row) :
  sorts argsort ->
  restricted_table gd list_ ys d = (Return df, d1) ->
  df <> [] ->
  exists lo i r,
    min_Q (map volume_m3 df) = Some lo /\
    nearest argsort df lo = Some i /\ df !! i = Some r /\
    (forall r', r' ∈ df -> (volume_m3 r <= volume_m3 r')%Q) /\
    identification argsort gd list_ ys ye 1 d = (Return [(v_time r, v_suffix r)], d1).
Proof. apply identification_single. Qed.

Lemma identification_single_candidate_witness :
  exists lo i r,
    min_Q (map volume_m3 lone_table) = Some lo /\
    nearest stable_argsort lone_table lo = Some i /\ lone_table !! i = Some r /\
    (forall r', r' ∈ lone_table -> (volume_m3 r <= volume_m3 r')%Q) /\
    identification stable_argsort bare_gdir lone_member 1850 2003 1 lone_disk
    = (Return [(v_time r, v_suffix r)], lone_disk).
Proof.
  apply (identification_single_candidate stable_argsort bare_gdir lone_member
           1850 2003 lone_disk lone_disk lone_table).
  - exact stable_argsort_sorts.
  - vm_compute. reflexivity.
  - vm_compute. discriminate.
Defined.

(** C4 (as stated) fails.  The restricted table of [lone_disk] has the
    volumes 0, 4 and 10 at times 0, 1 and 2; the midpoint of the least
    and the greatest is 5 and the row nearest to it is the one at time 1,
    but [identification] with [n = 1] returns the row at time 0, the one
    of least volume, and does so whatever [argsort] does with equal
    keys. *)
Lemma identification_single_not_midpoint :
  restricted_table bare_gdir lone_member 1850 lone_disk
  = (Return lone_table, lone_disk) /\
  map (fun r => (v_time r, volume_m3 r)) lone_table
  = [(0, 0%Q); (1, 4%Q); (2, 10%Q)] /\
  nearest stable_argsort lone_table ((0 + 10) / 2) = Some 1%nat /\
  identification stable_argsort bare_gdir lone_member 1850 2003 1 lone_disk
  = (Return [(0, "1850_random_0_0.0")], lone_disk) /\
  forall argsort, sorts argsort ->
    identification argsort bare_gdir lone_member 1850 2003 1 lone_disk
    = (Return [(0, "1850_random_0_0.0")], lone_disk).
Proof.
  assert (Htable : restricted_table bare_gdir lone_member 1850 lone_disk
                   = (Return lone_table, lone_disk)) by (vm_compute; reflexivity).
  split; [exact Htable|].
  split; [vm_compute; reflexivity|].
  split; [vm_compute; reflexivity|].
  split; [vm_compute; reflexivity|].
  intros argsort Hsorts.
  destruct (identification_single argsort bare_gdir lone_member 1850 2003
              lone_disk lone_disk lone_table Hsorts Htable)
    as (lo & i & r & _ & _ & Er & Hleast & Hid).
  { discriminate. }
  rewrite Hid.
  assert (H0 : (volume_m3 r <= 0)%Q).
  { apply (Hleast (VolumeRow 0 0 "1850_random_0_0.0")). constructor. }
  apply list_elem_of_lookup_2 in Er.
  apply elem_of_cons in Er as [->|Er]; [reflexivity|].
  apply elem_of_cons in Er as [->|Er]; [exfalso; revert H0; vm_compute; congruence|].
  apply elem_of_cons in Er as [->|Er]; [exfalso; revert H0; vm_compute; congruence|].
  inversion Er.
Qed.

(** ** CandidateEvaluator: the selections of pruning mode *)

(** C7 (the code departs from it).  On [crossed_results] both fitness
    columns have a one-row 5th-percentile subset.  The retained
    [median_exp] is the length-median of the observation-fitness subset,
    as claimed; the retained [median_fls] is that same file, read from
    the observation-fitness subset, whereas the length-median of the
    [fitness_fls] subset is the other candidate. *)
Lemma selection_median_fls_from_exp :
  (selection stable_argsort crossed_results ≫= saved "median_exp")
  = Some "model_geometry1850_past_0_-3.0_120.nc" /\
  length_median stable_argsort r_fitness crossed_results
  = Some "model_geometry1850_past_0_-3.0_120.nc" /\
  (selection stable_argsort crossed_results ≫= saved "median_fls")
  = Some "model_geometry1850_past_0_-3.0_120.nc" /\
  length_median stable_argsort r_fitness_fls crossed_results
  = Some "model_geometry1850_past_16_-2.8_200.nc".
Proof. repeat split; vm_compute; reflexivity. Qed.

(** ** CandidateEvaluator: the cached result table *)

Section CacheFacts.
Variable simulate : gdir -> disk -> sim_call -> model + string.
Variable cfg : params.
Variable gd : gdir.
Variable y0 : Z.

(** In non-pruning mode [evaluation] ends by writing the table it
    returns. *)
Lemma evaluation_writes cand_df ye emod mb_offset d df d' :
  evaluation simulate cfg gd cand_df y0 ye emod mb_offset false d = (Return df, d') ->
  files d' !! result_path cfg gd y0 = Some (ResultPickle df).
Proof.
  unfold evaluation. intros H.
  inv_bind H. inv_bind H. inv_bind H. inv_bind H. inv_bind H.
  cbn [negb] in H. unfold bind, modify, ret in H.
  injection H as <- <-. cbn [files set_files]. apply lookup_insert_eq.
Qed.

Lemma substring_all s : substring 0 (String.length s) s = s.
Proof. induction s as [|c s IH]; simpl; [reflexivity | rewrite IH; reflexivity]. Qed.

Lemma substring_skip a b :
  substring (String.length a) (String.length (a ++ b) - String.length a) (a ++ b) = b.
Proof.
  induction a as [|c a IH]; simpl.
  - rewrite Nat.sub_0_r. apply substring_all.
  - exact IH.
Qed.

Lemma listed_join name :
  listed gd (Str.path_join (dir gd) name)
  = if Str.contains "/" name then None else Some name.
Proof.
  unfold listed, Str.path_join, Str.startswith.
  rewrite <- (StrFacts.app_assoc_s (dir gd) "/" name).
  rewrite StrFacts.prefix_app, substring_skip. reflexivity.
Qed.

(** The result table is not one of the year's run outputs. *)
Lemma result_name_stays :
  of_year y0 (Str.concat ["result"; Str.str_int y0; baseline_climate cfg; "_qc";
                          Str.str_int (climate_qc_months cfg); "_";
                          Str.str_float (prcp_scaling_factor cfg); ".pkl"]) = false.
Proof. reflexivity. Qed.

Lemma result_path_survives :
  survives gd (of_year y0) (result_path cfg gd y0) = true.
Proof.
  unfold survives, result_path. rewrite listed_join.
  destruct (Str.contains "/" _); [reflexivity|].
  rewrite result_name_stays. reflexivity.
Qed.

(** Nor does a moved file land on it. *)
Lemma moved_is_not_result name :
  Str.path_join (Str.path_join (dir gd) (Str.str_int y0)) name
  <> result_path cfg gd y0.
Proof.
  unfold result_path, Str.path_join. rewrite StrFacts.app_assoc_s.
  intros H. apply (inj (String.append (dir gd))) in H.
  destruct (StrFacts.str_int_nonempty y0) as (c & r & E & Hc).
  rewrite E in H. cbn [Str.concat fold_right String.append] in H.
  injection H as H _. subst c. discriminate.
Qed.

Lemma move_to_year_result (fs : gmap string file) :
  move_to_year gd y0 fs !! result_path cfg gd y0 = fs !! result_path cfg gd y0.
Proof.
  unfold move_to_year.
  set (staying := filter _ fs). set (moving := map_to_list (filter _ fs)).
  assert (Hstay : staying !! result_path cfg gd y0 = fs !! result_path cfg gd y0).
  { unfold staying. rewrite map_lookup_filter.
    destruct (fs !! result_path cfg gd y0) as [f|]; [|reflexivity].
    simpl. rewrite option_guard_True; [reflexivity|].
    apply result_path_survives. }
  rewrite <- Hstay. clear Hstay. generalize staying. clear staying.
  induction moving as [|kv l IH]; intros acc; [reflexivity|].
  cbn [foldr]. destruct (listed gd kv.1) as [name|]; [|apply IH].
  rewrite lookup_insert_ne by apply moved_is_not_result. apply IH.
Qed.

End CacheFacts.

(** C6 (as amended).  In non-pruning mode ([delete=False]) a search that
    has returned a result table has left it on disk under the cache key:
    the same search started again on the disk it left returns that very
    table and leaves the disk, and with it the trace of simulations,
    untouched.  (In pruning mode no table is written.) *)
Theorem find_possible_glaciers_cached
    (simulate : gdir -> disk -> sim_call -> model + string) (cfg : params)
    (argsort : list Q -> list nat)
    (gd : gdir) (y0 ye : Z) (n : nat) (ex_mod : option model) (mb_offset : Q)
    (d d1 : disk) (results : list result_row) :
  find_possible_glaciers simulate cfg argsort gd y0 ye n ex_mod mb_offset false d
  = (Return results, d1) ->
  find_possible_glaciers simulate cfg argsort gd y0 ye n ex_mod mb_offset false d1
  = (Return results, d1).
Proof.
  intros H.
  assert (Hfile : files d1 !! result_path cfg gd y0 = Some (ResultPickle results)).
  { unfold find_possible_glaciers in H.
    unfold bind at 1, exists_path, bind at 1, get, ret in H.
    destruct (bool_decide _) in H.
    - unfold bind, get in H.
      destruct (files d !! result_path cfg gd y0) as [[]|] eqn:E;
        try discriminate.
      injection H as <- <-. exact E.
    - inv_bind H. inv_bind H. inv_bind H.
      unfold bind, modify, ret in H. injection H as <- <-.
      cbn [files set_files]. rewrite move_to_year_result.
      eapply evaluation_writes; eauto. }
  unfold find_possible_glaciers.
  unfold bind at 1, exists_path, bind at 1, get, ret.
  rewrite bool_decide_eq_true_2 by (rewrite Hfile; eauto).
  unfold bind, get. rewrite Hfile. reflexivity.
Qed.

Lemma find_possible_glaciers_cached_witness :
  find_possible_glaciers gentle cru stable_argsort bare_gdir 1850 2003 1 (Some flat) 0 false
    keep_run.2
  = (Return keep_results, keep_run.2).
Proof.
  apply (find_possible_glaciers_cached gentle cru stable_argsort bare_gdir 1850 2003 1
           (Some flat) 0 surveyed keep_run.2 keep_results).
  assert (H : keep_run.1 = Return keep_results) by (vm_compute; reflexivity).
  exact (run_split keep_run (Return keep_results) H).
Defined.

(** C6 (as stated) fails in pruning mode.  The first search returns its
    table after 141 forward simulations and writes no result table; the
    same search started again on the disk it left finds no cache, runs
    141 simulations once more and only then returns. *)
Lemma find_possible_glaciers_pruning_reruns :
  prune_run.1 = Return prune_results /\
  length prune_results = 1%nat /\
  files prune_run.2 !! result_path cru bare_gdir 1850 = None /\
  simulations prune_run.2 = 141%nat /\
  prune_again.1 = Return prune_results /\
  simulations prune_again.2 = 282%nat.
Proof. repeat split; vm_compute; reflexivity. Qed.

Module FitnessBounds.
Import Num Fitness.

Lemma fold_Qplus_nonneg l :
  Forall (fun x => (0 <= x)%Q) l ->
  forall a, (0 <= a)%Q -> (0 <= fold_left Qplus l a)%Q.
Proof.
  induction 1 as [|x l Hx _ IH]; intros a Ha; simpl; [exact Ha|].
  apply IH. rewrite <- (Qplus_0_l 0). apply Qplus_le_compat; assumption.
Qed.

Lemma sq_nonneg x : (0 <= Qabs x ^ 2)%Q.
Proof.
  simpl. apply Qmult_le_0_compat; apply Qabs_nonneg.
Qed.

Lemma sum_sq_nonneg d : (0 <= np_sum (abs_sq d))%Q.
Proof.
  unfold np_sum, abs_sq. apply fold_Qplus_nonneg; [|apply Qle_refl].
  apply Forall_forall. intros x Hx. apply list_elem_of_fmap in Hx.
  destruct Hx as (y & -> & _). apply sq_nonneg.
Qed.

Lemma fitness_loop_nonneg fls1 :
  forall fls2 a m f m',
    (0 <= a)%Q ->
    fitness_loop fls1 fls2 a m = Some (f, m') -> (0 <= f)%Q.
Proof.
  induction fls1 as [|f1 r1 IH]; intros fls2 a m f m' Ha H; simpl in H.
  - injection H as <- <-. exact Ha.
  - destruct fls2 as [|f2 r2]; [discriminate|].
    destruct (np_sub (surface_h f1) (surface_h f2)) as [dh|]; [|discriminate].
    destruct (np_sub (widths f1) (widths f2)) as [dw|]; [|discriminate].
    eapply IH; [|exact H].
    rewrite <- (Qplus_0_l 0). apply Qplus_le_compat; [|apply sum_sq_nonneg].
    rewrite <- (Qplus_0_l 0). apply Qplus_le_compat; [exact Ha|apply sum_sq_nonneg].
Qed.

Lemma scaled_nonneg f m :
  (0 <= f)%Q -> m <> 0%nat ->
  (0 <= f / inject_Z (Z.of_nat m) / 125)%Q.
Proof.
  intros Hf Hm.
  assert (Hpos : (0 < inject_Z (Z.of_nat m))%Q).
  { change 0%Q with (inject_Z 0). rewrite <- Zlt_Qlt. lia. }
  apply Qle_shift_div_l; [reflexivity|]. rewrite Qmult_0_l.
  apply Qle_shift_div_l; [exact Hpos|]. rewrite Qmult_0_l. exact Hf.
Qed.

(** The loop on a state and itself: every difference is zero. *)
Lemma np_sub_self a : np_sub a a = Some (zip_with Qminus a a).
Proof. apply FitnessFacts.np_sub_same_length. reflexivity. Qed.

Lemma sum_sq_self a : (np_sum (abs_sq (zip_with Qminus a a)) == 0)%Q.
Proof.
  unfold np_sum, abs_sq.
  assert (H : forall acc, (acc == 0)%Q ->
            (fold_left Qplus (map (fun x => Qabs x ^ 2) (zip_with Qminus a a)) acc == 0)%Q).
  { induction a as [|x a IH]; intros acc Hacc;
      cbn [zip_with map fold_left]; [exact Hacc|].
    apply IH. rewrite Hacc.
    assert (E : (x - x == 0)%Q) by ring.
    rewrite E. reflexivity. }
  apply H. reflexivity.
Qed.

Lemma fitness_loop_self fls :
  forall a m, (a == 0)%Q ->
    exists f, fitness_loop fls fls a m = Some (f, (m + grid_points fls)%nat)
              /\ (f == 0)%Q.
Proof.
  induction fls as [|f1 r IH]; intros a m Ha; simpl.
  - exists a. split; [f_equal; f_equal; lia|exact Ha].
  - rewrite !np_sub_self.
    destruct (IH (a + np_sum (abs_sq (zip_with Qminus (surface_h f1) (surface_h f1)))
                    + np_sum (abs_sq (zip_with Qminus (widths f1) (widths f1))))%Q
                 (m + nx f1)%nat) as (f & E & Hf).
    { rewrite Ha, !sum_sq_self. reflexivity. }
    exists f. split; [|exact Hf]. rewrite E. f_equal. f_equal. lia.
Qed.

End FitnessBounds.

(** X1. The fitness of a candidate, whenever [fitness_value] returns one,
    is not negative: it is a sum of squared differences divided by the
    positive number of grid points and by 125. *)
Theorem fitness_value_nonnegative (model1 model2 : model) (ye : Z) (f : Q) :
  Fitness.fitness_value model1 model2 ye = Some f -> (0 <= f)%Q.
Proof.
  unfold Fitness.fitness_value. intros H.
  destruct (run_until model2 ye) as [fls2|]; [|discriminate].
  destruct (run_until model1 ye) as [fls1|]; [|discriminate].
  destruct (Fitness.fitness_loop fls1 fls2 0 0) as [[s m]|] eqn:E; [|discriminate].
  destruct (Nat.eqb_spec m 0) as [|Hm]; [discriminate|].
  injection H as <-.
  apply FitnessBounds.scaled_nonneg; [|exact Hm].
  eapply FitnessBounds.fitness_loop_nonneg; [|exact E]. apply Qle_refl.
Qed.

Lemma fitness_value_nonnegative_witness :
  (0 <= 24 # 375)%Q.
Proof.
  apply (fitness_value_nonnegative (sample_state 5) (sample_state 7) 2003).
  vm_compute. reflexivity.
Defined.

(** X2. The same for the fitness against the glacier's own flowlines. *)
Theorem fitness_value_fls_nonnegative (model1 model2 : model) (ye : Z) (f : Q) :
  Fitness.fitness_value_fls model1 model2 ye = Some f -> (0 <= f)%Q.
Proof.
  unfold Fitness.fitness_value_fls. intros H.
  destruct (run_until model2 0) as [fls2|]; [|discriminate].
  destruct (run_until model1 ye) as [fls1|]; [|discriminate].
  destruct (Fitness.fitness_loop fls1 fls2 0 0) as [[s m]|] eqn:E; [|discriminate].
  destruct (Nat.eqb_spec m 0) as [|Hm]; [discriminate|].
  injection H as <-.
  apply FitnessBounds.scaled_nonneg; [|exact Hm].
  eapply FitnessBounds.fitness_loop_nonneg; [|exact E]. apply Qle_refl.
Qed.

(** X3. A state compared with itself has fitness zero, provided it has
    a grid point at all; a state without grid points has no fitness
    (the division by [m = 0]). *)
Theorem fitness_value_self (m : model) (ye : Z) (fls : list flowline) :
  run_until m ye = Some fls ->
  if Nat.eqb (grid_points fls) 0
  then Fitness.fitness_value m m ye = None
  else exists f, Fitness.fitness_value m m ye = Some f /\ (f == 0)%Q.
Proof.
  intros Hfls. unfold Fitness.fitness_value. rewrite Hfls.
  destruct (FitnessBounds.fitness_loop_self fls 0 0) as (s & E & Hs); [reflexivity|].
  rewrite E. simpl Nat.add.
  destruct (Nat.eqb (grid_points fls) 0); [reflexivity|].
  eexists. split; [reflexivity|]. rewrite Hs. reflexivity.
Qed.

Lemma fitness_value_fls_nonnegative_witness :
  (0 <= 54 # 375)%Q.
Proof.
  apply (fitness_value_fls_nonnegative (sample_state 1) (sample_state 4) 2003).
  vm_compute. reflexivity.
Defined.

Lemma fitness_value_self_witness :
  exists f, Fitness.fitness_value (sample_state 5) (sample_state 5) 2003 = Some f
            /\ (f == 0)%Q.
Proof.
  exact (fitness_value_self (sample_state 5) 2003 _ eq_refl).
Defined.

Lemma bind_outcome {A B} (c : M A) (k : A -> M B) d r d' :
  bind c k d = (r, d') ->
  (exists a d1, c d = (Return a, d1) /\ k a d1 = (r, d'))
  \/ (c d = (Raise, d') /\ r = Raise).
Proof.
  unfold bind. destruct (c d) as [[a|] d1]; intros H.
  - left. eauto.
  - right. inversion H; subst. split; reflexivity.
Qed.

Section Adds.

Lemma adds_keeps {A} (c : M A) : keeps simulations c -> adds 0 c.
Proof. intros K d r d' H. rewrite (K d r d' H). lia. Qed.

Lemma adds_le {A} n m (c : M A) : adds n c -> (n <= m)%nat -> adds m c.
Proof. intros Hc Hle d r d' H. specialize (Hc d r d' H). lia. Qed.

Lemma adds_bind {A B} n m (c : M A) (k : A -> M B) :
  adds n c -> (forall a, adds m (k a)) -> adds (n + m) (bind c k).
Proof.
  intros Hc Hk d r d' H. apply bind_outcome in H.
  destruct H as [(a & d1 & E1 & E2)|[E1 _]].
  - specialize (Hc _ _ _ E1). specialize (Hk a _ _ _ E2). lia.
  - specialize (Hc _ _ _ E1). lia.
Qed.

Lemma adds_try {A} n m (c h : M A) :
  adds n c -> adds m h -> adds (n + m) (try_except c h).
Proof.
  intros Hc Hh d r d' H. unfold try_except in H.
  destruct (c d) as [[a|] d1] eqn:E.
  - inversion H; subst. specialize (Hc _ _ _ E). lia.
  - specialize (Hc _ _ _ E). specialize (Hh _ _ _ H). lia.
Qed.

End Adds.

Section Counting.
Variable simulate : gdir -> disk -> sim_call -> model + string.
Variable gd : gdir.

Lemma simulations_add_simulated c d :
  simulations (add_event (Simulated c) d) = S (simulations d).
Proof.
  unfold simulations, add_event. cbn [trace].
  rewrite List.filter_app, length_app. simpl. lia.
Qed.

Lemma run_task_adds c : adds 1 (run_task simulate gd c).
Proof.
  intros d r d' H. unfold run_task, bind, get, modify in H.
  destruct (simulate gd d c); inversion H; subst;
    rewrite simulations_add_simulated; unfold simulations; cbn; lia.
Qed.

Lemma stable_loop_adds fuel ys :
  forall year, 0 < year ->
    adds (fuel + (if year =? 100 then 1 else 0))
         (stable_loop simulate fuel gd ys year).
Proof.
  induction fuel as [|fuel IH]; intros year Hpos; simpl.
  - eapply adds_le; [apply adds_keeps, keeps_ret|lia].
  - destruct (year <? 10001);
      [|eapply adds_le; [apply adds_keeps, keeps_ret|lia]].
    eapply adds_le.
    + apply (adds_bind (if (year =? 100)%Z then 1%nat else 0%nat) (1 + fuel)%nat).
      { destruct (year =? 100).
        - apply (adds_bind 1 0); [apply run_task_adds|].
          intros _. apply adds_keeps, keeps_ret.
        - apply adds_keeps, keeps_ret. }
      intros _. apply (adds_bind 1 fuel); [apply run_task_adds|].
      intros _. apply (adds_bind 0 fuel); [apply adds_keeps, FileModel_keeps|].
      intros m1. apply (adds_bind 0 fuel); [apply adds_keeps, FileModel_keeps|].
      intros m2. apply (adds_bind 0 fuel); [apply adds_keeps, keeps_lift_opt|].
      intros v2. apply (adds_bind 0 fuel); [apply adds_keeps, keeps_lift_opt|].
      intros v1. destruct (stable v1 v2).
      * eapply adds_le; [apply adds_keeps, keeps_ret|lia].
      * eapply adds_le; [apply IH; lia|].
        replace (year + 100 =? 100) with false; [lia|].
        symmetry. apply Z.eqb_neq. lia.
    + lia.
Qed.

Lemma single_time_to_stable_adds ys :
  adds 101 (_single_time_to_stable simulate gd ys).
Proof.
  unfold _single_time_to_stable.
  apply (adds_bind 0 101); [apply adds_keeps, keeps_get|]. intros d0.
  destruct (bool_decide _); [|eapply adds_le; [apply adds_keeps, keeps_ret|lia]].
  apply (adds_bind 0 101); [apply adds_keeps, read_flowlines_keeps|]. intros _.
  apply (adds_bind 101 0); [apply (stable_loop_adds 100 ys 100); lia|]. intros year.
  apply (adds_bind 0 0); [apply adds_keeps, keeps_modify; reflexivity|]. intros _.
  destruct (year <? 10001); apply adds_keeps;
    [apply keeps_modify; reflexivity|apply keeps_ret].
Qed.

End Counting.

(** X4.  One call of [_single_time_to_stable] runs at most 101 forward
    simulations, whatever the flow model does and however the call
    ends: two in the pass that starts at year 100 and one in each of
    the at most 99 passes after it. *)
Theorem single_time_to_stable_simulations
    (simulate : gdir -> disk -> sim_call -> model + string)
    (gd : gdir) (ys : Z) (d : disk) :
  (simulations (_single_time_to_stable simulate gd ys d).2
   <= simulations d + 101)%nat.
Proof.
  destruct (_single_time_to_stable simulate gd ys d) as [r d'] eqn:E.
  apply (single_time_to_stable_adds simulate gd ys) in E. cbn [snd]. lia.
Qed.

(** X5.  When the glacier has its flowlines and the probe returns, no
    file of the directory whose name starts with [model_geometry] or
    [model_diagnostics] and ends with [00.nc] is left, be it an
    intermediate output of this probe or a file that was there
    before. *)
Theorem single_time_to_stable_cleans
    (simulate : gdir -> disk -> sim_call -> model + string)
    (gd : gdir) (ys : Z) (d d' : disk) (fls : file) :
  files d !! (dir gd ++ "/model_flowlines.pkl") = Some fls ->
  _single_time_to_stable simulate gd ys d = (Return tt, d') ->
  forall p name,
    listed gd p = Some name -> intermediate_output name = true ->
    files d' !! p = None.
Proof.
  intros Hfls H p name Hl Hi. unfold _single_time_to_stable in H.
  unfold bind at 1 in H. unfold get at 1 in H. cbv beta iota in H.
  rewrite bool_decide_eq_true_2 in H by (rewrite Hfls; eauto).
  inv_bind H. inv_bind H. inv_bind H.
  unfold remove_listed, modify in E1. inversion E1; subst. clear E1.
  assert (Hgone : files (set_files
            (filter (fun kv : string * file =>
                       survives gd intermediate_output kv.1 = true)) d1) !! p = None).
  { cbn [files set_files]. apply map_lookup_filter_None. right.
    intros x _. cbn [fst]. unfold survives. rewrite Hl, Hi. discriminate. }
  destruct (a0 <? 10001); unfold modify, ret in H; inversion H; subst; exact Hgone.
Qed.

Lemma single_time_to_stable_cleans_witness :
  files steady_run.2 !! "/per_glacier/RGI60-11.00897/model_geometry_4700.nc" = None.
Proof.
  apply (single_time_to_stable_cleans steady bare_gdir 1850 interrupted
           steady_run.2 (FlowlinePickle blank_model))
    with (name := "model_geometry_4700.nc").
  - vm_compute. reflexivity.
  - assert (H : steady_run.1 = Return tt) by (vm_compute; reflexivity).
    exact (run_split steady_run (Return tt) H).
  - vm_compute. reflexivity.
  - vm_compute. reflexivity.
Defined.

#[local] Transparent calibration_loop.

Section CalibratorQuiet.
Variable simulate : gdir -> disk -> sim_call -> model + string.
Variable gd : gdir.
Variables ys ye : Z.

Lemma single_calibration_run_keeps_diagnostics mb_offset :
  keeps diagnostics (_single_calibration_run simulate gd mb_offset ys ye).
Proof.
  unfold _single_calibration_run. apply keeps_try.
  - apply keeps_bind; [apply FileModel_keeps|]. intros m. apply keeps_ret.
  - apply keeps_try.
    + apply keeps_bind; [apply read_flowlines_keeps|]. intros _.
      apply keeps_bind; [apply years_to_stable_keeps|]. intros year.
      apply keeps_bind; [apply run_task_keeps_diagnostics|]. intros _.
      apply keeps_bind; [apply run_task_keeps_diagnostics|]. intros _.
      apply keeps_bind; [apply FileModel_keeps|]. intros m. apply keeps_ret.
    + apply keeps_bind; [apply keeps_get|]. intros d.
      apply keeps_bind; [apply keeps_lift_opt|]. intros l.
      apply keeps_bind; [apply keeps_lift_opt|]. intros e. apply keeps_ret.
Qed.

Lemma calibration_loop_keeps_diagnostics left :
  forall lo hi df,
    keeps diagnostics (calibration_loop simulate left gd ys ye lo hi df).
Proof.
  induction left as [|left IH]; intros lo hi df; simpl.
  - apply keeps_ret.
  - apply keeps_bind; [apply single_calibration_run_keeps_diagnostics|].
    intros ex. apply keeps_bind.
    { destruct ex; (apply keeps_bind; [apply keeps_lift_opt|]);
        intros x; apply keeps_ret. }
    intros de. destruct (converged lo hi de.1); [apply keeps_ret|].
    destruct (negative de.1); apply IH.
Qed.

End CalibratorQuiet.

#[local] Opaque calibration_loop.

Lemma find_mb_offset_keeps_diagnostics simulate gd ys a b :
  keeps diagnostics (find_mb_offset simulate gd ys a b).
Proof.
  unfold find_mb_offset. apply keeps_try; [|apply keeps_ret].
  apply keeps_bind; [apply calibration_loop_keeps_diagnostics|]. intros df.
  apply keeps_bind; [apply keeps_lift_opt|]. intros mb_offset.
  apply keeps_bind; [apply keeps_modify; reflexivity|]. intros _.
  apply remove_listed_keeps_diagnostics.
Qed.

(** X6.  [find_mb_offset] never raises and never touches the diagnostics
    record: whatever happens inside, the call returns normally, and the
    offset it selects is not written to [diagnostics.json]; it can only
    be read back from [experiment_iteration.csv] and from the names of
    the calibration files that are left. *)
Theorem find_mb_offset_silent
    (simulate : gdir -> disk -> sim_call -> model + string)
    (gd : gdir) (ys : Z) (a b : Q) (d : disk) :
  (find_mb_offset simulate gd ys a b d).1 = Return tt /\
  diagnostics (find_mb_offset simulate gd ys a b d).2 = diagnostics d.
Proof.
  split; [apply find_mb_offset_returns|].
  destruct (find_mb_offset simulate gd ys a b d) as [r d'] eqn:E.
  exact (find_mb_offset_keeps_diagnostics simulate gd ys a b d r d' E).
Qed.

Lemma csv_survives gd mb_offset :
  survives gd (stale_calibration mb_offset)
    (Str.path_join (dir gd) "experiment_iteration.csv") = true.
Proof.
  unfold survives. rewrite listed_join.
  change (Str.contains "/" "experiment_iteration.csv") with false.
  cbv beta iota. unfold stale_calibration, Str.startswith.
  change (String.prefix "model_geometry_calibration" "experiment_iteration.csv")
    with false.
  change (String.prefix "model_diagnostics_calibration" "experiment_iteration.csv")
    with false.
  reflexivity.
Qed.

(** X7.  When the iteration loop of [find_mb_offset] ends normally, the
    call stores the whole log as [experiment_iteration.csv], and of the
    calibration outputs in the directory (names starting with
    [model_geometry_calibration] or [model_diagnostics_calibration] and
    ending with [.nc]) only those of the selected offset are left. *)
Theorem find_mb_offset_leaves
    (simulate : gdir -> disk -> sim_call -> model + string)
    (gd : gdir) (ys : Z) (a b : Q) (d d1 : disk) (df : list iter_row) :
  calibration_loop simulate 15 gd ys (rgi_date gd) a b [] d = (Return df, d1) ->
  exists mb_offset d',
    best_offset df = Some mb_offset /\
    find_mb_offset simulate gd ys a b d = (Return tt, d') /\
    files d' !! Str.path_join (dir gd) "experiment_iteration.csv"
    = Some (IterationCsv df) /\
    forall p name f,
      files d' !! p = Some f -> listed gd p = Some name ->
      stale_calibration mb_offset name = false.
Proof.
  intros Hloop.
  destruct (calibration_loop_log simulate gd ys (rgi_date gd) 15 _ _ _ _ _ _ Hloop)
    as (new & -> & Hlog).
  cbn [app] in *.
  destruct (bisection_log_length 15 _ _ _ Hlog) as [_ Hne].
  specialize (Hne ltac:(discriminate)).
  destruct (best_offset_spec new Hne) as (best & _ & Hbest & _).
  exists (it_mb_offset best), (calibrated gd new (it_mb_offset best) d1).
  split; [exact Hbest|].
  split; [exact (find_mb_offset_run simulate gd ys a b d new d1 _ Hloop Hbest)|].
  unfold calibrated. cbn [files set_files]. split.
  - apply map_lookup_filter_Some. split; [apply lookup_insert_eq|].
    cbn [fst]. apply csv_survives.
  - intros p name f Hp Hl. apply map_lookup_filter_Some in Hp.
    destruct Hp as [_ Hs]. cbn [fst] in Hs. unfold survives in Hs.
    rewrite Hl in Hs. apply negb_true_iff in Hs. exact Hs.
Qed.

Lemma find_mb_offset_leaves_witness :
  exists mb_offset d',
    best_offset steep_log = Some mb_offset /\
    find_mb_offset steep_flow steep_gdir 1850 (-1000) 1000 probed = (Return tt, d') /\
    files d' !! Str.path_join (dir steep_gdir) "experiment_iteration.csv"
    = Some (IterationCsv steep_log) /\
    forall p name f,
      files d' !! p = Some f -> listed steep_gdir p = Some name ->
      stale_calibration mb_offset name = false.
Proof.
  apply (find_mb_offset_leaves steep_flow steep_gdir 1850 (-1000) 1000 probed
           steep_disk steep_log).
  assert (H : steep_run.1 = Return steep_log) by (vm_compute; reflexivity).
  exact (run_split steep_run (Return steep_log) H).
Defined.

Lemma try_except_raise {A} (c h : M A) d d1 :
  c d = (Raise, d1) -> try_except c h d = h d1.
Proof. unfold try_except. intros ->. reflexivity. Qed.

(** X8.  Without a recorded [years_to_stable] and without a stored
    calibration run for the offset, [_single_calibration_run] runs no
    simulation and changes nothing on disk; what it returns as the
    error of this run is the last field of the last line that was in
    [log.txt] before the call, and it raises when the log is empty. *)
Theorem single_calibration_run_without_years
    (simulate : gdir -> disk -> sim_call -> model + string)
    (gd : gdir) (mb_offset ys ye : Z) (d : disk) :
  diagnostics d !! "years_to_stable" = None ->
  files d !! get_filepath gd "model_geometry"
               ("_calibration_past_" ++ Str.str_float mb_offset) = None ->
  _single_calibration_run simulate gd mb_offset ys ye d
  = (match Str.neg_index (log_txt d) 1 with
     | Some line =>
         match Str.neg_index (Str.split ";" line) 1 with
         | Some error => Return (inr error)
         | None => Raise
         end
     | None => Raise
     end, d).
Proof.
  intros Hy Hf. unfold _single_calibration_run. cbv zeta.
  rewrite (try_except_raise _ _ d d).
  2:{ unfold FileModel, bind, get. cbv beta iota. rewrite Hf. reflexivity. }
  assert (Hr : exists r, read_flowlines gd d = (r, d)).
  { unfold read_flowlines, bind, get. cbv beta iota.
    destruct (files d !! Str.path_join _ _) as [[]|]; eexists; reflexivity. }
  rewrite (try_except_raise _ _ d d).
  2:{ destruct Hr as ([m|] & Er).
      - rewrite (bind_run _ _ _ _ _ Er). apply bind_raise.
        unfold years_to_stable, bind, get. cbv beta iota. rewrite Hy. reflexivity.
      - apply bind_raise. exact Er. }
  unfold bind at 1, get at 1. cbv beta iota.
  destruct (Str.neg_index (log_txt d) 1) as [line|]; [|reflexivity].
  unfold bind at 1. cbn [lift_opt]. unfold ret at 1. cbv beta iota.
  destruct (Str.neg_index (Str.split ";" line) 1); reflexivity.
Qed.

Lemma single_calibration_run_without_years_witness :
  _single_calibration_run overflowing bare_gdir 500 1850 2003 bare_disk
  = (Raise, bare_disk).
Proof.
  apply (single_calibration_run_without_years overflowing bare_gdir 500 1850 2003
           bare_disk).
  - vm_compute. reflexivity.
  - vm_compute. reflexivity.
Defined.

(** X9.  The ensemble table [generation] returns is sorted by
    temperature bias, ascending: of two rows the earlier one never has
    the larger bias. *)
Theorem generation_sorted
    (simulate : gdir -> disk -> sim_call -> model + string)
    (gd : gdir) (y0 : Z) (mb_offset : Q) (d d' : disk) (t : list member) :
  generation simulate gd y0 mb_offset d = (Return t, d') ->
  forall i j a b, (i < j)%nat -> t !! i = Some a -> t !! j = Some b ->
                  temp_bias a <= temp_bias b.
Proof.
  intros H i j a b Hij Ha Hb. unfold generation in H.
  inv_bind H. inv_bind H. inv_bind H. inv_bind H. inv_bind H. inv_bind H.
  inv_bind H. inv_bind H.
  unfold ret in H. injection H as <- _.
  apply Z.leb_le.
  refine (sorted_by_lookup (fun a b => temp_bias a <=? temp_bias b) _
            (sort_values_sorted _ _ _ _) i j a b Hij Ha Hb).
  - intros x y Hxy. apply Z.leb_gt in Hxy. apply Z.leb_le. lia.
  - intros x y z Hxy Hyz. apply Z.leb_le in Hxy, Hyz. apply Z.leb_le. lia.
Qed.

Lemma generation_sorted_witness :
  temp_bias (Member "16" (-5000) "1850_random_16_-5.0")
  <= temp_bias (Member "4" (-2900) "1850_random_4_-2.9").
Proof.
  apply (generation_sorted cooling bare_gdir 1850 0 probed cooling_run.2
           cooling_table) with (i := 0%nat) (j := 42%nat).
  - assert (H : cooling_run.1 = Return cooling_table) by (vm_compute; reflexivity).
    exact (run_split cooling_run (Return cooling_table) H).
  - lia.
  - vm_compute. reflexivity.
  - vm_compute. reflexivity.
Defined.

Lemma batch_on_grid f start stop :
  forallb on_grid (arange start stop 50) = true ->
  Forall (fun t : N * Z => on_grid t.2 = true)
         (enumerate_seeds f (arange start stop 50)).
Proof.
  intros H. apply (enumerate_seeds_biases (fun b => on_grid b = true)).
  apply bool_Forall, H.
Qed.

Section GenerationGrid.
Variable simulate : gdir -> disk -> sim_call -> model + string.
Variable gd : gdir.
Variable y0 : Z.
Variable mb_offset : Q.

Lemma batch_grows tuples :
  Forall (fun t : N * Z => on_grid t.2 = true) tuples ->
  grows (fun t => on_grid t.2 = true)
        (_run_random_parallel simulate gd y0 tuples mb_offset).
Proof.
  intros H. eapply grows_weaken; [|apply run_random_parallel_grows].
  intros t Ht. rewrite Forall_forall in H. apply H, Ht.
Qed.

Lemma generation_grows :
  grows (fun t => on_grid t.2 = true) (generation simulate gd y0 mb_offset).
Proof.
  unfold generation.
  apply grows_bind.
  { apply batch_grows. unfold first_batch. apply batch_on_grid.
    vm_compute. reflexivity. }
  intros rrl.
  apply grows_bind; [apply grows_keeps, keeps_lift_opt|]. intros lowest.
  apply grows_bind.
  { destruct (lowest =? -3000); [|apply grows_keeps, keeps_ret].
    apply grows_bind; [|intros; apply grows_keeps, keeps_ret].
    apply batch_grows. unfold low_batch. apply batch_on_grid.
    vm_compute. reflexivity. }
  intros rrl2.
  apply grows_bind; [apply grows_keeps, keeps_lift_opt|]. intros max_bias.
  apply grows_bind; [apply grows_keeps, keeps_lift_opt|]. intros max_row.
  apply grows_bind; [apply grows_keeps, exists_path_keeps|]. intros present.
  apply grows_bind; [apply grows_keeps, FileModel_keeps|]. intros fmod.
  apply grows_bind; [|intros; apply grows_keeps, keeps_ret].
  destruct (min_nonzero (volume_m3_ts fmod)); [|apply grows_keeps, keeps_ret].
  apply grows_bind; [|intros; apply grows_keeps, keeps_ret].
  apply batch_grows. unfold high_batch. apply batch_on_grid.
  vm_compute. reflexivity.
Qed.

End GenerationGrid.

(** X10.  Whatever the flow model does and however the call ends,
    [generation] only asks for temperature biases of the sampling grid:
    every tuple it hands to [_run_random_task] has a bias that is a
    multiple of 0.05 between -5 and 3. *)
Theorem generation_requests_on_grid
    (simulate : gdir -> disk -> sim_call -> model + string)
    (gd : gdir) (y0 : Z) (mb_offset : Q) (d : disk) :
  exists new,
    requested (generation simulate gd y0 mb_offset d).2
    = (requested d ++ new)%list /\
    Forall (fun t : N * Z =>
              -5000 <= t.2 <= 3000 /\ t.2 mod 50 = 0) new.
Proof.
  destruct (generation simulate gd y0 mb_offset d) as [r d'] eqn:E.
  destruct (generation_grows simulate gd y0 mb_offset d r d' E) as (new & Hn & Hall).
  exists new. split; [exact Hn|].
  eapply Forall_impl; [exact Hall|]. intros t Ht. cbv beta in Ht.
  unfold on_grid in Ht. apply andb_true_iff in Ht as [Ht H3].
  apply andb_true_iff in Ht as [H1 H2].
  apply Z.leb_le in H1, H2. apply Z.eqb_eq in H3. lia.
Qed.

(** X11.  The position [_find_extrema] returns is never the first and
    never the last of the series, and the smoothed series is strictly
    greater there than at both neighbouring positions. *)
Theorem find_extrema_interior (ts : list Q) (i : nat) :
  _find_extrema ts = Some i ->
  (0 < i)%nat /\ (i + 1 < length ts)%nat /\
  exists x before after,
    rolling_mean ts !! i = Some x /\
    rolling_mean ts !! (i - 1)%nat = Some before /\
    rolling_mean ts !! (i + 1)%nat = Some after /\
    (before < x)%Q /\ (after < x)%Q.
Proof.
  intros H. unfold _find_extrema in H. apply head_Some_elem_of in H.
  unfold argrelextrema in H. apply list_elem_of_filter in H as [Hall _].
  assert (Hlen : length (rolling_mean ts) = length ts).
  { unfold rolling_mean. rewrite List.length_map, List.length_seq. reflexivity. }
  remember (rolling_mean ts) as v eqn:Ev.
  assert (G : greater_at v i 1 = true).
  { rewrite forallb_forall in Hall. apply Hall. simpl. left. reflexivity. }
  unfold greater_at in G.
  destruct (v !! i) as [x|] eqn:Ex; [|discriminate].
  destruct (v !! Nat.min (i + 1) (length v - 1)) as [plus|] eqn:Ep; [|discriminate].
  destruct (v !! (i - 1)%nat) as [minus|] eqn:Em; [|discriminate].
  apply andb_true_iff in G as [G1 G2]. apply Qltb_lt in G1, G2.
  assert (Hi : (i < length v)%nat) by (eapply lookup_lt_Some; exact Ex).
  assert (H0 : (0 < i)%nat).
  { destruct i as [|i]; [|lia]. exfalso. simpl in Em. rewrite Ex in Em.
    injection Em as <-. exact (Qlt_irrefl _ G2). }
  assert (H1 : (i + 1 < length v)%nat).
  { destruct (decide (i + 1 < length v)%nat) as [Hlt|Hge]; [exact Hlt|exfalso].
    replace (Nat.min (i + 1) (length v - 1)) with i in Ep by lia.
    rewrite Ex in Ep. injection Ep as <-. exact (Qlt_irrefl _ G1). }
  replace (Nat.min (i + 1) (length v - 1)) with (i + 1)%nat in Ep by lia.
  split; [exact H0|]. split; [lia|].
  exists x, minus, plus. repeat split; assumption.
Qed.

Lemma find_extrema_interior_witness :
  (0 < 19)%nat /\ (19 + 1 < length hump)%nat /\
  exists x before after,
    rolling_mean hump !! 19%nat = Some x /\
    rolling_mean hump !! (19 - 1)%nat = Some before /\
    rolling_mean hump !! (19 + 1)%nat = Some after /\
    (before < x)%Q /\ (after < x)%Q.
Proof.
  apply (find_extrema_interior hump 19).
  vm_compute. reflexivity.
Defined.

Lemma length_linspace lo hi n : length (linspace lo hi n) = n.
Proof.
  destruct n as [|[|n]]; [reflexivity|reflexivity|].
  unfold linspace. rewrite List.length_map, List.length_seq. reflexivity.
Qed.

Lemma pick_indices_length argsort df targets :
  forall indices res,
    pick_indices argsort df targets indices = Some res ->
    (length res <= length indices + length targets)%nat.
Proof.
  induction targets as [|val rest IH]; intros indices res H; simpl in H.
  - injection H as <-. lia.
  - destruct (nearest argsort df val) as [index|]; [|discriminate].
    apply IH in H. destruct (bool_decide (index ∈ indices)); simpl.
    + lia.
    + rewrite length_app in H. simpl in H. lia.
Qed.

Lemma length_omap_le {A B} (f : A -> option B) l :
  (length (omap f l) <= length l)%nat.
Proof.
  induction l as [|x r IH]; [simpl; lia|].
  change (omap f (x :: r))
    with (match f x with Some y => y :: omap f r | None => omap f r end).
  destruct (f x); cbn [length]; lia.
Qed.

Lemma length_drop_duplicates l :
  forall seen, (length (drop_duplicates l seen) <= length l)%nat.
Proof.
  induction l as [|x r IH]; intros seen; simpl; [lia|].
  destruct (existsb (row_eqb x) seen); simpl.
  - specialize (IH seen). lia.
  - specialize (IH (x :: seen)). lia.
Qed.

Lemma elem_of_drop_duplicates x l :
  forall seen, x ∈ drop_duplicates l seen -> x ∈ l.
Proof.
  induction l as [|y r IH]; intros seen H; simpl in H; [exact H|].
  destruct (existsb (row_eqb y) seen).
  - constructor. exact (IH _ H).
  - apply elem_of_cons in H. destruct H as [->|H]; [constructor|].
    constructor. exact (IH _ H).
Qed.

(** What [select_candidates] returns: at most [n] pairs, each the time
    and suffix of a row of the table. *)
Lemma select_candidates_spec argsort df n cands :
  select_candidates argsort df n = Some cands ->
  (length cands <= n)%nat /\
  forall t sfx, (t, sfx) ∈ cands ->
    exists r, r ∈ df /\ v_time r = t /\ v_suffix r = sfx.
Proof.
  unfold select_candidates. intros H.
  destruct (min_Q (map volume_m3 df)) as [lo|]; [|discriminate].
  destruct (max_Q (map volume_m3 df)) as [hi|]; [|discriminate].
  destruct (pick_indices argsort df (linspace lo hi n) []) as [indices|] eqn:E; [|discriminate].
  injection H as <-. apply pick_indices_length in E.
  rewrite length_linspace in E. simpl in E. split.
  - rewrite List.length_map.
    etransitivity; [apply length_drop_duplicates|].
    rewrite length_sort_values.
    etransitivity; [apply length_omap_le|]. exact E.
  - intros t sfx Hin. apply list_elem_of_In, in_map_iff in Hin.
    destruct Hin as (r & Hr & Hin). injection Hr as <- <-.
    exists r. split; [|split; reflexivity].
    apply list_elem_of_In in Hin.
    apply elem_of_drop_duplicates, elem_of_sort_values in Hin.
    apply list_elem_of_omap in Hin as (i & _ & Hi).
    eapply list_elem_of_lookup_2, Hi.
Qed.

Section IdentifierFacts.
Variable argsort : list Q -> list nat.
Variable gd : gdir.
Variable ys : Z.

Lemma member_file_keeps {X} (proj : disk -> X) sfx :
  keeps proj (member_file gd ys sfx).
Proof.
  unfold member_file. apply keeps_bind; [apply exists_path_keeps|].
  intros present. apply FileModel_keeps.
Qed.

Lemma find_t_stag_keeps {X} (proj : disk -> X) suffixes :
  forall i t, keeps proj (find_t_stag gd ys suffixes i t).
Proof.
  induction suffixes as [|sfx rest IH]; intros i t; simpl; [apply keeps_ret|].
  destruct (i <? 10)%nat; [|apply IH].
  apply keeps_bind; [|intros it; apply IH].
  apply keeps_try; [|apply keeps_ret].
  apply keeps_bind; [apply member_file_keeps|]. intros fmod.
  apply keeps_bind; [apply keeps_lift_opt|]. intros k. apply keeps_ret.
Qed.

Lemma volume_table_keeps {X} (proj : disk -> X) suffixes :
  forall t_stag df, keeps proj (volume_table gd ys suffixes t_stag df).
Proof.
  induction suffixes as [|sfx rest IH]; intros t_stag df; simpl; [apply keeps_ret|].
  apply keeps_bind; [|intros df'; apply IH].
  apply keeps_try; [|apply keeps_ret].
  apply keeps_bind; [apply member_file_keeps|]. intros fmod. apply keeps_ret.
Qed.

Lemma identification_keeps {X} (proj : disk -> X) list_ ye n :
  keeps proj (identification argsort gd list_ ys ye n).
Proof.
  unfold identification, restricted_table.
  apply keeps_bind; [|intros df; apply keeps_lift_opt].
  apply keeps_bind.
  { destruct (bool_decide (list_ = [])); [apply keeps_raise|apply keeps_ret]. }
  intros _. apply keeps_bind; [apply find_t_stag_keeps|]. intros t_stag.
  apply keeps_bind; [apply years_to_stable_keeps|]. intros year.
  apply volume_table_keeps.
Qed.

(** The rows of the volume table carry suffixes of the members it was
    built from, and times that are positions of a series. *)
Lemma volume_table_rows (all : list string) suffixes :
  forall t_stag df d res d',
    (forall s, s ∈ suffixes -> s ∈ all) ->
    Forall (fun r => v_suffix r ∈ all /\ 0 <= v_time r) df ->
    volume_table gd ys suffixes t_stag df d = (Return res, d') ->
    Forall (fun r => v_suffix r ∈ all /\ 0 <= v_time r) res.
Proof.
  induction suffixes as [|sfx rest IH]; intros t_stag df d res d' Hsub Hdf H;
    simpl in H.
  - unfold ret in H. injection H as <- _. exact Hdf.
  - inv_bind H.
    refine (IH _ _ _ _ _ _ _ H); [intros s Hs; apply Hsub; constructor; exact Hs|].
    apply try_except_Return in E. destruct E as [E|(d2 & _ & E)].
    + inv_bind E. unfold ret in E. injection E as <- _.
      apply Forall_app. split; [exact Hdf|].
      apply Forall_forall. intros r Hr.
      apply list_elem_of_filter in Hr as [_ Hr].
      apply elem_of_lookup_imap_1 in Hr as (i & vol & -> & _). simpl.
      split; [apply Hsub; constructor|lia].
    + unfold ret in E. injection E as <- _. exact Hdf.
Qed.

End IdentifierFacts.

(** X12.  [identification] only reads: it leaves the disk as it was.
    It returns at most [n] candidates, and each of them is a year of the
    volume series of a member of the ensemble it was given: its suffix
    is the suffix of a row of the ensemble table and its time is not
    negative. *)
Theorem identification_candidates
    (argsort : list Q -> list nat)
    (gd : gdir) (list_ : list member) (ys ye : Z) (n : nat) (d d' : disk)
    (cands : list (Z * string)) :
  identification argsort gd list_ ys ye n d = (Return cands, d') ->
  d' = d /\
  (length cands <= n)%nat /\
  forall t sfx, (t, sfx) ∈ cands -> sfx ∈ map suffix list_ /\ 0 <= t.
Proof.
  intros H.
  split; [exact (identification_keeps argsort gd ys (fun d => d) list_ ye n d _ d' H)|].
  unfold identification in H. inv_bind H.
  apply lift_opt_Return in H as [H _].
  apply select_candidates_spec in H as [Hlen Hfrom].
  split; [exact Hlen|]. intros t sfx Hin.
  destruct (Hfrom t sfx Hin) as (r & Hr & <- & <-).
  unfold restricted_table in E. inv_bind E. inv_bind E. inv_bind E.
  pose proof (volume_table_rows gd ys (map suffix list_) _ _ _ _ _ _
                (fun s Hs => Hs) (Forall_nil_2 _) E) as Hrows.
  rewrite Forall_forall in Hrows. exact (Hrows r Hr).
Qed.

Lemma identification_candidates_witness :
  lone_disk = lone_disk /\
  (length lone_candidates <= 5)%nat /\
  forall t sfx, (t, sfx) ∈ lone_candidates ->
    sfx ∈ map suffix lone_member /\ 0 <= t.
Proof.
  apply (identification_candidates stable_argsort bare_gdir lone_member 1850 2003 5
           lone_disk lone_disk lone_candidates).
  vm_compute. reflexivity.
Defined.

Lemma adds_bind_ret {A B} n m (c : M A) (k : A -> M B) :
  adds n c -> (forall a d d1, c d = (Return a, d1) -> adds m (k a)) ->
  adds (n + m) (bind c k).
Proof.
  intros Hc Hk d r d' H. apply bind_outcome in H.
  destruct H as [(a & d1 & E1 & E2)|[E1 _]].
  - specialize (Hc _ _ _ E1). specialize (Hk a _ _ E1 _ _ _ E2). lia.
  - specialize (Hc _ _ _ E1). lia.
Qed.

Lemma adds_mapM {A B} n (f : A -> M B) l :
  (forall a, adds n (f a)) -> adds (length l * n) (mapM f l).
Proof.
  intros Hf. induction l as [|a r IH]; cbn [mapM length].
  - apply adds_keeps, keeps_ret.
  - eapply adds_le.
    + apply (adds_bind n (length r * n + 0)); [apply Hf|]. intros b.
      apply (adds_bind (length r * n) 0); [exact IH|]. intros bs.
      apply adds_keeps, keeps_ret.
    + lia.
Qed.

Lemma mapM_length {A B} (f : A -> M B) l :
  forall d bs d', mapM f l d = (Return bs, d') -> length bs = length l.
Proof.
  induction l as [|a r IH]; intros d bs d' H; cbn [mapM] in H.
  - unfold ret in H. injection H as <- _. reflexivity.
  - inv_bind H. inv_bind H. unfold ret in H. injection H as <- _.
    cbn [length]. f_equal. eapply IH, E0.
Qed.

Lemma mapM_Forall {A B} (P : B -> Prop) (f : A -> M B) l :
  (forall a d b d', f a d = (Return b, d') -> P b) ->
  forall d bs d', mapM f l d = (Return bs, d') -> Forall P bs.
Proof.
  intros Hf. induction l as [|a r IH]; intros d bs d' H; cbn [mapM] in H.
  - unfold ret in H. injection H as <- _. constructor.
  - inv_bind H. inv_bind H. unfold ret in H. injection H as <- _.
    constructor; [eapply Hf, E|eapply IH, E0].
Qed.

(** A list with an element on which [f] raises in every state makes
    [mapM f] raise. *)
Lemma mapM_raises {A B} (f : A -> M B) l x :
  x ∈ l -> (forall d, (f x d).1 = Raise) ->
  forall d, (mapM f l d).1 = Raise.
Proof.
  intros Hin Hx. induction l as [|a r IH]; intros d; [inversion Hin|].
  cbn [mapM]. unfold bind at 1.
  destruct (f a d) as [[b|] d1] eqn:E; [|reflexivity].
  apply elem_of_cons in Hin. destruct Hin as [->|Hin].
  - specialize (Hx d). rewrite E in Hx. discriminate.
  - specialize (IH Hin d1). unfold bind at 1.
    destruct (mapM f r d1) as [[bs|] d2]; [discriminate|reflexivity].
Qed.

Lemma simulations_add_requested s b d :
  simulations (add_event (Requested s b) d) = simulations d.
Proof.
  unfold simulations, add_event. cbn [trace].
  rewrite List.filter_app, length_app. simpl. lia.
Qed.

Section SimulationCounts.
Variable simulate : gdir -> disk -> sim_call -> model + string.
Variable cfg : params.
Variable argsort : list Q -> list nat.
Variable gd : gdir.
Variable y0 : Z.
Variable mb_offset : Q.

Lemma run_random_task_adds tupel :
  adds 1 (_run_random_task simulate tupel gd y0 mb_offset).
Proof.
  unfold _run_random_task.
  apply (adds_bind 0 1).
  { apply adds_keeps, keeps_modify. intros d. apply simulations_add_requested. }
  intros _. apply (adds_bind 0 1); [apply adds_keeps, read_flowlines_keeps|].
  intros _. apply (adds_bind 0 1); [apply adds_keeps, exists_path_keeps|].
  intros present. destruct (negb present).
  - apply (adds_bind 0 1); [apply adds_keeps, years_to_stable_keeps|].
    intros year. apply (adds_try 1 0); [|apply adds_keeps, keeps_ret].
    apply (adds_bind 1 0); [apply run_task_adds|].
    intros _. apply adds_keeps, keeps_ret.
  - apply (adds_le 0); [|lia]. apply adds_keeps, keeps_try; [|apply keeps_ret].
    apply keeps_bind; [apply FileModel_keeps|]. intros _. apply keeps_ret.
Qed.

Lemma run_random_parallel_adds tuples :
  adds (length tuples) (_run_random_parallel simulate gd y0 tuples mb_offset).
Proof.
  unfold _run_random_parallel. eapply adds_le.
  - apply (adds_bind (length tuples * 1) 0).
    + apply adds_mapM. intros tupel. apply run_random_task_adds.
    + intros paths. apply adds_keeps, keeps_mapM. intros rp.
      apply member_of_path_keeps.
  - lia.
Qed.

Lemma length_batch f start stop :
  length (enumerate_seeds f (arange start stop 50))
  = length (arange start stop 50).
Proof. unfold enumerate_seeds. apply length_imap. Qed.

Lemma generation_adds : adds 160 (generation simulate gd y0 mb_offset).
Proof.
  unfold generation.
  apply (adds_bind 100 60).
  { apply (adds_le (length first_batch)); [apply run_random_parallel_adds|].
    vm_compute. lia. }
  intros rrl. apply (adds_bind 0 60); [apply adds_keeps, keeps_lift_opt|].
  intros lowest. apply (adds_bind 40 20).
  { destruct (lowest =? -3000);
      [|apply (adds_le 0); [apply adds_keeps, keeps_ret|lia]].
    apply (adds_bind 40 0); [|intros; apply adds_keeps, keeps_ret].
    apply (adds_le (length (low_batch (length rrl))));
      [apply run_random_parallel_adds|].
    unfold low_batch. rewrite length_batch. vm_compute. lia. }
  intros rrl2. apply (adds_bind 0 20); [apply adds_keeps, keeps_lift_opt|].
  intros max_bias. apply (adds_bind 0 20); [apply adds_keeps, keeps_lift_opt|].
  intros max_row. apply (adds_bind 0 20); [apply adds_keeps, exists_path_keeps|].
  intros present. apply (adds_bind 0 20); [apply adds_keeps, FileModel_keeps|].
  intros fmod. apply (adds_bind 20 0); [|intros; apply adds_keeps, keeps_ret].
  destruct (min_nonzero (volume_m3_ts fmod));
    [|apply (adds_le 0); [apply adds_keeps, keeps_ret|lia]].
  apply (adds_bind 20 0); [|intros; apply adds_keeps, keeps_ret].
  apply (adds_le (length (high_batch (length rrl2))));
    [apply run_random_parallel_adds|].
  unfold high_batch. rewrite length_batch. vm_compute. lia.
Qed.

Lemma run_to_present_adds array ye :
  adds 1 (_run_to_present simulate array gd y0 ye mb_offset).
Proof.
  unfold _run_to_present.
  apply (adds_bind 0 1); [apply adds_keeps, exists_path_keeps|].
  intros present. destruct (negb present).
  - apply (adds_try 1 0); [|apply adds_keeps, keeps_ret].
    apply (adds_bind 1 0); [apply run_task_adds|].
    intros _. apply adds_keeps, keeps_ret.
  - apply (adds_le 0); [|lia]. apply adds_keeps, keeps_try; [|apply keeps_ret].
    apply keeps_bind; [apply FileModel_keeps|]. intros _. apply keeps_ret.
Qed.

Lemma bias_and_time_keeps {X} (proj : disk -> X) f :
  keeps proj (bias_and_time f).
Proof.
  unfold bias_and_time.
  apply keeps_bind; [apply keeps_lift_opt|]. intros tb.
  apply keeps_bind; [apply keeps_lift_opt|]. intros tb'.
  apply keeps_bind; [apply keeps_lift_opt|]. intros time. apply keeps_ret.
Qed.

Lemma evaluate_candidate_keeps {X} (proj : disk -> X) ye emod_t fls_mod delete f :
  keeps proj (evaluate_candidate gd y0 ye emod_t fls_mod delete f).
Proof.
  unfold evaluate_candidate. destruct f as [f|]; [|apply keeps_raise].
  apply keeps_try.
  - apply keeps_bind; [apply exists_path_keeps|]. intros present.
    apply keeps_bind; [apply FileModel_keeps|]. intros fmod.
    apply keeps_bind; [apply keeps_lift_opt|]. intros _.
    apply keeps_bind; [apply keeps_lift_opt|]. intros fitness.
    apply keeps_bind; [apply keeps_lift_opt|]. intros fitness_fls.
    apply keeps_bind; [apply bias_and_time_keeps|]. intros bt.
    destruct (negb delete); apply keeps_ret.
  - apply keeps_bind; [apply bias_and_time_keeps|]. intros bt. apply keeps_ret.
Qed.

Lemma evaluation_adds cand_df ye emod delete :
  adds (length cand_df)
       (evaluation simulate cfg gd cand_df y0 ye emod mb_offset delete).
Proof.
  unfold evaluation. eapply adds_le.
  - apply (adds_bind (length cand_df * 1) 0).
    { apply adds_mapM. intros array. apply run_to_present_adds. }
    intros suffix_list. apply adds_keeps.
    apply keeps_bind.
    { destruct emod; [apply keeps_ret|apply FileModel_keeps]. }
    intros emod_t. apply keeps_bind; [apply keeps_lift_opt|]. intros _.
    apply keeps_bind; [apply read_flowlines_keeps|]. intros fls_mod.
    apply keeps_bind.
    { apply keeps_mapM. intros f. apply evaluate_candidate_keeps. }
    intros df. apply keeps_bind; [|intros; apply keeps_ret].
    destruct (negb delete); [apply keeps_modify; reflexivity|apply keeps_ret].
  - lia.
Qed.

Lemma identification_length list_ ye n d cands d' :
  identification argsort gd list_ y0 ye n d = (Return cands, d') ->
  (length cands <= n)%nat.
Proof.
  unfold identification. intros H. inv_bind H.
  apply lift_opt_Return in H as [H _].
  apply select_candidates_spec in H as [Hlen _]. exact Hlen.
Qed.

Lemma find_possible_glaciers_adds ye n ex_mod delete :
  adds (160 + n)
       (find_possible_glaciers simulate cfg argsort gd y0 ye n ex_mod mb_offset delete).
Proof.
  unfold find_possible_glaciers.
  apply (adds_bind 0 (160 + n)); [apply adds_keeps, exists_path_keeps|].
  intros cached. destruct cached.
  { apply (adds_le 0); [|lia]. apply adds_keeps.
    apply keeps_bind; [apply keeps_get|]. intros d.
    destruct (files d !! _) as [[]|]; first [apply keeps_ret|apply keeps_raise]. }
  apply (adds_bind 160 n); [apply generation_adds|]. intros random_list.
  apply (adds_bind_ret 0 n).
  { apply adds_keeps, identification_keeps. }
  intros cands d d1 Hid. apply identification_length in Hid.
  apply (adds_le (length cands + 0)); [|lia].
  apply (adds_bind (length cands) 0); [apply evaluation_adds|].
  intros results. apply adds_keeps.
  apply keeps_bind; [|intros; apply keeps_ret].
  destruct delete.
  - apply keeps_bind; [apply keeps_lift_opt|]. intros save.
    apply keeps_bind; [apply keeps_modify; reflexivity|]. intros _.
    apply keeps_bind; [apply keeps_get|]. intros d2.
    apply keeps_modify. reflexivity.
  - apply keeps_modify. reflexivity.
Qed.

End SimulationCounts.

(** X13.  One search runs at most [160 + n] forward simulations,
    whatever the flow model does and however the search ends: at most
    100, 40 and 20 for the three batches of the ensemble, and one for
    each of the at most [n] candidates. *)
Theorem find_possible_glaciers_simulations
    (simulate : gdir -> disk -> sim_call -> model + string) (cfg : params)
    (argsort : list Q -> list nat)
    (gd : gdir) (y0 ye : Z) (n : nat) (ex_mod : option model) (mb_offset : Q)
    (delete : bool) (d : disk) :
  (simulations
     (find_possible_glaciers simulate cfg argsort gd y0 ye n ex_mod mb_offset delete d).2
   <= simulations d + 160 + n)%nat.
Proof.
  destruct (find_possible_glaciers simulate cfg argsort gd y0 ye n ex_mod mb_offset delete d)
    as [r d'] eqn:E.
  apply (find_possible_glaciers_adds simulate cfg argsort gd y0 mb_offset) in E.
  cbn [snd]. lia.
Qed.

(** X14.  A candidate whose run to the observation year failed makes
    [evaluation] raise: the [None] that [_run_to_present] returns for it
    cannot be split into a temperature bias and a time, neither in the
    [try] body nor in the [except] body of the loop over the suffixes,
    so no table is returned and none is stored. *)
Theorem evaluation_raises_on_failed_candidate
    (simulate : gdir -> disk -> sim_call -> model + string) (cfg : params)
    (gd : gdir) (cand_df : list (Z * string)) (y0 ye : Z) (emod : option model)
    (mb_offset : Q) (delete : bool) (d d1 : disk)
    (suffix_list : list (option string)) :
  mapM (fun array => _run_to_present simulate array gd y0 ye mb_offset) cand_df d
  = (Return suffix_list, d1) ->
  None ∈ suffix_list ->
  (evaluation simulate cfg gd cand_df y0 ye emod mb_offset delete d).1 = Raise.
Proof.
  intros Hrun Hnone. unfold evaluation.
  rewrite (bind_run _ _ _ _ _ Hrun).
  unfold bind at 1.
  destruct (match emod with Some m => ret m | None => FileModel _ end d1)
    as [[emod_t|] d2]; [|reflexivity].
  unfold bind at 1.
  destruct (lift_opt (run_until emod_t ye) d2) as [[x|] d3]; [|reflexivity].
  unfold bind at 1.
  destruct (read_flowlines gd d3) as [[fls_mod|] d4]; [|reflexivity].
  unfold bind at 1.
  pose proof (mapM_raises (evaluate_candidate gd y0 ye emod_t fls_mod delete)
                suffix_list None Hnone (fun d => eq_refl) d4) as Hr.
  destruct (mapM _ suffix_list d4) as [[df|] d5]; [discriminate|reflexivity].
Qed.

Lemma evaluation_raises_on_failed_candidate_witness :
  (evaluation overflowing cru bare_gdir [(0, "1850_random_0_-3.0")] 1850 2003
     (Some flat) 0 false surveyed).1 = Raise.
Proof.
  apply (evaluation_raises_on_failed_candidate overflowing cru bare_gdir
           [(0, "1850_random_0_-3.0")] 1850 2003 (Some flat) 0 false surveyed
           stuck_run.2 stuck_suffixes).
  - assert (H : stuck_run.1 = Return stuck_suffixes) by (vm_compute; reflexivity).
    exact (run_split stuck_run (Return stuck_suffixes) H).
  - vm_compute. constructor.
Defined.

Lemma evaluate_candidate_row gd y0 ye emod_t fls_mod delete f d r d' :
  evaluate_candidate gd y0 ye emod_t fls_mod delete f d = (Return r, d') ->
  well_formed_row delete r.
Proof.
  unfold evaluate_candidate. destruct f as [f|]; [|discriminate].
  intros H. apply try_except_Return in H. destruct H as [H|(d2 & _ & H)].
  - inv_bind H. inv_bind H. inv_bind H. inv_bind H. inv_bind H. inv_bind H.
    destruct delete; cbn [negb] in H; unfold ret in H; injection H as <- _;
      unfold well_formed_row; cbn; repeat split; eauto.
  - inv_bind H. unfold ret in H. injection H as <- _.
    unfold well_formed_row. cbn. repeat split.
Qed.

(** X15.  The table [evaluation] returns has one row per candidate, in
    the order of the candidates.  A row either stands for a candidate
    that could not be evaluated, and then has no model, no fitness and
    no volume, or carries both fitness values; in non-pruning mode the
    rows carry the model objects and neither length nor area, in
    pruning mode the paths of the model files with length and area. *)
Theorem evaluation_rows
    (simulate : gdir -> disk -> sim_call -> model + string) (cfg : params)
    (gd : gdir) (cand_df : list (Z * string)) (y0 ye : Z) (emod : option model)
    (mb_offset : Q) (delete : bool) (d d' : disk) (df : list result_row) :
  evaluation simulate cfg gd cand_df y0 ye emod mb_offset delete d
  = (Return df, d') ->
  length df = length cand_df /\ Forall (well_formed_row delete) df.
Proof.
  unfold evaluation. intros H.
  inv_bind H. inv_bind H. inv_bind H. inv_bind H. inv_bind H.
  assert (Hdf : df = a3).
  { destruct (negb delete); unfold bind, modify, ret in H;
      injection H as <- _; reflexivity. }
  subst a3. split.
  - rewrite (mapM_length _ _ _ _ _ E3). exact (mapM_length _ _ _ _ _ E).
  - refine (mapM_Forall _ _ _ _ _ _ _ E3).
    intros f dx r dx'. apply evaluate_candidate_row.
Qed.

Lemma evaluation_rows_witness :
  length direct_rows = length [(0, "1850_random_0_-3.0")] /\
  Forall (well_formed_row false) direct_rows.
Proof.
  apply (evaluation_rows gentle cru bare_gdir [(0, "1850_random_0_-3.0")]
           1850 2003 (Some flat) 0 false surveyed direct_run.2 direct_rows).
  assert (H : direct_run.1 = Return direct_rows) by (vm_compute; reflexivity).
  exact (run_split direct_run (Return direct_rows) H).
Defined.

Section CacheKey.
Variable simulate : gdir -> disk -> sim_call -> model + string.
Variable cfg : params.
Variable argsort : list Q -> list nat.
Variable gd : gdir.
Variable y0 : Z.

(** A search in non-pruning mode that returns has left its table under
    the cache key. *)
Lemma find_possible_glaciers_stores ye n ex_mod mb_offset d d1 results :
  find_possible_glaciers simulate cfg argsort gd y0 ye n ex_mod mb_offset false d
  = (Return results, d1) ->
  files d1 !! result_path cfg gd y0 = Some (ResultPickle results).
Proof.
  intros H. unfold find_possible_glaciers in H.
  unfold bind at 1, exists_path, bind at 1, get, ret in H.
  destruct (bool_decide _) in H.
  - unfold bind, get in H.
    destruct (files d !! result_path cfg gd y0) as [[]|] eqn:E;
      try discriminate.
    injection H as <- <-. exact E.
  - inv_bind H. inv_bind H. inv_bind H.
    unfold bind, modify, ret in H. injection H as <- <-.
    cbn [files set_files]. rewrite move_to_year_result.
    eapply evaluation_writes; eauto.
Qed.

(** A table under the cache key is returned as it is. *)
Lemma find_possible_glaciers_hit ye n ex_mod mb_offset delete d results :
  files d !! result_path cfg gd y0 = Some (ResultPickle results) ->
  find_possible_glaciers simulate cfg argsort gd y0 ye n ex_mod mb_offset delete d
  = (Return results, d).
Proof.
  intros Hfile. unfold find_possible_glaciers.
  unfold bind at 1, exists_path, bind at 1, get, ret.
  rewrite bool_decide_eq_true_2 by (rewrite Hfile; eauto).
  unfold bind, get. rewrite Hfile. reflexivity.
Qed.

End CacheKey.

(** X16.  The cache of [find_possible_glaciers] is keyed by the year
    [y0] and the climate parameters only.  Once a search in non-pruning
    mode has returned, every later search for the same year on the disk
    it left returns that same table and changes nothing, also when it
    asks for another number of candidates, another observation year,
    another reference model, another mass-balance offset or for
    pruning. *)
Theorem find_possible_glaciers_cache_key
    (simulate : gdir -> disk -> sim_call -> model + string) (cfg : params)
    (argsort : list Q -> list nat)
    (gd : gdir) (y0 ye ye' : Z) (n n' : nat) (ex_mod ex_mod' : option model)
    (mb_offset mb_offset' : Q) (delete' : bool)
    (d d1 : disk) (results : list result_row) :
  find_possible_glaciers simulate cfg argsort gd y0 ye n ex_mod mb_offset false d
  = (Return results, d1) ->
  find_possible_glaciers simulate cfg argsort gd y0 ye' n' ex_mod' mb_offset' delete' d1
  = (Return results, d1).
Proof.
  intros H. apply find_possible_glaciers_hit.
  exact (find_possible_glaciers_stores simulate cfg argsort gd y0 ye n ex_mod mb_offset
           d d1 results H).
Qed.

Lemma find_possible_glaciers_cache_key_witness :
  find_possible_glaciers gentle cru stable_argsort bare_gdir 1850 1990 7 None 1 true keep_run.2
  = (Return keep_results, keep_run.2).
Proof.
  apply (find_possible_glaciers_cache_key gentle cru stable_argsort bare_gdir 1850 2003 1990
           1 7 (Some flat) None 0 1 true surveyed keep_run.2 keep_results).
  assert (H : keep_run.1 = Return keep_results) by (vm_compute; reflexivity).
  exact (run_split keep_run (Return keep_results) H).
Defined.

Lemma prefix_head a s name :
  String.prefix (String a s) name = true -> exists r, name = String a r.
Proof.
  destruct name as [|b r]; simpl; [discriminate|].
  destruct (ascii_dec a b) as [->|]; [eauto|discriminate].
Qed.

(** Every name the pruning loop removes starts with [m]. *)
Lemma pruned_names gd y0 save d name :
  name ∈ pruned gd y0 save d -> exists r, name = String "m" r.
Proof.
  unfold pruned. intros H. apply elem_of_app in H. destruct H as [H|H].
  - apply list_elem_of_filter in H as [[H _] _].
    unfold Str.startswith in H. cbn [String.append] in H.
    exact (prefix_head _ _ _ H).
  - apply list_elem_of_In, in_map_iff in H. destruct H as (x & <- & _).
    cbn [Str.concat fold_right String.append]. eauto.
Qed.

(** X17.  When a search in pruning mode that found no cached table
    returns, it has stored its selection as [initialization_output.pkl],
    and the glacier directory holds no geometry file of the year
    (a name starting with [model_geometry<y0>]) other than the selected
    ones. *)
Theorem find_possible_glaciers_prunes
    (simulate : gdir -> disk -> sim_call -> model + string) (cfg : params)
    (argsort : list Q -> list nat)
    (gd : gdir) (y0 ye : Z) (n : nat) (ex_mod : option model) (mb_offset : Q)
    (d d' : disk) (results : list result_row) :
  files d !! result_path cfg gd y0 = None ->
  find_possible_glaciers simulate cfg argsort gd y0 ye n ex_mod mb_offset true d
  = (Return results, d') ->
  exists save,
    selection argsort results = Some save /\
    files d' !! Str.path_join (dir gd) "initialization_output.pkl"
    = Some (OutputPickle save) /\
    forall p name,
      listed gd p = Some name ->
      Str.startswith name ("model_geometry" ++ Str.str_int y0) = true ->
      name ∉ map snd save ->
      files d' !! p = None.
Proof.
  intros Hnone H. unfold find_possible_glaciers in H.
  unfold bind at 1, exists_path, bind at 1, get, ret in H.
  rewrite bool_decide_eq_false_2 in H
    by (rewrite Hnone; intros [x Hx]; discriminate).
  inv_bind H. inv_bind H. inv_bind H. inv_bind H.
  unfold ret in H. injection H as <- <-.
  inv_bind E2. apply lift_opt_Return in E3 as [Hsel ->].
  unfold bind, modify, get, remove_listed in E2. injection E2 as _ <-.
  exists a3. split; [exact Hsel|].
  cbn [files set_files]. split.
  - apply map_lookup_filter_Some. split; [apply lookup_insert_eq|].
    cbn [fst]. unfold survives. rewrite listed_join.
    change (Str.contains "/" "initialization_output.pkl") with false.
    cbv beta iota. apply negb_true_iff, bool_decide_eq_false_2.
    intros Hin. apply pruned_names in Hin as (r & Hr). discriminate.
  - intros p name Hl Hpre Hsave. apply map_lookup_filter_None. right.
    intros f Hf. cbn [fst]. unfold survives. rewrite Hl.
    rewrite bool_decide_eq_true_2; [discriminate|].
    unfold pruned. apply elem_of_app. left.
    apply list_elem_of_filter. split; [split; assumption|].
    unfold listing. apply list_elem_of_omap. exists (p, f).
    split; [|exact Hl]. apply elem_of_map_to_list. exact Hf.
Qed.

Lemma find_possible_glaciers_prunes_witness :
  exists save,
    selection stable_argsort prune_results = Some save /\
    files prune_run.2 !! Str.path_join (dir bare_gdir) "initialization_output.pkl"
    = Some (OutputPickle save) /\
    forall p name,
      listed bare_gdir p = Some name ->
      Str.startswith name ("model_geometry" ++ Str.str_int 1850) = true ->
      name ∉ map snd save ->
      files prune_run.2 !! p = None.
Proof.
  apply (find_possible_glaciers_prunes gentle cru stable_argsort bare_gdir 1850 2003 1
           (Some flat) 0 surveyed prune_run.2 prune_results).
  - vm_compute. reflexivity.
  - assert (H : prune_run.1 = Return prune_results) by (vm_compute; reflexivity).
    exact (run_split prune_run (Return prune_results) H).
Defined.

Lemma pool_map_total task w :
  (forall gd d, (task gd d).1 = Return tt) ->
  exists w', pool_map task w = Some w'.
Proof.
  intros Ht. induction w as [|[gd d] rest IH]; cbn [pool_map]; [eauto|].
  destruct IH as (rest' & ->). specialize (Ht gd d).
  destruct (task gd d) as [[[]|] d']; [eauto|discriminate].
Qed.

Lemma pool_map_Forall2 (R : gdir * disk -> gdir * disk -> Prop) task w :
  (forall gd d r d', task gd d = (r, d') -> R (gd, d) (gd, d')) ->
  forall w', pool_map task w = Some w' -> Forall2 R w w'.
Proof.
  intros Ht. induction w as [|[gd d] rest IH]; intros w' H; cbn [pool_map] in H.
  - injection H as <-. constructor.
  - destruct (task gd d) as [[u|] d'] eqn:E; [|discriminate].
    destruct (pool_map task rest) as [rest'|]; [|discriminate].
    injection H as <-. constructor; [exact (Ht _ _ _ _ E)|apply IH; reflexivity].
Qed.

Lemma pool_map_keeps_diagnostics task w w' :
  (forall gd, keeps diagnostics (task gd)) ->
  pool_map task w = Some w' -> same_diagnostics w w'.
Proof.
  intros Hk. apply pool_map_Forall2. intros gd d r d' E. cbn.
  split; [reflexivity|]. symmetry. exact (Hk gd d r d' E).
Qed.

(** X18.  [calibration_runs] completes for every list of glaciers,
    whatever happens to the single calibrations: no failure in one
    glacier aborts the batch, the glaciers come back in the same order
    and no diagnostics record is changed. *)
Theorem calibration_runs_completes
    (simulate : gdir -> disk -> sim_call -> model + string)
    (w : world) (ys : Z) :
  exists w', calibration_runs simulate w ys = Some w' /\ same_diagnostics w w'.
Proof.
  unfold calibration_runs.
  destruct (pool_map_total
              (fun gd => find_mb_offset simulate gd ys (-1000) 1000) w)
    as (w' & Hw).
  { intros gd d. apply find_mb_offset_returns. }
  exists w'. split; [exact Hw|].
  eapply pool_map_keeps_diagnostics; [|exact Hw].
  intros gd. apply find_mb_offset_keeps_diagnostics.
Qed.

(** [try: c  except: pass] never raises. *)
Lemma try_pass_returns (c : M unit) d : (try_except c (ret tt) d).1 = Return tt.
Proof. unfold try_except. destruct (c d) as [[[]|] d1]; reflexivity. Qed.

Lemma run_parallel_experiment_returns simulate gd t0 te d :
  (_run_parallel_experiment simulate gd t0 te d).1 = Return tt.
Proof. unfold _run_parallel_experiment. apply try_pass_returns. Qed.

Lemma run_parallel_experiment_keeps_diagnostics simulate gd t0 te :
  keeps diagnostics (_run_parallel_experiment simulate gd t0 te).
Proof.
  unfold _run_parallel_experiment. apply keeps_try; [|apply keeps_ret].
  apply keeps_bind; [apply read_flowlines_keeps|]. intros fls.
  apply keeps_bind; [apply years_to_stable_keeps|]. intros year.
  apply keeps_bind; [apply run_task_keeps_diagnostics|]. intros _.
  apply keeps_bind; [apply keeps_lift_opt|]. intros _.
  apply keeps_bind; [apply run_task_keeps_diagnostics|]. intros _.
  apply keeps_ret.
Qed.

(** X19.  On a non-empty list of glaciers
    [synthetic_experiments_parallel] always completes: a glacier whose
    experiment cannot be built is reported and skipped.  The glaciers
    come back in the same order with their diagnostics records
    unchanged.  Only the first glacier is looked at to decide whether
    results exist: unless the user agrees to the reset or the first
    glacier has no experiment, nothing is run for any glacier, whether
    the others have an experiment or not. *)
Theorem synthetic_experiments_parallel_completes
    (simulate : gdir -> disk -> sim_call -> model + string)
    (answer : bool) (gd0 : gdir) (d0 : disk) (rest : world) (t0 te : Z) :
  exists w',
    synthetic_experiments_parallel simulate answer ((gd0, d0) :: rest) t0 te
    = Some w' /\
    same_diagnostics ((gd0, d0) :: rest) w' /\
    (answer = true \/
     files d0 !! get_filepath gd0 "model_geometry" "_synthetic_experiment" = None \/
     w' = (gd0, d0) :: rest).
Proof.
  unfold synthetic_experiments_parallel.
  destruct (bool_decide (is_Some (files d0 !! _))) eqn:Hex.
  - destruct answer; cbn [negb].
    + destruct (pool_map_total
                  (fun gd => _run_parallel_experiment simulate gd t0 te)
                  ((gd0, d0) :: rest)) as (w' & Hw).
      { intros gd d. apply run_parallel_experiment_returns. }
      exists w'. split; [exact Hw|]. split; [|left; reflexivity].
      eapply pool_map_keeps_diagnostics; [|exact Hw].
      intros gd. apply run_parallel_experiment_keeps_diagnostics.
    + eexists. split; [reflexivity|]. split; [|right; right; reflexivity].
      apply Forall2_same_length_lookup_2; [reflexivity|].
      intros i a b Ha Hb. rewrite Ha in Hb. injection Hb as <-.
      split; reflexivity.
  - cbn [negb].
    destruct (pool_map_total
                (fun gd => _run_parallel_experiment simulate gd t0 te)
                ((gd0, d0) :: rest)) as (w' & Hw).
    { intros gd d. apply run_parallel_experiment_returns. }
    exists w'. split; [exact Hw|]. split.
    + eapply pool_map_keeps_diagnostics; [|exact Hw].
      intros gd. apply run_parallel_experiment_keeps_diagnostics.
    + right. left. apply bool_decide_eq_false_1 in Hex.
      destruct (files d0 !! _) as [f|]; [|reflexivity].
      exfalso. apply Hex. eauto.
Qed.

Module SuffixFacts.
Import Str StrFacts.

Lemma append_nil s : s ++ "" = s.
Proof. induction s as [|c s IH]; [reflexivity|]. cbn [String.append]. rewrite IH. reflexivity. Qed.

Lemma split_go_skip sep a rest :
  split_go sep (String.length a) (a ++ rest) = split_go sep 0 rest.
Proof.
  induction a as [|c a IH]; [reflexivity|].
  cbn [String.append String.length split_go].
  destruct (a ++ rest) eqn:E; exact IH.
Qed.

(** Splitting at the first occurrence of a separator. *)
Lemma split_at x sep p rest :
  free_before (String x sep) p (String x sep ++ rest) = true ->
  split (String x sep) (p ++ String x sep ++ rest)
  = p :: split (String x sep) rest.
Proof.
  unfold split. induction p as [|c p IH]; intros Hfree.
  - change ("" ++ String x sep ++ rest) with (String x (sep ++ rest)).
    cbn [split_go]. change (String x (sep ++ rest)) with (String x sep ++ rest).
    rewrite prefix_app.
    replace (String.length (String x sep) - 1)%nat with (String.length sep)
      by (cbn [String.length]; lia).
    rewrite split_go_skip. reflexivity.
  - cbn [free_before] in Hfree. apply andb_true_iff in Hfree as [Hhere Hfree].
    apply negb_true_iff in Hhere.
    change (String c p ++ String x sep ++ rest)
      with (String c (p ++ String x sep ++ rest)) in *.
    cbn [split_go]. rewrite Hhere. rewrite (IH Hfree). reflexivity.
Qed.

(** A string that holds no occurrence of the separator is one field. *)
Lemma split_free x sep s :
  free_before (String x sep) s "" = true -> split (String x sep) s = [s].
Proof.
  unfold split. induction s as [|c s IH]; intros Hfree; [reflexivity|].
  cbn [free_before] in Hfree. apply andb_true_iff in Hfree as [Hhere Hfree].
  apply negb_true_iff in Hhere. rewrite append_nil in Hhere.
  cbn [split_go]. rewrite Hhere, (IH Hfree). reflexivity.
Qed.

Lemma prefix_random_r t :
  String.prefix "_random" t = true -> exists a b, t = String a (String "r" b).
Proof.
  intros H. destruct t as [|a t]; [discriminate H|].
  cbn [String.prefix] in H. destruct (ascii_dec "_" a); [|discriminate].
  destruct t as [|b t]; [discriminate H|].
  cbn [String.prefix] in H. destruct (ascii_dec "r" b) as [<-|]; [eauto|discriminate].
Qed.

Lemma no_random s :
  all_chars (other_than "r") s = true -> free_before "_random" s "" = true.
Proof.
  induction s as [|c s IH]; [reflexivity|].
  cbn [free_before all_chars]. intros H. apply andb_true_iff in H as [_ Hs].
  rewrite (IH Hs), andb_true_r. apply negb_true_iff.
  destruct (String.prefix "_random" (String c s ++ "")) eqn:E; [|reflexivity].
  apply prefix_random_r in E as (a & b & E). rewrite append_nil in E.
  injection E as _ ->. cbn [all_chars] in Hs. discriminate.
Qed.

(** What [_run_to_present] keeps of the suffix of an ensemble member. *)
Lemma member_tail y0 seed bias :
  neg_index (split "_random" (random_suffix y0 seed bias)) 1
  = Some ("_" ++ str_nat seed ++ "_" ++ str_float bias).
Proof.
  unfold random_suffix.
  change (str_int y0 ++ "_random_" ++ str_nat seed ++ "_" ++ str_float bias)
    with (str_int y0 ++ "_random" ++ ("_" ++ str_nat seed ++ "_" ++ str_float bias)).
  rewrite split_at.
  2:{ apply free_before_other, int_char_no; [reflexivity|apply chars_str_int]. }
  rewrite split_free; [reflexivity|].
  apply no_random. cbn [String.append all_chars]. rewrite !all_chars_app.
  rewrite (digits_no "r" _ eq_refl (digits_str_nat seed)).
  cbn [all_chars].
  rewrite (str_float_no "r" bias eq_refl ltac:(discriminate)). reflexivity.
Qed.

(** The fields of the output suffix of a candidate. *)
Lemma output_fields ys seed bias init_yr :
  split "_" (str_int ys ++ "_past" ++ ("_" ++ str_nat seed ++ "_" ++ str_float bias)
               ++ "_" ++ str_int init_yr)
  = [str_int ys; "past"; str_nat seed; str_float bias; str_int init_yr].
Proof.
  transitivity
    (split "_" ((((str_int ys ++ String "_" "past") ++ String "_" (str_nat seed))
                   ++ String "_" (str_float bias)) ++ String "_" (str_int init_yr))).
  { f_equal. norm_app. reflexivity. }
  rewrite !split_char_app.
  rewrite (split_char_none "_" (str_int ys))
    by (apply int_char_no; [reflexivity|apply chars_str_int]).
  rewrite (split_char_none "_" (str_int init_yr))
    by (apply int_char_no; [reflexivity|apply chars_str_int]).
  rewrite (split_char_none "_" (str_nat seed))
    by (apply digits_no; [reflexivity|apply digits_str_nat]).
  rewrite (split_char_none "_" (str_float bias))
    by (apply str_float_no; [reflexivity|discriminate]).
  reflexivity.
Qed.

Lemma bias_and_time_output ys seed bias init_yr d :
  bias_and_time (str_int ys ++ "_past" ++ ("_" ++ str_nat seed ++ "_" ++ str_float bias)
                   ++ "_" ++ str_int init_yr) d
  = (Return (bias, str_int init_yr), d).
Proof.
  unfold bias_and_time. rewrite output_fields.
  unfold neg_index. cbn [rev app nth_error Nat.sub].
  unfold bind, lift_opt, ret. rewrite float_roundtrip. reflexivity.
Qed.

End SuffixFacts.

(** X20.  The suffix [_run_to_present] returns for a candidate taken
    from a member of the ensemble (init_filesuffix
    [<y0>_random_<seed>_<bias>], any initial year) reads back in
    [evaluation] as that member's temperature bias and the candidate's
    initial year: [float(f.split('_')[-2])] is the bias and
    [f.split('_')[-1]] the printed year. *)
Theorem run_to_present_suffix_roundtrip
    (simulate : gdir -> disk -> sim_call -> model + string)
    (gd : gdir) (ys ye : Z) (mb_offset : Q) (init_yr y0 : Z) (seed : N)
    (bias : Z) (d d1 d2 : disk) (f : string) :
  _run_to_present simulate (init_yr, random_suffix y0 seed bias) gd ys ye
    mb_offset d = (Return (Some f), d1) ->
  bias_and_time f d2 = (Return (bias, Str.str_int init_yr), d2).
Proof.
  intros H. unfold _run_to_present in H. cbn [fst snd] in H.
  rewrite SuffixFacts.member_tail in H. cbn [default] in H.
  assert (Hf : f = Str.str_int ys ++ "_past"
                   ++ ("_" ++ Str.str_nat seed ++ "_" ++ Str.str_float bias)
                   ++ "_" ++ Str.str_int init_yr).
  { inv_bind H. destruct (negb a).
    - apply try_except_Return in H. destruct H as [H|(d3 & _ & H)].
      + inv_bind H. unfold ret in H. injection H as <- _. reflexivity.
      + discriminate H.
    - apply try_except_Return in H. destruct H as [H|(d3 & _ & H)].
      + inv_bind H. unfold ret in H. injection H as <- _. reflexivity.
      + discriminate H. }
  rewrite Hf. apply SuffixFacts.bias_and_time_output.
Qed.

Lemma run_to_present_suffix_roundtrip_witness :
  bias_and_time "1850_past_0_-3.0_0" surveyed
  = (Return (-3000, Str.str_int 0), surveyed).
Proof.
  apply (run_to_present_suffix_roundtrip gentle bare_gdir 1850 2003 0 0 1850 0
           (-3000) surveyed forward_run.2 surveyed "1850_past_0_-3.0_0").
  assert (H : forward_run.1 = Return (Some "1850_past_0_-3.0_0"))
    by (vm_compute; reflexivity).
  exact (run_split forward_run (Return (Some "1850_past_0_-3.0_0")) H).
Defined.

(** X21.  When [time_to_stable] completes, every glacier comes back in
    its place, at most 101 forward simulations were run for it, and its
    diagnostics record is either unchanged or has got a
    [years_to_stable] that is a multiple of 100 between 300 and
    10100. *)
Theorem time_to_stable_batch
    (simulate : gdir -> disk -> sim_call -> model + string)
    (w w' : world) (ys : Z) :
  time_to_stable simulate w ys = Some w' ->
  Forall2 probed_from w w'.
Proof.
  unfold time_to_stable. apply pool_map_Forall2.
  intros gd d r d' E. unfold probed_from. cbn [fst snd].
  split; [reflexivity|]. split.
  - apply (single_time_to_stable_adds simulate gd ys) in E. lia.
  - exact (single_time_to_stable_diagnostics simulate gd ys d r d' E).
Qed.

Lemma time_to_stable_batch_witness :
  Forall2 probed_from two_glaciers two_probed.
Proof.
  apply (time_to_stable_batch steady two_glaciers two_probed 1850).
  vm_compute. reflexivity.
Defined.

#[local] Transparent calibration_loop.

Section CalibratorCounts.
Variable simulate : gdir -> disk -> sim_call -> model + string.
Variable gd : gdir.
Variables ys ye : Z.

Lemma single_calibration_run_adds mb_offset :
  adds 2 (_single_calibration_run simulate gd mb_offset ys ye).
Proof.
  unfold _single_calibration_run.
  apply (adds_try 0 2).
  { apply adds_keeps. apply keeps_bind; [apply FileModel_keeps|].
    intros m. apply keeps_ret. }
  apply (adds_try 2 0).
  - apply (adds_bind 0 2); [apply adds_keeps, read_flowlines_keeps|]. intros _.
    apply (adds_bind 0 2); [apply adds_keeps, years_to_stable_keeps|]. intros year.
    apply (adds_bind 1 1); [apply run_task_adds|]. intros _.
    apply (adds_bind 1 0); [apply run_task_adds|]. intros _.
    apply adds_keeps. apply keeps_bind; [apply FileModel_keeps|].
    intros m. apply keeps_ret.
  - apply adds_keeps. apply keeps_bind; [apply keeps_get|]. intros d.
    apply keeps_bind; [apply keeps_lift_opt|]. intros l.
    apply keeps_bind; [apply keeps_lift_opt|]. intros e. apply keeps_ret.
Qed.

Lemma calibration_loop_adds left :
  forall lo hi df,
    adds (2 * left) (calibration_loop simulate left gd ys ye lo hi df).
Proof.
  induction left as [|left IH]; intros lo hi df; simpl.
  - apply adds_keeps, keeps_ret.
  - eapply adds_le.
    + apply (adds_bind 2 (2 * left)); [apply single_calibration_run_adds|].
      intros ex. apply (adds_bind 0 (2 * left)).
      { apply adds_keeps.
        destruct ex; (apply keeps_bind; [apply keeps_lift_opt|]);
          intros x; apply keeps_ret. }
      intros de. destruct (converged lo hi de.1).
      * apply (adds_le 0); [apply adds_keeps, keeps_ret|lia].
      * destruct (negative de.1); apply IH.
    + lia.
Qed.

End CalibratorCounts.

Lemma find_mb_offset_adds simulate gd ys a b :
  adds 30 (find_mb_offset simulate gd ys a b).
Proof.
  unfold find_mb_offset. apply (adds_try 30 0); [|apply adds_keeps, keeps_ret].
  apply (adds_bind 30 0).
  { exact (calibration_loop_adds simulate gd ys (rgi_date gd) 15 a b []). }
  intros df. apply adds_keeps.
  apply keeps_bind; [apply keeps_lift_opt|]. intros mb_offset.
  apply keeps_bind; [apply keeps_modify; reflexivity|]. intros _.
  apply keeps_modify. reflexivity.
Qed.

#[local] Opaque calibration_loop.

(** X22.  One call of [find_mb_offset] runs at most 30 forward
    simulations, whatever the flow model does: at most two, a random
    climate run and a historical run, in each of the at most 15
    iterations. *)
Theorem find_mb_offset_simulations
    (simulate : gdir -> disk -> sim_call -> model + string)
    (gd : gdir) (ys : Z) (a b : Q) (d : disk) :
  (simulations (find_mb_offset simulate gd ys a b d).2 <= simulations d + 30)%nat.
Proof.
  destruct (find_mb_offset simulate gd ys a b d) as [r d'] eqn:E.
  apply (find_mb_offset_adds simulate gd ys a b) in E. cbn [snd]. lia.
Qed.

Lemma lookup_map {A B} (f : A -> B) l i : map f l !! i = f <$> l !! i.
Proof.
  revert i. induction l as [|x l IH]; intros [|i]; simpl; auto.
Qed.

Section Selection.
Context (lt : Q -> Q -> bool).
Hypothesis asym : forall x y, lt x y = true -> lt y x = false.
Hypothesis cotrans : forall x y z, lt x z = true -> lt x y = true \/ lt y z = true.

(** [idxmin] and [idxmax] return the position of a present value that
    no present value beats. *)
Lemma idx_best_spec col i :
  idx_best lt col = Some i ->
  exists v, col !! i = Some (Some v) /\
            forall j w, col !! j = Some (Some w) -> lt w v = false.
Proof.
  unfold idx_best.
  set (g := fun iv : nat * option Q =>
              match iv.2 with Some v => Some (iv.1, v) | None => None end).
  set (present := omap g (imap pair col)).
  destruct (argmin lt (map snd present)) as [k|] eqn:E; [|discriminate].
  intros H. destruct (present !! k) as [[i' v]|] eqn:Ek; [|discriminate].
  simpl in H. injection H as ->.
  destruct (argmin_spec lt asym cotrans _ _ E) as (m & Hm & Hmin & _).
  rewrite lookup_map, Ek in Hm. simpl in Hm. injection Hm as <-.
  exists v. split.
  - apply list_elem_of_lookup_2 in Ek. unfold present in Ek.
    apply list_elem_of_omap in Ek as ([j y] & Hin & Hg).
    apply elem_of_lookup_imap_1 in Hin as (j' & y' & Hjy & Hcol).
    injection Hjy as -> ->. unfold g in Hg. simpl in Hg.
    destruct y' as [w|]; [|discriminate]. injection Hg as -> ->. exact Hcol.
  - intros j w Hj. apply Hmin.
    apply list_elem_of_In, in_map_iff. exists (j, w). split; [reflexivity|].
    apply list_elem_of_In. unfold present. apply list_elem_of_omap.
    exists (j, Some w). split; [|reflexivity].
    apply (elem_of_lookup_imap_2 pair col (Some w) j Hj).
Qed.

End Selection.

(** The row a minimum is read from. *)
Lemma name_at_idxmin (col : result_row -> option Q) results name :
  name_at results (idxmin (map col results)) = Some name ->
  exists r v, r ∈ results /\ model_name r = Some name /\ col r = Some v /\
              forall r' w, r' ∈ results -> col r' = Some w -> (v <= w)%Q.
Proof.
  unfold name_at, idxmin.
  destruct (idx_best Qltb (map col results)) as [i|] eqn:E; [|discriminate].
  destruct (results !! i) as [r|] eqn:Er; [|discriminate]. intros Hname.
  apply (idx_best_spec Qltb Qltb_asym Qltb_cotrans) in E as (v & Hv & Hmin).
  rewrite lookup_map, Er in Hv. simpl in Hv. injection Hv as Hv.
  exists r, v. split; [eapply list_elem_of_lookup_2, Er|].
  split; [exact Hname|]. split; [exact Hv|].
  intros r' w Hin Hw. apply list_elem_of_lookup_1 in Hin as (j & Hj).
  apply Qltb_ge. apply (Hmin j). rewrite lookup_map, Hj. simpl. rewrite Hw.
  reflexivity.
Qed.

Lemma selection_head argsort results save :
  selection argsort results = Some save ->
  exists me mf rest,
    save = ("minimum_exp", me) :: ("minimum_fls", mf) :: rest /\
    name_at results (idxmin (map r_fitness results)) = Some me /\
    name_at results (idxmin (map r_fitness_fls results)) = Some mf.
Proof.
  unfold selection. intros H.
  destruct (name_at results (idxmin (map r_fitness results))) as [me|];
    [|discriminate].
  destruct (name_at results (idxmin (map r_fitness_fls results))) as [mf|];
    [|discriminate].
  cbn [mbind option_bind] in H.
  exists me, mf.
  destruct (0 <? length (at_most r_fitness 1 results))%nat.
  - destruct (select_by argsort r_fitness "exp" (at_most r_fitness 1 results))
      as [[[named sorted] index_exp]|]; [|discriminate].
    cbn [mbind option_bind] in H.
    destruct (sorted !! index_exp ≫= model_name) as [median_exp|]; [|discriminate].
    cbn [mbind option_bind] in H.
    destruct (0 <? length (at_most r_fitness_fls 1 results))%nat.
    + destruct (select_by argsort r_fitness_fls "fls" (at_most r_fitness_fls 1 results))
        as [[[named' sorted'] index_fls]|]; [|discriminate].
      cbn [mbind option_bind] in H.
      destruct (sorted !! index_fls ≫= model_name) as [median_fls|]; [|discriminate].
      cbn [mbind option_bind] in H. injection H as <-. eauto.
    + injection H as <-. eauto.
  - cbn [mbind option_bind] in H.
    destruct (0 <? length (at_most r_fitness_fls 1 results))%nat.
    + destruct (select_by argsort r_fitness_fls "fls" (at_most r_fitness_fls 1 results))
        as [[[named' sorted'] index_fls]|]; [|discriminate].
      cbn [mbind option_bind] in H.
      destruct (at_most r_fitness 1 results !! index_fls ≫= model_name)
        as [median_fls|]; [|discriminate].
      cbn [mbind option_bind] in H. injection H as <-. eauto.
    + injection H as <-. eauto.
Qed.

(** X23.  In the selection of pruning mode the entries [minimum_exp]
    and [minimum_fls] name the files of candidates with the least
    fitness and the least fitness against the glacier's own flowlines:
    no evaluated candidate of the table has a smaller value. *)
Theorem selection_minimum (argsort : list Q -> list nat)
    (results : list result_row)
    (save : list (string * string)) :
  selection argsort results = Some save ->
  exists r_exp r_fls v_exp v_fls,
    r_exp ∈ results /\ r_fls ∈ results /\
    saved "minimum_exp" save = model_name r_exp /\
    saved "minimum_fls" save = model_name r_fls /\
    r_fitness r_exp = Some v_exp /\ r_fitness_fls r_fls = Some v_fls /\
    Forall (fun r => match r_fitness r with
                     | Some w => (v_exp <= w)%Q
                     | None => True
                     end) results /\
    Forall (fun r => match r_fitness_fls r with
                     | Some w => (v_fls <= w)%Q
                     | None => True
                     end) results.
Proof.
  intros H. apply selection_head in H as (me & mf & rest & -> & He & Hf).
  apply name_at_idxmin in He as (r_exp & v_exp & Hin & Hname & Hv & Hmin).
  apply name_at_idxmin in Hf as (r_fls & v_fls & Hin' & Hname' & Hv' & Hmin').
  exists r_exp, r_fls, v_exp, v_fls.
  split; [exact Hin|]. split; [exact Hin'|].
  split; [rewrite Hname; reflexivity|]. split; [rewrite Hname'; reflexivity|].
  split; [exact Hv|]. split; [exact Hv'|]. split.
  - apply Forall_forall. intros r Hr.
    destruct (r_fitness r) as [w|] eqn:Ew; [|exact I]. exact (Hmin r w Hr Ew).
  - apply Forall_forall. intros r Hr.
    destruct (r_fitness_fls r) as [w|] eqn:Ew; [|exact I]. exact (Hmin' r w Hr Ew).
Qed.

Lemma selection_minimum_witness :
  exists r_exp r_fls v_exp v_fls,
    r_exp ∈ crossed_results /\ r_fls ∈ crossed_results /\
    saved "minimum_exp" crossed_save = model_name r_exp /\
    saved "minimum_fls" crossed_save = model_name r_fls /\
    r_fitness r_exp = Some v_exp /\ r_fitness_fls r_fls = Some v_fls /\
    Forall (fun r => match r_fitness r with
                     | Some w => (v_exp <= w)%Q
                     | None => True
                     end) crossed_results /\
    Forall (fun r => match r_fitness_fls r with
                     | Some w => (v_fls <= w)%Q
                     | None => True
                     end) crossed_results.
Proof.
  apply (selection_minimum stable_argsort crossed_results crossed_save).
  vm_compute. reflexivity.
Defined.

Module MoveFacts.
Import Str StrFacts.

Lemma prefix_split a s :
  String.prefix a s = true ->
  a ++ substring (String.length a) (String.length s - String.length a) s = s.
Proof.
  revert s. induction a as [|c a IH]; intros s H.
  - cbn [String.append String.length]. rewrite Nat.sub_0_r. apply substring_all.
  - destruct s as [|x s]; [discriminate H|]. cbn [String.prefix] in H.
    destruct (ascii_dec c x) as [->|]; [|discriminate].
    cbn [String.append String.length substring Nat.sub]. rewrite (IH s H).
    reflexivity.
Qed.

(** A listed name determines the path. *)
Lemma listed_inv gd p name :
  listed gd p = Some name ->
  p = path_join (dir gd) name /\ contains "/" name = false.
Proof.
  unfold listed, startswith.
  destruct (String.prefix (dir gd ++ "/") p) eqn:E; [|discriminate].
  destruct (contains "/" _) eqn:C; [discriminate|]. intros H. injection H as <-.
  split; [|exact C]. unfold path_join. rewrite <- app_assoc_s.
  symmetry. apply prefix_split, E.
Qed.

Lemma contains_app a b : contains "/" (a ++ "/" ++ b) = true.
Proof.
  induction a as [|c a IH].
  - destruct b; reflexivity.
  - cbn [String.append contains]. cbn [String.append] in IH. rewrite IH.
    apply orb_true_r.
Qed.

Lemma moved_injective gd y0 n1 n2 :
  path_join (path_join (dir gd) (str_int y0)) n1
  = path_join (path_join (dir gd) (str_int y0)) n2 -> n1 = n2.
Proof.
  unfold path_join. intros H.
  apply (inj (String.append _)) in H. injection H as H. exact H.
Qed.

Lemma moved_is_not_listed gd y0 name n :
  contains "/" name = false ->
  path_join (dir gd) name <> path_join (path_join (dir gd) (str_int y0)) n.
Proof.
  unfold path_join. intros Hc H. rewrite app_assoc_s in H.
  apply (inj (String.append (dir gd))) in H.
  cbn [String.append] in H. injection H as ->.
  pose proof (contains_app (str_int y0) n) as Hx. cbn [String.append] in Hx.
  rewrite Hx in Hc. discriminate.
Qed.

Section Moves.
Variable gd : gdir.
Variable y0 : Z.

Lemma foldr_hit l :
  forall (acc : gmap string file) k f name,
    (k, f) ∈ l -> listed gd k = Some name ->
    (forall k' f', (k', f') ∈ l -> listed gd k' = Some name -> f' = f) ->
    foldr (fun (kv : string * file) (acc : gmap string file) =>
           match listed gd kv.1 with
           | Some name =>
               <[path_join (path_join (dir gd) (str_int y0)) name := kv.2]> acc
           | None => acc
           end)
      acc l !! path_join (path_join (dir gd) (str_int y0)) name = Some f.
Proof.
  induction l as [|[k0 f0] l IH]; intros acc k f name Hin Hl Huniq;
    [inversion Hin|].
  cbn [foldr fst snd].
  destruct (listed gd k0) as [n0|] eqn:E0.
  - destruct (decide (n0 = name)) as [->|Hne].
    + rewrite lookup_insert_eq. f_equal.
      apply (Huniq k0 f0); [constructor|exact E0].
    + rewrite lookup_insert_ne
        by (intros Heq; apply moved_injective in Heq; contradiction).
      apply elem_of_cons in Hin. destruct Hin as [Heq|Hin].
      { injection Heq as -> ->. rewrite E0 in Hl. injection Hl as ->.
        contradiction. }
      apply (IH acc k f name Hin Hl).
      intros k' f' Hin' Hl'. apply (Huniq k' f'); [constructor; exact Hin'|exact Hl'].
  - apply elem_of_cons in Hin. destruct Hin as [Heq|Hin].
    { injection Heq as -> ->. rewrite E0 in Hl. discriminate. }
    apply (IH acc k f name Hin Hl).
    intros k' f' Hin' Hl'. apply (Huniq k' f'); [constructor; exact Hin'|exact Hl'].
Qed.

Lemma foldr_miss l :
  forall (acc : gmap string file) q,
    (forall n, q <> path_join (path_join (dir gd) (str_int y0)) n) ->
    foldr (fun (kv : string * file) (acc : gmap string file) =>
           match listed gd kv.1 with
           | Some name =>
               <[path_join (path_join (dir gd) (str_int y0)) name := kv.2]> acc
           | None => acc
           end)
      acc l !! q = acc !! q.
Proof.
  induction l as [|kv l IH]; intros acc q Hq; [reflexivity|].
  cbn [foldr]. destruct (listed gd kv.1) as [n0|]; [|apply IH, Hq].
  rewrite lookup_insert_ne by (intros Heq; exact (Hq n0 (eq_sym Heq))).
  apply IH, Hq.
Qed.

(** The renaming loop of non-pruning mode: a file of the year that lay
    in the glacier directory lies in the year's subdirectory, with its
    content, and no longer in the glacier directory. *)
Lemma move_to_year_moves (fs : gmap string file) name f :
  of_year y0 name = true -> contains "/" name = false ->
  fs !! path_join (dir gd) name = Some f ->
  move_to_year gd y0 fs !! path_join (path_join (dir gd) (str_int y0)) name
  = Some f /\
  move_to_year gd y0 fs !! path_join (dir gd) name = None.
Proof.
  intros Hyear Hname Hf.
  assert (Hl : listed gd (path_join (dir gd) name) = Some name).
  { rewrite listed_join, Hname. reflexivity. }
  assert (Hs : survives gd (of_year y0) (path_join (dir gd) name) = false).
  { unfold survives. rewrite Hl, Hyear. reflexivity. }
  unfold move_to_year. split.
  - apply (foldr_hit _ _ (path_join (dir gd) name) f name); [|exact Hl|].
    + apply elem_of_map_to_list, map_lookup_filter_Some. split; [exact Hf|exact Hs].
    + intros k' f' Hin Hl'. apply elem_of_map_to_list, map_lookup_filter_Some in Hin.
      destruct Hin as [Hin _]. apply listed_inv in Hl' as [-> _]. congruence.
  - rewrite foldr_miss by (intros n; apply moved_is_not_listed, Hname).
    apply map_lookup_filter_None. right. intros x _. cbn [fst]. rewrite Hs.
    discriminate.
Qed.

(** No file of the year is left in the glacier directory. *)
Lemma move_to_year_clears (fs : gmap string file) p name :
  listed gd p = Some name -> of_year y0 name = true ->
  move_to_year gd y0 fs !! p = None.
Proof.
  intros Hl Hyear. destruct (listed_inv _ _ _ Hl) as [-> Hname].
  unfold move_to_year.
  rewrite foldr_miss by (intros n; apply moved_is_not_listed, Hname).
  apply map_lookup_filter_None. right. intros x _. cbn [fst].
  unfold survives. rewrite Hl, Hyear. discriminate.
Qed.

End Moves.

End MoveFacts.

(** X24.  When a search in non-pruning mode that found no cached table
    returns, it has moved the outputs of the year out of the glacier
    directory: no file whose name starts with [model_geometry<y0>] or
    [model_diagnostics<y0>] is left there, and every such file that
    [evaluation] left in the glacier directory lies, with its content,
    in the subdirectory named after the year, which is where
    [_run_random_task] and [_run_to_present] look for earlier
    outputs. *)
Theorem find_possible_glaciers_moves
    (simulate : gdir -> disk -> sim_call -> model + string) (cfg : params)
    (argsort : list Q -> list nat)
    (gd : gdir) (y0 ye : Z) (n : nat) (ex_mod : option model) (mb_offset : Q)
    (d d' : disk) (results : list result_row) :
  files d !! result_path cfg gd y0 = None ->
  find_possible_glaciers simulate cfg argsort gd y0 ye n ex_mod mb_offset false d
  = (Return results, d') ->
  exists cands d2 d3,
    evaluation simulate cfg gd cands y0 ye ex_mod mb_offset false d2
    = (Return results, d3) /\
    Forall (fun kv : string * file =>
              match listed gd kv.1 with
              | Some name =>
                  if of_year y0 name
                  then files d' !! kv.1 = None /\
                       files d' !! Str.path_join
                                     (Str.path_join (dir gd) (Str.str_int y0)) name
                       = Some kv.2
                  else True
              | None => True
              end) (map_to_list (files d3)) /\
    Forall (fun kv : string * file =>
              match listed gd kv.1 with
              | Some name => of_year y0 name = false
              | None => True
              end) (map_to_list (files d')).
Proof.
  intros Hnone H. unfold find_possible_glaciers in H.
  unfold bind at 1, exists_path, bind at 1, get, ret in H.
  rewrite bool_decide_eq_false_2 in H
    by (rewrite Hnone; intros [x Hx]; discriminate).
  inv_bind H. inv_bind H. inv_bind H.
  unfold bind, modify, ret in H. injection H as <- <-.
  exists a0, d1, d2. split; [exact E1|]. cbn [files set_files]. split.
  - apply Forall_forall. intros [p f] Hin. cbn [fst snd].
    apply elem_of_map_to_list in Hin.
    destruct (listed gd p) as [name|] eqn:Hl; [|exact I].
    destruct (of_year y0 name) eqn:Hy; [|exact I].
    destruct (MoveFacts.listed_inv _ _ _ Hl) as [-> Hname].
    destruct (MoveFacts.move_to_year_moves gd y0 (files d2) name f Hy Hname Hin)
      as [Hmoved Hgone].
    split; [exact Hgone|exact Hmoved].
  - apply Forall_forall. intros [p f] Hin. cbn [fst].
    apply elem_of_map_to_list in Hin.
    destruct (listed gd p) as [name|] eqn:Hl; [|exact I].
    destruct (of_year y0 name) eqn:Hy; [|reflexivity].
    rewrite (MoveFacts.move_to_year_clears gd y0 (files d2) p name Hl Hy) in Hin.
    discriminate.
Qed.

Lemma find_possible_glaciers_moves_witness :
  exists cands d2 d3,
    evaluation gentle cru bare_gdir cands 1850 2003 (Some flat) 0 false d2
    = (Return keep_results, d3) /\
    Forall (fun kv : string * file =>
              match listed bare_gdir kv.1 with
              | Some name =>
                  if of_year 1850 name
                  then files keep_run.2 !! kv.1 = None /\
                       files keep_run.2 !! Str.path_join
                                     (Str.path_join (dir bare_gdir) (Str.str_int 1850)) name
                       = Some kv.2
                  else True
              | None => True
              end) (map_to_list (files d3)) /\
    Forall (fun kv : string * file =>
              match listed bare_gdir kv.1 with
              | Some name => of_year 1850 name = false
              | None => True
              end) (map_to_list (files keep_run.2)).
Proof.
  apply (find_possible_glaciers_moves gentle cru stable_argsort bare_gdir 1850 2003 1
           (Some flat) 0 surveyed keep_run.2 keep_results).
  - vm_compute. reflexivity.
  - assert (H : keep_run.1 = Return keep_results) by (vm_compute; reflexivity).
    exact (run_split keep_run (Return keep_results) H).
Defined.
